(** * Indexing pipeline and similarity search: a shallow embedding

    The development follows the Python sources module by module:
    [app/core/file_processor.py], [app/database/models.py],
    [app/database/crud.py], [app/services/deletion_tracker.py],
    [app/monitoring/event_handler.py], [app/monitoring/indexer.py],
    [app/services/indexing_service.py], [app/core/similarity_calculator.py],
    [app/services/search_service.py], [app/monitoring/watcher.py],
    [app/api/routes/folders.py].

    Conventions.
    - Python [str] is [string]; [int] identifiers and counters are [nat];
      [float] values (clock readings, similarity scores) are rationals [Q],
      rounding left aside.
    - The database is a record of tables; a table is the list of its rows in
      insertion order.  A write through an ORM object is an update of the
      rows carrying that primary key.
    - Everything outside the repository (numpy, the model, the file system,
      [mimetypes]) is a field of the record [World].
    - A clock reading ([time.time()], [datetime.utcnow()]) is an explicit
      argument of the function that takes it. *)

From Stdlib Require Import List String Ascii Bool Arith ZArith QArith Lia Lqa.
From Stdlib Require Import Sorting.Sorted Sorting.Permutation.
From stdpp Require Import base gmap strings.
Import ListNotations.

Local Open Scope string_scope.
Local Open Scope list_scope.

(** ** Python strings and [pathlib] *)

Module Py.

(** [str.lower] on ASCII letters. *)
Definition lower_ascii (c : ascii) : ascii :=
  let n := nat_of_ascii c in
  if Nat.leb 65 n && Nat.leb n 90 then ascii_of_nat (n + 32) else c.

Fixpoint lower (s : string) : string :=
  match s with
  | EmptyString => EmptyString
  | String c r => String (lower_ascii c) (lower r)
  end.

(** [str.startswith] *)
Definition startswith (s p : string) : bool := String.prefix p s.

(** [str.endswith] *)
Definition endswith (s p : string) : bool :=
  let n := String.length s in
  let m := String.length p in
  Nat.leb m n && String.eqb (substring (n - m) m s) p.

(** Split at the last occurrence of [sep]: [None] when [sep] is absent,
    otherwise the text before it and the text after it. *)
Fixpoint rpartition (sep : ascii) (s : string) : option (string * string) :=
  match s with
  | EmptyString => None
  | String c r =>
      match rpartition sep r with
      | Some (b, a) => Some (String c b, a)
      | None => if Ascii.eqb c sep then Some (EmptyString, r) else None
      end
  end.

(** [Path(p).name] for a normalised POSIX path: the last component. *)
Definition name (p : string) : string :=
  match rpartition "/" p with
  | Some (_, a) => a
  | None => p
  end.

(** [Path(p).suffix]: with [i = name.rfind('.')], the text [name[i:]] when
    [0 < i < len(name) - 1], and the empty string otherwise. *)
Definition suffix (p : string) : string :=
  match rpartition "." (name p) with
  | Some (b, a) =>
      if Nat.ltb 0 (String.length b) && Nat.ltb 0 (String.length a)
      then String "." a
      else EmptyString
  | None => EmptyString
  end.

(** [x in xs] for a collection of strings. *)
Definition str_in (x : string) (xs : list string) : bool :=
  existsb (String.eqb x) xs.

End Py.

(** ** The world outside the repository *)

(** A numpy array of floats. *)
Definition ndarray : Type := list Q.

(** A [bytes] value. *)
Definition bytes : Type := list Byte.byte.

(** What [os.stat] and [os.access] tell about a path that exists. *)
Record FsEntry : Type := mkFsEntry {
  fs_is_file : bool;
  fs_readable : bool;
  st_size : nat
}.

Record World : Type := mkWorld {
  (** [np.dot] followed by [float(...)] *)
  np_dot : ndarray -> ndarray -> Q;
  (** [np.save] into a fresh buffer, [np.load] from a buffer *)
  np_save : ndarray -> bytes;
  np_load : bytes -> ndarray;
  (** the file system: absolute paths of the entries, in walk order *)
  fs : list (string * FsEntry);
  (** [mimetypes.guess_type(path)[0]] *)
  guess_type : string -> option string;
  (** [ModelLoader.load]: [Some msg] when loading raises *)
  model_load_error : option string;
  (** the model on an audio file, a video file, and on text aligned to a
      target modality; [None] is "no embedding" (an exception inside the
      worker closure is turned into [None] by the generator) *)
  audio_embeds : string -> option ndarray;
  video_embeds : string -> option ndarray;
  text_embeds : string -> string -> option ndarray
}.

Definition fs_lookup (w : World) (p : string) : option FsEntry :=
  match List.find (fun e => String.eqb (fst e) p) (fs w) with
  | Some e => Some (snd e)
  | None => None
  end.

(** [Path(p).exists()] *)
Definition path_exists (w : World) (p : string) : bool :=
  match fs_lookup w p with Some _ => true | None => false end.

(** [Path(folder).rglob("*" + ext)]: the entries below [folder] whose last
    component ends with [ext]. *)
Definition rglob (w : World) (folder ext : string) : list (string * FsEntry) :=
  List.filter
    (fun e => Py.startswith (fst e) (folder +:+ "/")
              && Py.endswith (Py.name (fst e)) ext)
    (fs w).

(** The outcome of a call that may raise. *)
Inductive outcome (A : Type) : Type :=
| Ok (a : A)
| Raise (msg : string).
Arguments Ok {A} a.
Arguments Raise {A} msg.

(** ** [app/core/file_processor.py] *)

Module ModalityDetector.

Definition AUDIO_EXTENSIONS : list string :=
  [".mp3"; ".wav"; ".flac"; ".aac"; ".ogg"; ".m4a"; ".wma"; ".opus"].

Definition VIDEO_EXTENSIONS : list string :=
  [".mp4"; ".avi"; ".mov"; ".mkv"; ".webm"; ".flv"; ".wmv"; ".m4v"].

Definition detect (file_path : string) : option string :=
  let ext := Py.lower (Py.suffix file_path) in
  if Py.str_in ext AUDIO_EXTENSIONS then Some "audio"
  else if Py.str_in ext VIDEO_EXTENSIONS then Some "video"
  else None.

Definition is_supported (file_path : string) : bool :=
  match detect file_path with Some _ => true | None => false end.

End ModalityDetector.

Module FileProcessor.

(** The first component of the pair returned by [validate_file]. *)
Definition validate_file (w : World) (file_path : string) : bool :=
  match fs_lookup w file_path with
  | None => false
  | Some e =>
      if negb (fs_is_file e) then false
      else if negb (fs_readable e) then false
      else if Nat.eqb (st_size e) 0 then false
      else if negb (ModalityDetector.is_supported file_path) then false
      else true
  end.

Record FileInfo : Type := mkFileInfo {
  fi_path : string;
  fi_filename : string;
  fi_file_size : nat;
  fi_modality : option string
}.

Definition get_file_info (w : World) (file_path : string) : FileInfo :=
  {| fi_path := file_path;
     fi_filename := Py.name file_path;
     fi_file_size :=
       match fs_lookup w file_path with Some e => st_size e | None => 0 end;
     fi_modality := ModalityDetector.detect file_path |}.

Definition get_mime_type (w : World) (file_path : string) : option string :=
  guess_type w file_path.

End FileProcessor.

(** ** [app/database/models.py] *)

Record Folder : Type := mkFolder {
  folder_id : nat;
  folder_path : string;
  folder_modality : string;
  is_active : bool;
  last_indexed_at : option Z
}.

Record File : Type := mkFile {
  file_id : nat;
  file_folder_id : nat;
  file_path : string;
  filename : string;
  file_modality : option string;
  file_size : option nat;
  mime_type : option string;
  duration_seconds : option Q;
  is_deleted : bool;
  deletion_notified : bool;
  indexed_at : option Z
}.

Record Embedding : Type := mkEmbedding {
  emb_id : nat;
  emb_file_id : nat;
  emb_modality : option string;
  embedding_type : string;
  vector : option bytes
}.

Record IndexingJob : Type := mkIndexingJob {
  job_id : nat;
  job_type : string;
  job_folder_id : option nat;
  status : string;
  total_files : nat;
  processed_files : nat;
  failed_files : nat;
  error_message : option string;
  started_at : option Z;
  completed_at : option Z
}.

(** The four tables.  [id] is the primary key of each; [path] is unique in
    [folders] and in [files]. *)
Record DB : Type := mkDB {
  folders : list Folder;
  files : list File;
  embeddings : list Embedding;
  jobs : list IndexingJob
}.

(** The key an autoincrement column gives the next row. *)
Definition next_id {A : Type} (key : A -> nat) (rows : list A) : nat :=
  S (list_max (map key rows)).

(** Rewrite the rows that carry primary key [k]. *)
Definition update_rows {A : Type} (key : A -> nat) (k : nat) (f : A -> A)
    (rows : list A) : list A :=
  map (fun r => if Nat.eqb (key r) k then f r else r) rows.

(** Field assignments on ORM objects. *)
Definition set_last_indexed_at (t : Z) (f : Folder) : Folder :=
  {| folder_id := folder_id f; folder_path := folder_path f;
     folder_modality := folder_modality f; is_active := is_active f;
     last_indexed_at := Some t |}.

Definition set_deleted (d n : bool) (f : File) : File :=
  {| file_id := file_id f; file_folder_id := file_folder_id f;
     file_path := file_path f; filename := filename f;
     file_modality := file_modality f; file_size := file_size f;
     mime_type := mime_type f; duration_seconds := duration_seconds f;
     is_deleted := d; deletion_notified := n; indexed_at := indexed_at f |}.

Definition set_deletion_notified (n : bool) (f : File) : File :=
  set_deleted (is_deleted f) n f.

Definition set_indexed_at (t : Z) (f : File) : File :=
  {| file_id := file_id f; file_folder_id := file_folder_id f;
     file_path := file_path f; filename := filename f;
     file_modality := file_modality f; file_size := file_size f;
     mime_type := mime_type f; duration_seconds := duration_seconds f;
     is_deleted := is_deleted f; deletion_notified := deletion_notified f;
     indexed_at := Some t |}.

Definition set_vector (v : bytes) (e : Embedding) : Embedding :=
  {| emb_id := emb_id e; emb_file_id := emb_file_id e;
     emb_modality := emb_modality e; embedding_type := embedding_type e;
     vector := Some v |}.

Definition with_folders (db : DB) (l : list Folder) : DB :=
  {| folders := l; files := files db; embeddings := embeddings db; jobs := jobs db |}.
Definition with_files (db : DB) (l : list File) : DB :=
  {| folders := folders db; files := l; embeddings := embeddings db; jobs := jobs db |}.
Definition with_embeddings (db : DB) (l : list Embedding) : DB :=
  {| folders := folders db; files := files db; embeddings := l; jobs := jobs db |}.
Definition with_jobs (db : DB) (l : list IndexingJob) : DB :=
  {| folders := folders db; files := files db; embeddings := embeddings db; jobs := l |}.

(** ** [app/database/crud.py] *)

Definition serialize_array (w : World) (array : ndarray) : bytes := np_save w array.
Definition deserialize_array (w : World) (blob : bytes) : ndarray := np_load w blob.

Module FolderCRUD.

Definition get (db : DB) (id : nat) : option Folder :=
  List.find (fun f => Nat.eqb (folder_id f) id) (folders db).

Definition list_all (db : DB) (active_only : bool) : list Folder :=
  if active_only then List.filter is_active (folders db) else folders db.

Definition update_last_indexed (db : DB) (id : nat) (timestamp : Z) : DB :=
  match get db id with
  | Some _ =>
      with_folders db (update_rows folder_id id (set_last_indexed_at timestamp) (folders db))
  | None => db
  end.

Definition get_by_path (db : DB) (path : string) : option Folder :=
  List.find (fun f => String.eqb (folder_path f) path) (folders db).

(** [path] is declared [unique=True]: the commit of a second folder with
    the same path raises. *)
Definition create (db : DB) (path modality : string) : outcome Folder * DB :=
  match get_by_path db path with
  | Some _ => (Raise "IntegrityError: UNIQUE constraint failed: folders.path", db)
  | None =>
      let folder :=
        {| folder_id := next_id folder_id (folders db); folder_path := path;
           folder_modality := modality; is_active := true;
           last_indexed_at := None |} in
      (Ok folder, with_folders db (folders db ++ [folder]))
  end.

Definition set_folder_fields (active : option bool) (modality : option string)
    (f : Folder) : Folder :=
  {| folder_id := folder_id f; folder_path := folder_path f;
     folder_modality :=
       match modality with Some m => m | None => folder_modality f end;
     is_active := match active with Some a => a | None => is_active f end;
     last_indexed_at := last_indexed_at f |}.

Definition update (db : DB) (id : nat) (active : option bool)
    (modality : option string) : option Folder * DB :=
  match get db id with
  | None => (None, db)
  | Some folder =>
      (Some (set_folder_fields active modality folder),
       with_folders db
         (update_rows folder_id id (set_folder_fields active modality) (folders db)))
  end.

Definition clear_job_folder (j : IndexingJob) : IndexingJob :=
  {| job_id := job_id j; job_type := job_type j; job_folder_id := None;
     status := status j; total_files := total_files j;
     processed_files := processed_files j; failed_files := failed_files j;
     error_message := error_message j; started_at := started_at j;
     completed_at := completed_at j |}.

(** [db.delete(folder)]: the relationship [Folder.files] and, below it,
    [File.embeddings] are declared with [cascade="all, delete-orphan"], so
    the folder's files and their embeddings go with it; the jobs that
    refer to the folder lose the reference. *)
Definition delete (db : DB) (id : nat) : bool * DB :=
  match get db id with
  | None => (false, db)
  | Some _ =>
      let gone (f : File) := Nat.eqb (file_folder_id f) id in
      let gone_ids := map file_id (List.filter gone (files db)) in
      (true,
       {| folders := List.filter (fun f => negb (Nat.eqb (folder_id f) id)) (folders db);
          files := List.filter (fun f => negb (gone f)) (files db);
          embeddings :=
            List.filter (fun e => negb (existsb (Nat.eqb (emb_file_id e)) gone_ids))
                        (embeddings db);
          jobs :=
            map (fun j => match job_folder_id j with
                          | Some k => if Nat.eqb k id then clear_job_folder j else j
                          | None => j
                          end)
                (jobs db) |})
  end.

End FolderCRUD.

Module FileCRUD.

Definition create (db : DB) (folder : nat) (path fname : string)
    (modality : option string) (size : option nat) (mime : option string)
    : File * DB :=
  let file :=
    {| file_id := next_id file_id (files db); file_folder_id := folder;
       file_path := path; filename := fname; file_modality := modality;
       file_size := size; mime_type := mime; duration_seconds := None;
       is_deleted := false; deletion_notified := false; indexed_at := None |} in
  (file, with_files db (files db ++ [file])).

Definition get (db : DB) (id : nat) : option File :=
  List.find (fun f => Nat.eqb (file_id f) id) (files db).

Definition get_by_path (db : DB) (path : string) : option File :=
  List.find (fun f => String.eqb (file_path f) path) (files db).

Definition list_by_folder (db : DB) (folder : nat) (include_deleted : bool)
    : list File :=
  let rows := List.filter (fun f => Nat.eqb (file_folder_id f) folder) (files db) in
  if negb include_deleted then List.filter (fun f => negb (is_deleted f)) rows
  else rows.

Definition mark_deleted (db : DB) (path : string) : bool * DB :=
  match get_by_path db path with
  | None => (false, db)
  | Some file =>
      (true, with_files db (update_rows file_id (file_id file) (set_deleted true false) (files db)))
  end.

Definition mark_deletion_notified (db : DB) (id : nat) : bool * DB :=
  match get db id with
  | None => (false, db)
  | Some file =>
      (true, with_files db (update_rows file_id id (set_deletion_notified true) (files db)))
  end.

Definition update_indexed_at (db : DB) (id : nat) (now : Z) : DB :=
  match get db id with
  | Some _ => with_files db (update_rows file_id id (set_indexed_at now) (files db))
  | None => db
  end.

(** [select(func.count(File.id)).where(and_(folder_id == ..., is_deleted == False))] *)
Definition count_by_folder (db : DB) (folder : nat) : nat :=
  length (List.filter
            (fun f => Nat.eqb (file_folder_id f) folder && negb (is_deleted f))
            (files db)).

End FileCRUD.

(** [list.sort(key=key, reverse=True)]: a stable sort, descending by key.
    [insert_reverse] puts [x], which came before every element of the
    already sorted [l], after the elements whose key is strictly larger. *)
Fixpoint insert_reverse {A : Type} (key : A -> Q) (x : A) (l : list A) : list A :=
  match l with
  | [] => [x]
  | y :: l' =>
      if Qle_bool (key y) (key x) then x :: y :: l'
      else y :: insert_reverse key x l'
  end.

Fixpoint sort_reverse {A : Type} (key : A -> Q) (l : list A) : list A :=
  match l with
  | [] => []
  | x :: l' => insert_reverse key x (sort_reverse key l')
  end.

(** Truth value of an optional string and of an optional list. *)
Definition truthy_str (o : option string) : bool :=
  match o with Some s => negb (String.eqb s "") | None => false end.

Definition truthy_list {A : Type} (o : option (list A)) : bool :=
  match o with Some (_ :: _) => true | _ => false end.

(** [str(x)] inside an f-string, for an optional string. *)
Definition py_str (o : option string) : string :=
  match o with Some s => s | None => "None" end.

Module EmbeddingCRUD.

Definition create (w : World) (db : DB) (file : nat) (v : ndarray)
    (modality : option string) (etype : string) : Embedding * DB :=
  let embedding :=
    {| emb_id := next_id emb_id (embeddings db); emb_file_id := file;
       emb_modality := modality; embedding_type := etype;
       vector := Some (serialize_array w v) |} in
  (embedding, with_embeddings db (embeddings db ++ [embedding])).

Definition get_by_file (db : DB) (file : nat) : list Embedding :=
  List.filter (fun e => Nat.eqb (emb_file_id e) file) (embeddings db).

(** The rows of one (file, type) pair. *)
Definition pair_rows (db : DB) (file : nat) (etype : string) : list Embedding :=
  List.filter
    (fun e => Nat.eqb (emb_file_id e) file && String.eqb (embedding_type e) etype)
    (embeddings db).

(** The rows of [select(File, Embedding).join(...)], in the storage order
    of the embeddings. *)
Definition join_file_embedding (db : DB) : list (File * Embedding) :=
  flat_map
    (fun e => match FileCRUD.get db (emb_file_id e) with
              | Some f => [(f, e)]
              | None => []
              end)
    (embeddings db).

(** The [where] clauses of [search_similar], as one row predicate. *)
Definition candidate (modality : option string) (folder_ids : option (list nat))
    (exclude_deleted : bool) (row : File * Embedding) : bool :=
  let '(f, e) := row in
  match vector e with Some _ => true | None => false end
  && (if truthy_str modality
      then match emb_modality e, modality with
           | Some m, Some m' => String.eqb m m'
           | _, _ => false
           end
      else true)
  && (if truthy_list folder_ids
      then match folder_ids with
           | Some ids => existsb (Nat.eqb (file_folder_id f)) ids
           | None => true
           end
      else true)
  && (if exclude_deleted then negb (is_deleted f) else true).

(** The scoring loop: rows without a payload are passed over, rows whose
    dot product is below the threshold are not appended. *)
Definition score_rows (w : World) (query_vector : ndarray) (threshold : Q)
    (rows : list (File * Embedding)) : list (File * Q) :=
  flat_map
    (fun row =>
       match vector (snd row) with
       | None => []
       | Some blob =>
           let similarity := np_dot w query_vector (deserialize_array w blob) in
           if Qle_bool threshold similarity then [(fst row, similarity)] else []
       end)
    rows.

Definition search_similar (w : World) (db : DB) (query_vector : ndarray)
    (modality : option string) (folder_ids : option (list nat))
    (top_k : nat) (threshold : Q) (exclude_deleted : bool) : list (File * Q) :=
  let results :=
    List.filter (candidate modality folder_ids exclude_deleted)
                (join_file_embedding db) in
  let similar_files := score_rows w query_vector threshold results in
  firstn top_k (sort_reverse snd similar_files).

Definition get_vector (w : World) (db : DB) (id : nat) : option ndarray :=
  match List.find (fun e => Nat.eqb (emb_id e) id) (embeddings db) with
  | None => None
  | Some embedding =>
      match vector embedding with
      | None => None
      | Some blob => Some (deserialize_array w blob)
      end
  end.

(** The number returned is [result.rowcount]. *)
Definition delete_by_file (db : DB) (file : nat) : nat * DB :=
  (length (get_by_file db file),
   with_embeddings db
     (List.filter (fun e => negb (Nat.eqb (emb_file_id e) file)) (embeddings db))).

End EmbeddingCRUD.

Module IndexingJobCRUD.

Definition create (db : DB) (jtype : string) (folder : option nat)
    : IndexingJob * DB :=
  let job :=
    {| job_id := next_id job_id (jobs db); job_type := jtype;
       job_folder_id := folder; status := "pending";
       total_files := 0; processed_files := 0; failed_files := 0;
       error_message := None; started_at := None; completed_at := None |} in
  (job, with_jobs db (jobs db ++ [job])).

Definition get (db : DB) (id : nat) : option IndexingJob :=
  List.find (fun j => Nat.eqb (job_id j) id) (jobs db).

Definition set_status (st : string) (err : option string) (now : Z)
    (j : IndexingJob) : IndexingJob :=
  {| job_id := job_id j; job_type := job_type j;
     job_folder_id := job_folder_id j;
     status := st;
     total_files := total_files j;
     processed_files := processed_files j;
     failed_files := failed_files j;
     error_message := if truthy_str err then err else error_message j;
     started_at :=
       if String.eqb st "running"
          && match started_at j with None => true | Some _ => false end
       then Some now else started_at j;
     completed_at :=
       if String.eqb st "running"
          && match started_at j with None => true | Some _ => false end
       then completed_at j
       else if String.eqb st "completed" || String.eqb st "failed"
            then Some now else completed_at j |}.

Definition update_status (db : DB) (id : nat) (st : string)
    (err : option string) (now : Z) : DB :=
  match get db id with
  | None => db
  | Some _ => with_jobs db (update_rows job_id id (set_status st err now) (jobs db))
  end.

Definition add_progress (processed failed : nat) (j : IndexingJob) : IndexingJob :=
  {| job_id := job_id j; job_type := job_type j;
     job_folder_id := job_folder_id j; status := status j;
     total_files := total_files j;
     processed_files := processed_files j + processed;
     failed_files := failed_files j + failed;
     error_message := error_message j;
     started_at := started_at j; completed_at := completed_at j |}.

(** [increment_progress(db, job_id, processed=1, failed=0)]: both keyword
    arguments are explicit here; the call sites give the defaults. *)
Definition increment_progress (db : DB) (id : nat) (processed failed : nat) : DB :=
  match get db id with
  | Some _ => with_jobs db (update_rows job_id id (add_progress processed failed) (jobs db))
  | None => db
  end.

Definition put_total (total : nat) (j : IndexingJob) : IndexingJob :=
  {| job_id := job_id j; job_type := job_type j;
     job_folder_id := job_folder_id j; status := status j;
     total_files := total;
     processed_files := processed_files j;
     failed_files := failed_files j;
     error_message := error_message j;
     started_at := started_at j; completed_at := completed_at j |}.

Definition set_total_files (db : DB) (id : nat) (total : nat) : DB :=
  match get db id with
  | Some _ => with_jobs db (update_rows job_id id (put_total total) (jobs db))
  | None => db
  end.

(** [select(func.count(IndexingJob.id)).where(status.in_(["pending", "running"]))] *)
Definition count_active (db : DB) : nat :=
  length (List.filter
            (fun j => Py.str_in (status j) ["pending"; "running"]) (jobs db)).

End IndexingJobCRUD.

(** ** [app/core/embedding_generator.py] *)

Module EmbeddingGenerator.

(** [await self.model_loader.load()] stands outside the closure's
    [try]: a loading error propagates to the caller. *)
Definition generate_text_embedding (w : World) (text target_modality : string)
    : outcome (option ndarray) :=
  match model_load_error w with
  | Some msg => Raise msg
  | None =>
      Ok (text_embeds w text
            (if String.eqb target_modality "audio" then "audio"
             else if String.eqb target_modality "video" then "video"
             else "audio_video"))
  end.

Definition generate_audio_embedding (w : World) (audio_path : string)
    : outcome (option ndarray) :=
  if negb (path_exists w audio_path) then Ok None
  else match model_load_error w with
       | Some msg => Raise msg
       | None => Ok (audio_embeds w audio_path)
       end.

Definition generate_video_embedding (w : World) (video_path : string)
    : outcome (option ndarray) :=
  if negb (path_exists w video_path) then Ok None
  else match model_load_error w with
       | Some msg => Raise msg
       | None => Ok (video_embeds w video_path)
       end.

Definition generate_embedding_for_file (w : World) (file_path : string)
    (modality : option string) : outcome (option ndarray) :=
  match modality with
  | Some m =>
      if String.eqb m "audio" then generate_audio_embedding w file_path
      else if String.eqb m "video" then generate_video_embedding w file_path
      else if String.eqb m "audio_video" then generate_video_embedding w file_path
      else Ok None
  | None => Ok None
  end.

End EmbeddingGenerator.

(** ** [app/services/deletion_tracker.py] *)

Module DeletionTracker.

Definition mark_file_deleted (db : DB) (file_path : string) : bool * DB :=
  FileCRUD.mark_deleted db file_path.

Definition warning_message (file : File) : string :=
  "Warning: Matching file '" +:+ filename file
    +:+ "' has been deleted from source. "
    +:+ "The file was originally located at: " +:+ file_path file.

Definition notify_if_deleted (db : DB) (id : nat) : option string * DB :=
  match FileCRUD.get db id with
  | None => (None, db)
  | Some file =>
      if is_deleted file && negb (deletion_notified file)
      then (Some (warning_message file), snd (FileCRUD.mark_deletion_notified db id))
      else (None, db)
  end.

Definition check_file_exists (w : World) (file_path : string) : bool :=
  path_exists w file_path.

(** The loop of [scan_for_deleted_files] runs over the list fetched before
    it; the counter goes up for every listed file missing on disk. *)
Definition scan_for_deleted_files (w : World) (db : DB) (folder : nat) : nat * DB :=
  match FolderCRUD.get db folder with
  | None => (0, db)
  | Some _ =>
      let files := FileCRUD.list_by_folder db folder false in
      fold_left
        (fun acc file =>
           if negb (path_exists w (file_path file))
           then (S (fst acc), snd (mark_file_deleted (snd acc) (file_path file)))
           else acc)
        files (0, db)
  end.

End DeletionTracker.

(** ** [app/monitoring/event_handler.py] *)

(** The dict put on the queue by [_queue_event]. *)
Record FileEvent : Type := mkFileEvent {
  action : string;
  ev_folder_id : nat;
  ev_path : string
}.

(** A watchdog event. *)
Record FsEvent : Type := mkFsEvent {
  src_path : string;
  dest_path : string;
  is_directory : bool
}.

Definition Qlt_bool (a b : Q) : bool := negb (Qle_bool b a).

Module MultimodalEventHandler.

(** The handler together with the queue it feeds. *)
Record t : Type := mk {
  handler_folder_id : nat;
  queue : list FileEvent;
  cooldown_seconds : Q;
  last_event_time : gmap string Q
}.

Definition init (folder : nat) (cooldown : Q) : t :=
  {| handler_folder_id := folder; queue := []; cooldown_seconds := cooldown;
     last_event_time := ∅ |}.

Definition _queue_event (h : t) (act path : string) : t :=
  {| handler_folder_id := handler_folder_id h;
     queue := queue h ++ [ {| action := act; ev_folder_id := handler_folder_id h;
                              ev_path := path |} ];
     cooldown_seconds := cooldown_seconds h;
     last_event_time := last_event_time h |}.

Definition set_last_event_time (h : t) (path : string) (now : Q) : t :=
  {| handler_folder_id := handler_folder_id h;
     queue := queue h;
     cooldown_seconds := cooldown_seconds h;
     last_event_time := <[path := now]> (last_event_time h) |}.

(** [now] is the value [time.time()] returns inside the call. *)
Definition _should_process (h : t) (now : Q) (path : string) : bool * t :=
  if negb (ModalityDetector.is_supported path) then (false, h)
  else
    let last_time := default 0%Q (last_event_time h !! path) in
    if Qlt_bool (now - last_time) (cooldown_seconds h) then (false, h)
    else (true, set_last_event_time h path now).

Definition on_created (h : t) (now : Q) (event : FsEvent) : t :=
  if is_directory event then h
  else
    let '(ok, h1) := _should_process h now (src_path event) in
    if ok then _queue_event h1 "create" (src_path event) else h1.

Definition on_modified (h : t) (now : Q) (event : FsEvent) : t :=
  if is_directory event then h
  else
    let '(ok, h1) := _should_process h now (src_path event) in
    if ok then _queue_event h1 "modify" (src_path event) else h1.

Definition on_deleted (h : t) (event : FsEvent) : t :=
  if is_directory event then h
  else _queue_event h "delete" (src_path event).

(** The two calls of [_should_process] read the clock one after the
    other: [now_src] then [now_dest]. *)
Definition on_moved (h : t) (now_src now_dest : Q) (event : FsEvent) : t :=
  if is_directory event then h
  else
    let '(ok_src, h1) := _should_process h now_src (src_path event) in
    let h2 := if ok_src then _queue_event h1 "delete" (src_path event) else h1 in
    let '(ok_dest, h3) := _should_process h2 now_dest (dest_path event) in
    if ok_dest then _queue_event h3 "create" (dest_path event) else h3.

(** The event dict [_queue_event] builds for [act] and [p]. *)
Definition queued (h : t) (act p : string) : FileEvent :=
  {| action := act; ev_folder_id := handler_folder_id h; ev_path := p |}.

(** [now - last_time] as [_should_process] computes it. *)
Definition elapsed (h : t) (now : Q) (path : string) : Q :=
  now - default 0%Q (last_event_time h !! path).

(** One call of the observer thread into the handler, with the clock
    readings taken inside the call. *)
Inductive call : Type :=
| Created (now : Q) (event : FsEvent)
| Modified (now : Q) (event : FsEvent)
| Deleted (event : FsEvent)
| Moved (now_src now_dest : Q) (event : FsEvent).

Definition dispatch (h : t) (c : call) : t :=
  match c with
  | Created now event => on_created h now event
  | Modified now event => on_modified h now event
  | Deleted event => on_deleted h event
  | Moved now_src now_dest event => on_moved h now_src now_dest event
  end.

(** The handler after a sequence of calls. *)
Definition run (h : t) (calls : list call) : t := fold_left dispatch calls h.

(** What a call puts on the queue, with the clock reading under which
    the event passed the cooldown check ([None] for a plain delete, which
    is not checked). *)
Record forwarded : Type := mkForwarded {
  fwd_time : option Q;
  fwd_action : string;
  fwd_path : string
}.

Definition checked (h : t) (now : Q) (act path : string) : list forwarded :=
  if fst (_should_process h now path)
  then [ {| fwd_time := Some now; fwd_action := act; fwd_path := path |} ]
  else [].

Definition forwarded_by (h : t) (c : call) : list forwarded :=
  match c with
  | Created now event =>
      if is_directory event then [] else checked h now "create" (src_path event)
  | Modified now event =>
      if is_directory event then [] else checked h now "modify" (src_path event)
  | Deleted event =>
      if is_directory event then []
      else [ {| fwd_time := None; fwd_action := "delete";
                fwd_path := src_path event |} ]
  | Moved now_src now_dest event =>
      if is_directory event then []
      else checked h now_src "delete" (src_path event)
           ++ checked (snd (_should_process h now_src (src_path event)))
                now_dest "create" (dest_path event)
  end.

Fixpoint trace (h : t) (calls : list call) : list forwarded :=
  match calls with
  | [] => []
  | c :: rest => forwarded_by h c ++ trace (dispatch h c) rest
  end.

Definition event_of (h : t) (f : forwarded) : FileEvent :=
  queued h (fwd_action f) (fwd_path f).

(** Two forwarded events, the second later than the first: when both
    passed the cooldown check for the same path, their clock readings are
    at least [cooldown] apart. *)
Definition spaced (cooldown : Q) (x y : forwarded) : Prop :=
  match fwd_time x, fwd_time y with
  | Some t1, Some t2 => fwd_path x = fwd_path y -> (cooldown <= t2 - t1)%Q
  | _, _ => True
  end.

(** The map holds, for every checked event forwarded so far, an entry
    for its path that is not older than the event. *)
Definition entries_cover (m : gmap string Q) (tr : list forwarded) : Prop :=
  forall x t, In x tr -> fwd_time x = Some t ->
    exists t', m !! fwd_path x = Some t' /\ (t <= t')%Q.

(** The paths a call is about. *)
Definition call_paths (c : call) : list string :=
  match c with
  | Created _ event => [src_path event]
  | Modified _ event => [src_path event]
  | Deleted event => [src_path event]
  | Moved _ _ event => [src_path event; dest_path event]
  end.

End MultimodalEventHandler.

(** ** [app/monitoring/indexer.py] *)

Module IndexingWorker.

(** [embedding.SerializeToString()] on a numpy array. *)
Definition no_SerializeToString : string :=
  "AttributeError: 'numpy.ndarray' object has no attribute 'SerializeToString'".

Definition _index_file (w : World) (db : DB) (path : string)
    : outcome unit * DB :=
  if negb (FileProcessor.validate_file w path) then (Ok tt, db)
  else
    let file_info := FileProcessor.get_file_info w path in
    let modality := FileProcessor.fi_modality file_info in
    match FileCRUD.get_by_path db path with
    | None => (Ok tt, db)
    | Some existing_file =>
        match EmbeddingGenerator.generate_embedding_for_file w path modality with
        | Raise msg => (Raise msg, db)
        | Ok None => (Ok tt, db)
        | Ok (Some embedding) =>
            match EmbeddingCRUD.get_by_file db (file_id existing_file) with
            | _ :: _ => (Raise no_SerializeToString, db)
            | [] =>
                (Ok tt,
                 snd (EmbeddingCRUD.create w db (file_id existing_file) embedding
                        modality (py_str modality +:+ "_embeds")))
            end
        end
    end.

Definition _mark_file_deleted (db : DB) (path : string) : DB :=
  snd (FileCRUD.mark_deleted db path).

(** The [try]/[except Exception] of [_process_event] logs and drops. *)
Definition _process_event (w : World) (db : DB) (event : FileEvent) : DB :=
  if String.eqb (action event) "create" || String.eqb (action event) "modify"
  then snd (_index_file w db (ev_path event))
  else if String.eqb (action event) "delete"
       then _mark_file_deleted db (ev_path event)
       else db.

End IndexingWorker.

(** ** [app/services/indexing_service.py] *)

Module IndexingService.

(** The dict built by [_scan_folder] for one file. *)
Record ScanInfo : Type := mkScanInfo {
  scan_path : string;
  scan_filename : string;
  scan_modality : option string
}.

(** The extension set is iterated in declaration order here; Python
    leaves the iteration order of a [set] open. *)
Definition scan_extensions (modality : string) : list string :=
  (if Py.str_in modality ["all"; "audio"]
   then ModalityDetector.AUDIO_EXTENSIONS else [])
  ++ (if Py.str_in modality ["all"; "video"; "audio_video"]
      then ModalityDetector.VIDEO_EXTENSIONS else []).

Definition _scan_folder (w : World) (folder_path modality : string)
    : list ScanInfo :=
  flat_map
    (fun ext =>
       flat_map
         (fun e =>
            if fs_is_file (snd e)
            then [ {| scan_path := fst e;
                      scan_filename := Py.name (fst e);
                      scan_modality := ModalityDetector.detect (fst e) |} ]
            else [])
         (rglob w folder_path ext))
    (scan_extensions modality).

(** The owning folder: the first active folder, in storage order, whose
    path is a string prefix of the file's path. *)
Definition find_folder_id (db : DB) (path : string) : option nat :=
  match List.find (fun folder => Py.startswith path (folder_path folder))
                  (FolderCRUD.list_all db true) with
  | Some folder => Some (folder_id folder)
  | None => None
  end.

(** The upsert at the end of [_index_file]. *)
Definition upsert_embedding (w : World) (db : DB) (now : Z) (file : File)
    (modality : option string) (embedding : ndarray) : DB :=
  match EmbeddingCRUD.get_by_file db (file_id file) with
  | _ :: _ =>
      let db1 :=
        with_embeddings db
          (update_rows emb_file_id (file_id file)
             (set_vector (serialize_array w embedding)) (embeddings db)) in
      FileCRUD.update_indexed_at db1 (file_id file) now
  | [] =>
      snd (EmbeddingCRUD.create w db (file_id file) embedding modality
             (py_str modality +:+ "_embeds"))
  end.

(** "Check if file exists in database, create if not": the file record
    to index and the database after a possible insert, or [None] when no
    folder matches. *)
Definition resolve_file (w : World) (db : DB) (path : string)
    : option (File * DB) :=
  match FileCRUD.get_by_path db path with
  | Some file => Some (file, db)
  | None =>
      match find_folder_id db path with
      | None => None
      | Some folder =>
          let info := FileProcessor.get_file_info w path in
          Some (FileCRUD.create db folder path
                  (FileProcessor.fi_filename info)
                  (FileProcessor.fi_modality info)
                  (Some (FileProcessor.fi_file_size info))
                  (FileProcessor.get_mime_type w path))
      end
  end.

Definition _index_file (w : World) (db : DB) (now : Z) (file_info : ScanInfo)
    : outcome unit * DB :=
  let path := scan_path file_info in
  let modality := scan_modality file_info in
  if negb (FileProcessor.validate_file w path) then (Ok tt, db)
  else
    match resolve_file w db path with
    | None => (Ok tt, db)
    | Some (file, db1) =>
        match EmbeddingGenerator.generate_embedding_for_file w path modality with
        | Raise msg => (Raise msg, db1)
        | Ok None => (Ok tt, db1)
        | Ok (Some embedding) =>
            (Ok tt, upsert_embedding w db1 now file modality embedding)
        end
    end.

(** One turn of the loop over [all_files]: the inner [try]/[except]. *)
Definition process_file (w : World) (now : Z) (job : nat) (db : DB)
    (file_info : ScanInfo) : DB :=
  match _index_file w db now file_info with
  | (Ok _, db1) => IndexingJobCRUD.increment_progress db1 job 1 0
  | (Raise _, db1) => IndexingJobCRUD.increment_progress db1 job 1 1
  end.

Definition folders_to_index (db : DB) (folder : option nat) : list Folder :=
  match folder with
  | Some (S n) =>
      match FolderCRUD.get db (S n) with
      | Some f => if is_active f then [f] else []
      | None => []
      end
  | _ => FolderCRUD.list_all db true
  end.

(** The list [all_files] collected over the folders to index. *)
Definition collect_files (w : World) (folders : list Folder) : list ScanInfo :=
  flat_map (fun f => _scan_folder w (folder_path f) (folder_modality f)) folders.

(** No statement of the outer [try] raises in this model (an exception
    of [_index_file] is caught inside the loop), so its handler, which
    would mark the job [failed], is never entered. *)
Definition _perform_indexing (w : World) (db : DB) (now : Z) (job : nat)
    (folder : option nat) (mode : string) : DB :=
  let db1 := IndexingJobCRUD.update_status db job "running" None now in
  let folders := folders_to_index db1 folder in
  match folders with
  | [] => IndexingJobCRUD.update_status db1 job "completed" None now
  | _ :: _ =>
      let all_files := collect_files w folders in
      let db2 := IndexingJobCRUD.set_total_files db1 job (length all_files) in
      let db3 := fold_left (process_file w now job) all_files db2 in
      let db4 :=
        fold_left (fun d f => FolderCRUD.update_last_indexed d (folder_id f) now)
                  folders db3 in
      IndexingJobCRUD.update_status db4 job "completed" None now
  end.

(** [index_folder] creates the job and starts the task; the task is run
    to its end here. *)
Definition index_folder (w : World) (db : DB) (now : Z) (folder : option nat)
    (mode : string) : nat * DB :=
  let job_type := if String.eqb mode "full" then "full_scan" else "incremental" in
  let '(job, db1) := IndexingJobCRUD.create db job_type folder in
  (job_id job, _perform_indexing w db1 now (job_id job) folder mode).

End IndexingService.

(** ** [app/core/similarity_calculator.py] *)

(** [d[k] = v] on a dict kept in insertion order. *)
Fixpoint dict_set {V : Type} (d : list (string * V)) (k : string) (v : V)
    : list (string * V) :=
  match d with
  | [] => [(k, v)]
  | (k', v') :: d' =>
      if String.eqb k' k then (k', v) :: d' else (k', v') :: dict_set d' k v
  end.

Module SimilarityCalculator.

Fixpoint text_loop (w : World) (query : string) (targets : list string)
    (embeddings : list (string * ndarray)) : outcome (list (string * ndarray)) :=
  match targets with
  | [] => Ok embeddings
  | modality :: rest =>
      let target :=
        if String.eqb modality "audio" then "audio"
        else if String.eqb modality "video" then "video"
        else "audio_video" in
      match EmbeddingGenerator.generate_text_embedding w query target with
      | Raise msg => Raise msg
      | Ok (Some emb) => text_loop w query rest (dict_set embeddings modality emb)
      | Ok None => text_loop w query rest embeddings
      end
  end.

Definition reuse_loop (accepted : list string) (embedding : ndarray)
    (targets : list string) : list (string * ndarray) :=
  fold_left
    (fun d modality =>
       if Py.str_in modality accepted then dict_set d modality embedding else d)
    targets [].

Definition compute_query_embedding (w : World) (query query_type : string)
    (target_modalities : list string) : outcome (list (string * ndarray)) :=
  if String.eqb query_type "text" then text_loop w query target_modalities []
  else if String.eqb query_type "audio" then
    match EmbeddingGenerator.generate_audio_embedding w query with
    | Raise msg => Raise msg
    | Ok None => Ok []
    | Ok (Some embedding) =>
        Ok (reuse_loop ["audio"; "audio_video"] embedding target_modalities)
    end
  else if String.eqb query_type "video" then
    match EmbeddingGenerator.generate_video_embedding w query with
    | Raise msg => Raise msg
    | Ok None => Ok []
    | Ok (Some embedding) =>
        Ok (reuse_loop ["video"; "audio_video"] embedding target_modalities)
    end
  else Ok [].

End SimilarityCalculator.

(** ** [app/services/search_service.py] *)

Record SearchRequest : Type := mkSearchRequest {
  query : string;
  query_type : string;
  modalities : option (list string);
  req_folder_ids : option (list nat);
  top_k : nat;
  threshold : Q
}.

Record FileMetadata : Type := mkFileMetadata {
  meta_id : nat;
  meta_path : string;
  meta_filename : string;
  meta_modality : option string;
  meta_file_size : option nat;
  meta_mime_type : option string;
  meta_duration_seconds : option Q;
  meta_is_deleted : bool;
  meta_indexed_at : option Z
}.

Record SearchResult : Type := mkSearchResult {
  res_file_id : nat;
  res_path : string;
  res_filename : string;
  res_modality : option string;
  similarity : Q;
  metadata : FileMetadata;
  res_is_deleted : bool
}.

(** [query_time_ms] is left out. *)
Record SearchResponse : Type := mkSearchResponse {
  results : list SearchResult;
  total : nat;
  warnings : option (list string)
}.

Module SearchService.

(** An entry of [all_results]: [(file, similarity, modality)]. *)
Definition hit : Type := (File * Q * string)%type.

Definition hit_score (h : hit) : Q := snd (fst h).
Definition hit_file (h : hit) : File := fst (fst h).

Definition make_result (h : hit) : SearchResult :=
  let file := hit_file h in
  {| res_file_id := file_id file;
     res_path := file_path file;
     res_filename := filename file;
     res_modality := file_modality file;
     similarity := hit_score h;
     metadata :=
       {| meta_id := file_id file; meta_path := file_path file;
          meta_filename := filename file; meta_modality := file_modality file;
          meta_file_size := file_size file; meta_mime_type := mime_type file;
          meta_duration_seconds := duration_seconds file;
          meta_is_deleted := is_deleted file;
          meta_indexed_at := indexed_at file |};
     res_is_deleted := is_deleted file |}.

(** The loop over [query_embeddings.items()]. *)
Definition collect_results (w : World) (db : DB) (request : SearchRequest)
    (query_embeddings : list (string * ndarray)) : list hit :=
  fold_left
    (fun all_results entry =>
       let '(modality, query_emb) := entry in
       let found :=
         EmbeddingCRUD.search_similar w db query_emb (Some modality)
           (req_folder_ids request) (top_k request) (threshold request) true in
       all_results ++ map (fun r => (fst r, snd r, modality)) found)
    query_embeddings [].

(** The loop that builds the response; [tracker] tells whether the
    service was given a deletion tracker. *)
Fixpoint build_response (tracker : bool) (db : DB) (all_results : list hit)
    : list SearchResult * list string * DB :=
  match all_results with
  | [] => ([], [], db)
  | h :: rest =>
      let '(warning, db1) :=
        if tracker && is_deleted (hit_file h)
        then DeletionTracker.notify_if_deleted db (file_id (hit_file h))
        else (None, db) in
      let '(search_results, warns, db2) := build_response tracker db1 rest in
      (make_result h :: search_results,
       match warning with
       | Some msg => if String.eqb msg "" then warns else msg :: warns
       | None => warns
       end,
       db2)
  end.

(** [request.modalities or ["audio", "video", "audio_video"]] *)
Definition target_modalities (request : SearchRequest) : list string :=
  match modalities request with
  | Some (m :: ms) => m :: ms
  | _ => ["audio"; "video"; "audio_video"]
  end.

Definition search (w : World) (tracker : bool) (db : DB) (request : SearchRequest)
    : outcome SearchResponse * DB :=
  match SimilarityCalculator.compute_query_embedding w (query request)
          (query_type request) (target_modalities request) with
  | Raise msg => (Raise msg, db)
  | Ok [] => (Ok {| results := []; total := 0; warnings := None |}, db)
  | Ok query_embeddings =>
      let all_results := collect_results w db request query_embeddings in
      let all_results := sort_reverse hit_score all_results in
      let all_results := firstn (top_k request) all_results in
      let '(search_results, warns, db1) := build_response tracker db all_results in
      (Ok {| results := search_results;
             total := length search_results;
             warnings := match warns with [] => None | _ => Some warns end |},
       db1)
  end.

(** The merge as the specification words it.  One modality's top-k
    list, tagged with the modality: *)
Definition modality_top_k (w : World) (db : DB) (request : SearchRequest)
    (entry : string * ndarray) : list hit :=
  map (fun r => (fst r, snd r, fst entry))
      (EmbeddingCRUD.search_similar w db (snd entry) (Some (fst entry))
         (req_folder_ids request) (top_k request) (threshold request) true).

(** "concatenate every modality's top-k list, sort the concatenation
    descending by score using a stable sort, and truncate to the overall
    top-k" *)
Definition spec_merge (w : World) (db : DB) (request : SearchRequest)
    (query_embeddings : list (string * ndarray)) : list hit :=
  firstn (top_k request)
    (sort_reverse hit_score
       (concat (map (modality_top_k w db request) query_embeddings))).

(** The [SearchResult] that [find_similar_files] builds for a row. *)
Definition similar_result (similar_file : File) (score : Q) : SearchResult :=
  {| res_file_id := file_id similar_file;
     res_path := file_path similar_file;
     res_filename := filename similar_file;
     res_modality := file_modality similar_file;
     similarity := score;
     metadata :=
       {| meta_id := file_id similar_file; meta_path := file_path similar_file;
          meta_filename := filename similar_file;
          meta_modality := file_modality similar_file;
          meta_file_size := file_size similar_file;
          meta_mime_type := mime_type similar_file;
          meta_duration_seconds := duration_seconds similar_file;
          meta_is_deleted := is_deleted similar_file;
          meta_indexed_at := indexed_at similar_file |};
     res_is_deleted := is_deleted similar_file |}.

(** The loop of [find_similar_files]: the row of the reference file is
    passed over, and the loop is left as soon as [top_k] results are
    there (the test comes at the end of every turn). *)
Fixpoint similar_loop (id top_k : nat) (found : list (File * Q))
    (search_results : list SearchResult) : list SearchResult :=
  match found with
  | [] => search_results
  | (similar_file, score) :: rest =>
      let search_results1 :=
        if negb (Nat.eqb (file_id similar_file) id)
        then search_results ++ [similar_result similar_file score]
        else search_results in
      if Nat.leb top_k (length search_results1) then search_results1
      else similar_loop id top_k rest search_results1
  end.

Definition empty_response : SearchResponse :=
  {| results := []; total := 0; warnings := None |}.

(** [np.load] on the empty buffer of a row without payload raises. *)
Definition find_similar_files (w : World) (db : DB) (id top_k : nat) (threshold : Q)
    : outcome SearchResponse :=
  match FileCRUD.get db id with
  | None => Ok empty_response
  | Some file =>
      match EmbeddingCRUD.get_by_file db id with
      | [] => Ok empty_response
      | first :: _ =>
          match vector first with
          | None => Raise "EOFError: No data left in file"
          | Some blob =>
              let query_vector := deserialize_array w blob in
              let found :=
                EmbeddingCRUD.search_similar w db query_vector (file_modality file)
                  None (top_k + 1) threshold true in
              let search_results := similar_loop id top_k found [] in
              Ok {| results := firstn top_k search_results;
                    total := length (firstn top_k search_results);
                    warnings := None |}
          end
      end
  end.

End SearchService.

(** ** [app/monitoring/watcher.py] *)

Module FileWatcher.

(** An observer is kept as the path it watches and the folder id of its
    handler.  Folder paths are normalised absolute paths, which
    [Path(...)] and [Path(...).absolute()] leave as they are. *)
Record t : Type := mk {
  observers : list (string * nat);
  _running : bool
}.

Definition init : t := {| observers := []; _running := false |}.

(** [is_dir] stands for [Path(p).is_dir()]. *)
Definition add_folder (w : World) (is_dir : string -> bool) (fw : t)
    (folder_path : string) (folder : nat) : bool * t :=
  if negb (path_exists w folder_path) || negb (is_dir folder_path) then (false, fw)
  else (true, {| observers := observers fw ++ [(folder_path, folder)];
                 _running := _running fw |}).

Fixpoint remove_first (target : string) (l : list (string * nat))
    : option (list (string * nat)) :=
  match l with
  | [] => None
  | o :: rest =>
      if String.eqb (fst o) target then Some rest
      else match remove_first target rest with
           | Some rest' => Some (o :: rest')
           | None => None
           end
  end.

Definition remove_folder (fw : t) (folder_path : string) : bool * t :=
  match remove_first folder_path (observers fw) with
  | Some l => (true, {| observers := l; _running := _running fw |})
  | None => (false, fw)
  end.

Definition start (w : World) (is_dir : string -> bool) (db : DB) (fw : t) : t :=
  if _running fw then fw
  else
    fold_left
      (fun acc folder =>
         snd (add_folder w is_dir acc (folder_path folder) (folder_id folder)))
      (FolderCRUD.list_all db true)
      {| observers := observers fw; _running := true |}.

Definition stop (fw : t) : t :=
  if negb (_running fw) then fw
  else {| observers := []; _running := false |}.

End FileWatcher.

(** ** [app/api/routes/folders.py] *)

Module FolderRoutes.

(** A response, or the status code of the [HTTPException] raised. *)
Inductive reply (A : Type) : Type :=
| Sent (a : A)
| HTTPException (status_code : nat).
Arguments Sent {A} a.
Arguments HTTPException {A} status_code.

Record FolderResponse : Type := mkFolderResponse {
  resp_id : nat;
  resp_path : string;
  resp_modality : string;
  resp_is_active : bool;
  resp_last_indexed_at : option Z;
  resp_file_count : nat
}.

Definition respond (db : DB) (f : Folder) : FolderResponse :=
  {| resp_id := folder_id f; resp_path := folder_path f;
     resp_modality := folder_modality f; resp_is_active := is_active f;
     resp_last_indexed_at := last_indexed_at f;
     resp_file_count := FileCRUD.count_by_folder db (folder_id f) |}.

(** The state the routes work on: the database and the global watcher. *)
Definition state : Type := (DB * FileWatcher.t)%type.


Definition list_folders (db : DB) : list FolderResponse :=
  map (respond db) (FolderCRUD.list_all db false).

Definition get_folder (db : DB) (id : nat) : reply FolderResponse :=
  match FolderCRUD.get db id with
  | None => HTTPException 404
  | Some folder => Sent (respond db folder)
  end.

Definition update_folder (db : DB) (id : nat) (active : option bool)
    (modality : option string) : reply FolderResponse * DB :=
  match FolderCRUD.update db id active modality with
  | (None, db1) => (HTTPException 404, db1)
  | (Some folder, db1) => (Sent (respond db1 folder), db1)
  end.

Definition delete_folder (st : state) (id : nat) : reply unit * state :=
  let '(db, watcher) := st in
  let watcher1 :=
    match FolderCRUD.get db id with
    | Some folder => snd (FileWatcher.remove_folder watcher (folder_path folder))
    | None => watcher
    end in
  match FolderCRUD.delete db id with
  | (false, db1) => (HTTPException 404, (db1, watcher1))
  | (true, db1) => (Sent tt, (db1, watcher1))
  end.

End FolderRoutes.

(** ** Order predicates on ranked lists *)

(** Every element's key is at least the key of every later element. *)
Definition descending {A : Type} (key : A -> Q) (l : list A) : Prop :=
  StronglySorted (fun a b => (key b <= key a)%Q) l.

(** Every element's key is larger than the key of every later element. *)
Definition strictly_descending {A : Type} (key : A -> Q) (l : list A) : Prop :=
  StronglySorted (fun a b => (key b < key a)%Q) l.

(** The elements whose key equals [q], in list order. *)
Definition with_key {A : Type} (key : A -> Q) (q : Q) (l : list A) : list A :=
  List.filter (fun x => Qeq_bool (key x) q) l.

(** ** Sample data *)

Module Sample.

Import MultimodalEventHandler.

(** A handler for folder 1 with the default cooldown of two seconds. *)
Definition handler0 : MultimodalEventHandler.t := init 1 2.

Definition file_event (p : string) : FsEvent :=
  {| src_path := p; dest_path := ""; is_directory := false |}.

Definition move_event (p q : string) : FsEvent :=
  {| src_path := p; dest_path := q; is_directory := false |}.

(** The handler after it forwarded a create event for [/media/a.mp4] at
    clock reading 100. *)
Definition handler_after_create : MultimodalEventHandler.t :=
  on_created handler0 100 (file_event "/media/a.mp4").

(** The dot product of two vectors of the same length. *)
Fixpoint dot (a b : ndarray) : Q :=
  match a, b with
  | x :: a', y :: b' => x * y + dot a' b'
  | _, _ => 0
  end.

(** A toy payload format: one byte per entry, for vectors of small
    natural numbers. *)
Definition save (v : ndarray) : bytes :=
  map (fun q => match Byte.of_N (Z.to_N (Qnum q)) with
                | Some b => b
                | None => Byte.x00
                end) v.

Definition load (blob : bytes) : ndarray :=
  map (fun b => inject_Z (Z.of_N (Byte.to_N b))) blob.

Definition regular (size : nat) : FsEntry :=
  {| fs_is_file := true; fs_readable := true; st_size := size |}.

(** A world with one media folder holding three media files and a text
    file.  The model yields no embedding for [/media/b.mp3]. *)
Definition world : World :=
  {| np_dot := dot;
     np_save := save;
     np_load := load;
     fs := [ ("/media", {| fs_is_file := false; fs_readable := true; st_size := 0 |});
             ("/media/a.mp3", regular 10);
             ("/media/b.mp3", regular 20);
             ("/media/c.mp4", regular 30);
             ("/media/notes.txt", regular 5) ];
     guess_type := fun p =>
       if Py.endswith p ".mp3" then Some "audio/mpeg"
       else if Py.endswith p ".mp4" then Some "video/mp4"
       else None;
     model_load_error := None;
     audio_embeds := fun p =>
       if String.eqb p "/media/a.mp3" then Some [1; 0]%Q else None;
     video_embeds := fun p =>
       if String.eqb p "/media/c.mp4" then Some [1; 2]%Q else None;
     text_embeds := fun text target =>
       if String.eqb target "audio_video" then None else Some [1; 0]%Q |}.

Definition media_folder : Folder :=
  {| folder_id := 1; folder_path := "/media"; folder_modality := "all";
     is_active := true; last_indexed_at := None |}.

(** The database after the folder was registered. *)
Definition db_registered : DB :=
  {| folders := [media_folder]; files := []; embeddings := []; jobs := [] |}.

(** A full scan of the folder, at clock reading 7. *)
Definition scanned : nat * DB :=
  IndexingService.index_folder world db_registered 7 (Some 1) "full".

Definition db_scanned : DB := snd scanned.

(** [/media/a.mp3] is then removed from the disk and marked deleted. *)
Definition db_deleted : DB :=
  snd (DeletionTracker.mark_file_deleted db_scanned "/media/a.mp3").

Definition text_request : SearchRequest :=
  {| query := "a tune"; query_type := "text"; modalities := None;
     req_folder_ids := None; top_k := 10; threshold := 0 |}.

Definition scan_info (p : string) : IndexingService.ScanInfo :=
  {| IndexingService.scan_path := p;
     IndexingService.scan_filename := Py.name p;
     IndexingService.scan_modality := ModalityDetector.detect p |}.

(** A result list that holds the deleted file, as the response loop would
    get it from a scan that does not exclude deleted files. *)
Definition hits_with_deleted : list SearchService.hit :=
  map (fun r => (fst r, snd r, "audio"))
      (EmbeddingCRUD.search_similar world db_deleted [1; 0]%Q (Some "audio")
         None 10 0 false).

(** Calls of the observer thread on [handler0]: a file is created,
    modified twice, moved, the target of the move is deleted, and a text
    file is created. *)
Definition calls : list call :=
  [ Created 100 (file_event "/media/a.mp4");
    Modified 101 (file_event "/media/a.mp4");
    Modified 103 (file_event "/media/a.mp4");
    Moved 104 105 (move_event "/media/a.mp4" "/media/b.mp4");
    Deleted (file_event "/media/b.mp4");
    Created 106 (file_event "/media/notes.txt") ].

(** The world after [/media/a.mp3] was removed from the disk. *)
Definition world_without_a : World :=
  {| np_dot := np_dot world; np_save := np_save world; np_load := np_load world;
     fs := List.filter (fun e => negb (String.eqb (fst e) "/media/a.mp3")) (fs world);
     guess_type := guess_type world;
     model_load_error := model_load_error world;
     audio_embeds := audio_embeds world;
     video_embeds := video_embeds world;
     text_embeds := text_embeds world |}.

(** A world in which the model has an embedding for [/media/b.mp3]
    too. *)
Definition world_two_tunes : World :=
  {| np_dot := np_dot world; np_save := np_save world; np_load := np_load world;
     fs := fs world;
     guess_type := guess_type world;
     model_load_error := model_load_error world;
     audio_embeds := fun p =>
       if String.eqb p "/media/a.mp3" then Some [1; 0]%Q
       else if String.eqb p "/media/b.mp3" then Some [1; 1]%Q
       else None;
     video_embeds := video_embeds world;
     text_embeds := text_embeds world |}.

Definition db_two_tunes : DB :=
  snd (IndexingService.index_folder world_two_tunes db_registered 7 (Some 1) "full").


(** [Path(p).is_dir()] in [world]. *)
Definition is_dir (p : string) : bool := String.eqb p "/media".

Definition audio_request : SearchRequest :=
  {| query := "/media/a.mp3"; query_type := "audio"; modalities := None;
     req_folder_ids := None; top_k := 10; threshold := 0 |}.

(** The world after [/media/a.mp3] was overwritten with another tune:
    the model now has another embedding for it. *)
Definition world_retuned : World :=
  {| np_dot := np_dot world; np_save := np_save world; np_load := np_load world;
     fs := fs world;
     guess_type := guess_type world;
     model_load_error := model_load_error world;
     audio_embeds := fun p =>
       if String.eqb p "/media/a.mp3" then Some [0; 1]%Q else None;
     video_embeds := video_embeds world;
     text_embeds := text_embeds world |}.

(** Two registered folders with one tune each, and the database after a
    scan of all folders. *)
Definition world_two_folders : World :=
  {| np_dot := np_dot world; np_save := np_save world; np_load := np_load world;
     fs := [ ("/media", {| fs_is_file := false; fs_readable := true; st_size := 0 |});
             ("/media/a.mp3", regular 10);
             ("/music", {| fs_is_file := false; fs_readable := true; st_size := 0 |});
             ("/music/d.mp3", regular 40) ];
     guess_type := guess_type world;
     model_load_error := model_load_error world;
     audio_embeds := fun p =>
       if String.eqb p "/media/a.mp3" then Some [1; 0]%Q
       else if String.eqb p "/music/d.mp3" then Some [2; 1]%Q
       else None;
     video_embeds := video_embeds world;
     text_embeds := text_embeds world |}.

Definition music_folder : Folder :=
  {| folder_id := 2; folder_path := "/music"; folder_modality := "audio";
     is_active := true; last_indexed_at := None |}.

Definition db_two_folders : DB :=
  snd (IndexingService.index_folder world_two_folders
         {| folders := [media_folder; music_folder]; files := [];
            embeddings := []; jobs := [] |}
         7 None "full").

End Sample.

(** ** An invariant of the embeddings table *)

(** No file has more than one embedding row. *)
Definition one_row_per_file (db : DB) : Prop :=
  forall file, length (EmbeddingCRUD.get_by_file db file) <= 1.

(** ** Constraints of the schema *)

(** Primary keys and the two [unique=True] path columns. *)
Definition unique_keys (db : DB) : Prop :=
  List.NoDup (map folder_id (folders db))
  /\ List.NoDup (map folder_path (folders db))
  /\ List.NoDup (map file_id (files db))
  /\ List.NoDup (map file_path (files db))
  /\ List.NoDup (map emb_id (embeddings db))
  /\ List.NoDup (map job_id (jobs db)).

(** The foreign keys [files.folder_id] and [embeddings.file_id]. *)
Definition references_hold (db : DB) : Prop :=
  (forall f, In f (files db) -> In (file_folder_id f) (map folder_id (folders db)))
  /\ (forall e, In e (embeddings db) -> In (emb_file_id e) (map file_id (files db))).

Definition consistent (db : DB) : Prop :=
  unique_keys db /\ references_hold db /\ one_row_per_file db.

(** The keys of the rows, table by table: what the constraints speak of. *)
Definition folder_keys (f : Folder) : nat * string := (folder_id f, folder_path f).
Definition file_keys (f : File) : nat * string * nat :=
  (file_id f, file_path f, file_folder_id f).
Definition emb_keys (e : Embedding) : nat * nat := (emb_id e, emb_file_id e).

Definition shape (db : DB)
    : list (nat * string) * list (nat * string * nat) * list (nat * nat) * list nat :=
  (map folder_keys (folders db), map file_keys (files db),
   map emb_keys (embeddings db), map job_id (jobs db)).

(** ** Soft deletion, row by row *)

(** Every file of [db] is still there in [db'], with its keys and its two
    deletion flags as they were. *)
Definition flags_kept (db db' : DB) : Prop :=
  forall id f, FileCRUD.get db id = Some f ->
    exists f', FileCRUD.get db' id = Some f'
               /\ file_keys f' = file_keys f
               /\ is_deleted f' = is_deleted f
               /\ deletion_notified f' = deletion_notified f.

(** A live file of [folder] that is no longer on disk. *)
Definition stale (w : World) (folder : nat) (f : File) : bool :=
  Nat.eqb (file_folder_id f) folder && negb (is_deleted f)
  && negb (path_exists w (file_path f)).

(** The soft delete applied to the rows whose id is listed. *)
Definition mark_ids (ids : list nat) (f : File) : File :=
  if existsb (Nat.eqb (file_id f)) ids then set_deleted true false f else f.

(** The file at [path] has a record, the record has embedding rows, and
    every one of them holds the payload of [v]. *)
Definition indexed_as (w : World) (db : DB) (path : string) (v : ndarray) : Prop :=
  exists f,
    FileCRUD.get_by_path db path = Some f
    /\ EmbeddingCRUD.get_by_file db (file_id f) <> []
    /\ forall e, In e (EmbeddingCRUD.get_by_file db (file_id f)) ->
         vector e = Some (serialize_array w v).

(** The file [id] is there and flagged as deleted. *)
Definition deleted_file (db : DB) (id : nat) : Prop :=
  exists f, FileCRUD.get db id = Some f /\ is_deleted f = true.

(** The entry points that index, track deletions or search, each run to
    its end on the database the one before left. *)
Inductive operation : Type :=
| WorkerEvent (event : FileEvent)
| ScanJob (now : Z) (folder : option nat) (mode : string)
| FolderAudit (folder : nat)
| SearchCall (tracker : bool) (request : SearchRequest).

Definition perform (w : World) (db : DB) (op : operation) : DB :=
  match op with
  | WorkerEvent event => IndexingWorker._process_event w db event
  | ScanJob now folder mode =>
      snd (IndexingService.index_folder w db now folder mode)
  | FolderAudit folder =>
      snd (DeletionTracker.scan_for_deleted_files w db folder)
  | SearchCall tracker request =>
      snd (SearchService.search w tracker db request)
  end.

(** * Properties *)

(** ** The stable descending sort *)

Section Sorting.

Context {A : Type} (key : A -> Q).

Lemma insert_reverse_perm (x : A) (l : list A) :
  Permutation (insert_reverse key x l) (x :: l).
Proof.
  induction l as [|y l IH]; simpl.
  - reflexivity.
  - destruct (Qle_bool (key y) (key x)).
    + reflexivity.
    + rewrite IH. apply perm_swap.
Qed.

Lemma sort_reverse_perm (l : list A) : Permutation (sort_reverse key l) l.
Proof.
  induction l as [|x l IH]; simpl.
  - reflexivity.
  - rewrite insert_reverse_perm. now rewrite IH.
Qed.

Lemma sort_reverse_length (l : list A) :
  length (sort_reverse key l) = length l.
Proof. apply Permutation_length, sort_reverse_perm. Qed.

Lemma insert_reverse_descending (x : A) (l : list A) :
  descending key l -> descending key (insert_reverse key x l).
Proof.
  unfold descending.
  induction l as [|y l IH]; intros Hs; simpl.
  - constructor; constructor.
  - destruct (Qle_bool (key y) (key x)) eqn:Hle.
    + apply Qle_bool_iff in Hle.
      constructor; [exact Hs|].
      constructor; [exact Hle|].
      inversion Hs as [|? ? _ Hall]; subst.
      eapply List.Forall_impl; [|exact Hall].
      intros b Hb; simpl in Hb. eapply Qle_trans; eassumption.
    + assert (Hlt : (key x < key y)%Q).
      { apply Qnot_le_lt. intros H. apply Qle_bool_iff in H. congruence. }
      inversion Hs as [|? ? Hs' Hall]; subst.
      constructor; [apply IH; exact Hs'|].
      eapply Permutation_Forall.
      * symmetry. apply insert_reverse_perm.
      * constructor; [apply Qlt_le_weak; exact Hlt | exact Hall].
Qed.

Lemma sort_reverse_descending (l : list A) : descending key (sort_reverse key l).
Proof.
  induction l as [|x l IH]; simpl.
  - constructor.
  - apply insert_reverse_descending, IH.
Qed.

Lemma with_key_insert_reverse (q : Q) (x : A) (l : list A) :
  with_key key q (insert_reverse key x l) = with_key key q (x :: l).
Proof.
  unfold with_key.
  induction l as [|y l IH]; simpl.
  - reflexivity.
  - destruct (Qle_bool (key y) (key x)) eqn:Hle; simpl.
    + reflexivity.
    + simpl in IH. rewrite IH.
      destruct (Qeq_bool (key x) q) eqn:Hx; [|reflexivity].
      destruct (Qeq_bool (key y) q) eqn:Hy; [|reflexivity].
      exfalso.
      apply Qeq_bool_iff in Hx. apply Qeq_bool_iff in Hy.
      assert (H : (key y <= key x)%Q) by (rewrite Hx, Hy; apply Qle_refl).
      apply Qle_bool_iff in H. congruence.
Qed.

(** Stability: elements with equal keys keep their relative order. *)
Lemma sort_reverse_stable (q : Q) (l : list A) :
  with_key key q (sort_reverse key l) = with_key key q l.
Proof.
  induction l as [|x l IH]; simpl.
  - reflexivity.
  - rewrite with_key_insert_reverse. unfold with_key in *. simpl.
    now rewrite IH.
Qed.

Lemma firstn_In (n : nat) (l : list A) (x : A) :
  In x (firstn n l) -> In x l.
Proof.
  intros H. rewrite <- (firstn_skipn n l). apply in_or_app. now left.
Qed.

Lemma descending_firstn (n : nat) (l : list A) :
  descending key l -> descending key (firstn n l).
Proof.
  unfold descending. revert n.
  induction l as [|x l IH]; intros [|n] Hs; simpl; try constructor.
  - inversion Hs; subst. now apply IH.
  - inversion Hs as [|? ? _ Hall]; subst.
    rewrite List.Forall_forall in *. intros y Hy. apply Hall.
    eapply firstn_In; exact Hy.
Qed.

Lemma with_key_firstn (q : Q) (n : nat) (l : list A) :
  exists rest, with_key key q l = with_key key q (firstn n l) ++ rest.
Proof.
  exists (with_key key q (skipn n l)).
  unfold with_key. rewrite <- List.filter_app. now rewrite firstn_skipn.
Qed.

End Sorting.

(** ** Tables: lookups after an update *)

Section Rows.

Context {R : Type} (key : R -> nat).

Lemma find_map_stable (p : R -> bool) (h : R -> R) (l : list R) :
  (forall r, p (h r) = p r) ->
  List.find p (map h l) = option_map h (List.find p l).
Proof.
  intros Hp. induction l as [|r l IH]; simpl; [reflexivity|].
  rewrite Hp. destruct (p r); [reflexivity | exact IH].
Qed.

Lemma find_update_rows (p : R -> bool) (k : nat) (g : R -> R) (l : list R) :
  (forall r, p (g r) = p r) ->
  List.find p (update_rows key k g l)
  = option_map (fun r => if Nat.eqb (key r) k then g r else r) (List.find p l).
Proof.
  intros Hp. unfold update_rows. apply find_map_stable.
  intros r. destruct (Nat.eqb (key r) k); [apply Hp | reflexivity].
Qed.

Lemma find_key_update_rows (k k' : nat) (g : R -> R) (l : list R) :
  (forall r, key (g r) = key r) ->
  List.find (fun r => Nat.eqb (key r) k') (update_rows key k g l)
  = if Nat.eqb k' k
    then option_map g (List.find (fun r => Nat.eqb (key r) k') l)
    else List.find (fun r => Nat.eqb (key r) k') l.
Proof.
  intros Hk. rewrite find_update_rows by (intros r; now rewrite Hk).
  destruct (List.find _ l) as [r|] eqn:Hf; simpl.
  - apply find_some in Hf as [_ Hr]. apply Nat.eqb_eq in Hr. rewrite Hr.
    now destruct (Nat.eqb k' k).
  - now destruct (Nat.eqb k' k).
Qed.

Lemma find_key_unique (l : list R) (x : R) :
  List.NoDup (map key l) -> In x l ->
  List.find (fun r => Nat.eqb (key r) (key x)) l = Some x.
Proof.
  induction l as [|r l IH]; intros Hnd Hin; simpl in *; [contradiction|].
  inversion Hnd as [|? ? Hnotin Hnd']; subst.
  destruct Hin as [->|Hin].
  - now rewrite Nat.eqb_refl.
  - destruct (Nat.eqb (key r) (key x)) eqn:E.
    + apply Nat.eqb_eq in E. exfalso. apply Hnotin. rewrite E.
      now apply in_map.
    + now apply IH.
Qed.

Lemma map_key_update_rows (k : nat) (g : R -> R) (l : list R) :
  (forall r, key (g r) = key r) ->
  map key (update_rows key k g l) = map key l.
Proof.
  intros Hk. unfold update_rows. rewrite map_map. apply map_ext.
  intros r. destruct (Nat.eqb (key r) k); [apply Hk | reflexivity].
Qed.

Lemma next_id_fresh (l : list R) (x : R) :
  In x l -> key x <> next_id key l.
Proof.
  intros Hin. unfold next_id.
  assert (H : key x <= list_max (map key l)).
  { pose proof (list_max_le (map key l) (list_max (map key l))) as [Hle _].
    specialize (Hle (Nat.le_refl _)).
    rewrite List.Forall_forall in Hle. apply Hle. now apply in_map. }
  lia.
Qed.

End Rows.

(** ** The deletion tracker *)

Section Deletion.

Import DeletionTracker.

Lemma get_by_path_get (db : DB) (path : string) (f : File) :
  List.NoDup (map file_id (files db)) ->
  FileCRUD.get_by_path db path = Some f ->
  FileCRUD.get db (file_id f) = Some f /\ file_path f = path.
Proof.
  intros Hnd Hf. unfold FileCRUD.get_by_path in Hf.
  apply find_some in Hf as [Hin Hp]. apply String.eqb_eq in Hp.
  split; [|exact Hp].
  unfold FileCRUD.get. now apply find_key_unique.
Qed.

Lemma get_after_update (db : DB) (k k' : nat) (g : File -> File) :
  (forall r, file_id (g r) = file_id r) ->
  FileCRUD.get (with_files db (update_rows file_id k g (files db))) k'
  = if Nat.eqb k' k then option_map g (FileCRUD.get db k') else FileCRUD.get db k'.
Proof. intros Hk. unfold FileCRUD.get; simpl. now apply find_key_update_rows. Qed.

Lemma get_by_path_after_update (db : DB) (k : nat) (g : File -> File) (path : string) :
  (forall r, file_path (g r) = file_path r) ->
  FileCRUD.get_by_path (with_files db (update_rows file_id k g (files db))) path
  = option_map (fun r => if Nat.eqb (file_id r) k then g r else r)
               (FileCRUD.get_by_path db path).
Proof.
  intros Hp. unfold FileCRUD.get_by_path; simpl.
  apply find_update_rows. intros r. now rewrite Hp.
Qed.

Lemma mark_deleted_get (db : DB) (path : string) (f : File) :
  FileCRUD.get_by_path db path = Some f ->
  FileCRUD.get db (file_id f) = Some f ->
  let db1 := snd (mark_file_deleted db path) in
  fst (mark_file_deleted db path) = true
  /\ FileCRUD.get db1 (file_id f) = Some (set_deleted true false f)
  /\ FileCRUD.get_by_path db1 path = Some (set_deleted true false f).
Proof.
  intros Hp Hg. unfold mark_file_deleted, FileCRUD.mark_deleted.
  rewrite Hp. simpl. split; [reflexivity|]. split.
  - rewrite get_after_update by reflexivity.
    now rewrite Nat.eqb_refl, Hg.
  - rewrite get_by_path_after_update by reflexivity.
    rewrite Hp. simpl. now rewrite Nat.eqb_refl.
Qed.

Lemma notify_fresh (db : DB) (f : File) :
  FileCRUD.get db (file_id f) = Some f ->
  is_deleted f = true -> deletion_notified f = false ->
  fst (notify_if_deleted db (file_id f)) = Some (warning_message f)
  /\ FileCRUD.get (snd (notify_if_deleted db (file_id f))) (file_id f)
     = Some (set_deletion_notified true f)
  /\ forall path,
       FileCRUD.get_by_path (snd (notify_if_deleted db (file_id f))) path
       = option_map
           (fun r => if Nat.eqb (file_id r) (file_id f)
                     then set_deletion_notified true r else r)
           (FileCRUD.get_by_path db path).
Proof.
  intros Hg Hd Hn. unfold notify_if_deleted, FileCRUD.mark_deletion_notified.
  rewrite Hg, Hd, Hn. simpl. split; [reflexivity|]. split.
  - rewrite get_after_update by reflexivity.
    now rewrite Nat.eqb_refl, Hg.
  - intros path. now apply get_by_path_after_update.
Qed.

Lemma notify_again (db : DB) (f : File) :
  FileCRUD.get db (file_id f) = Some f ->
  deletion_notified f = true ->
  notify_if_deleted db (file_id f) = (None, db).
Proof.
  intros Hg Hn. unfold notify_if_deleted. rewrite Hg, Hn.
  now rewrite andb_false_r.
Qed.

(** C8.  After [mark_file_deleted] the file is flagged deleted and not
    notified; the first [notify_if_deleted] returns the warning that names
    the file and its path and marks the file notified; the second returns
    nothing and changes nothing; after another [mark_file_deleted] the same
    warning is returned again. *)
Theorem C8_notify_once_per_deletion (db : DB) (path : string) (f : File) :
  List.NoDup (map file_id (files db)) ->
  FileCRUD.get_by_path db path = Some f ->
  let id := file_id f in
  let db1 := snd (mark_file_deleted db path) in
  let first := notify_if_deleted db1 id in
  let second := notify_if_deleted (snd first) id in
  let db4 := snd (mark_file_deleted (snd second) path) in
  let third := notify_if_deleted db4 id in
  (exists f1, FileCRUD.get db1 id = Some f1
              /\ is_deleted f1 = true /\ deletion_notified f1 = false)
  /\ fst first
     = Some ("Warning: Matching file '" +:+ filename f
             +:+ "' has been deleted from source. "
             +:+ "The file was originally located at: " +:+ path)
  /\ (exists f2, FileCRUD.get (snd first) id = Some f2
                 /\ is_deleted f2 = true /\ deletion_notified f2 = true)
  /\ second = (None, snd first)
  /\ fst third = fst first.
Proof.
  intros Hnd Hp id db1 first second db4 third.
  destruct (get_by_path_get db path f Hnd Hp) as [Hg Hpath].
  destruct (mark_deleted_get db path f Hp Hg) as (_ & Hg1 & Hp1).
  fold db1 in Hg1, Hp1.
  set (f1 := set_deleted true false f) in *.
  destruct (notify_fresh db1 f1 Hg1 eq_refl eq_refl) as (Hw1 & Hg2 & Hp2).
  change (file_id f1) with id in *. fold first in Hw1, Hg2, Hp2.
  set (f2 := set_deletion_notified true f1) in *.
  assert (Hsecond : second = (None, snd first)).
  { unfold second. exact (notify_again (snd first) f2 Hg2 eq_refl). }
  assert (Hp3 : FileCRUD.get_by_path (snd second) path = Some f2).
  { rewrite Hsecond. simpl. rewrite Hp2, Hp1. simpl.
    change (file_id f1) with id. now rewrite Nat.eqb_refl. }
  assert (Hg3 : FileCRUD.get (snd second) (file_id f2) = Some f2).
  { rewrite Hsecond. exact Hg2. }
  destruct (mark_deleted_get (snd second) path f2 Hp3 Hg3) as (_ & Hg4 & _).
  fold db4 in Hg4.
  destruct (notify_fresh db4 (set_deleted true false f2) Hg4 eq_refl eq_refl)
    as (Hw3 & _ & _).
  change (file_id (set_deleted true false f2)) with id in Hw3. fold third in Hw3.
  split; [exists f1; repeat split; assumption|].
  split; [rewrite Hw1; unfold warning_message; simpl; now rewrite Hpath|].
  split; [exists f2; repeat split; assumption|].
  split; [exact Hsecond|].
  now rewrite Hw3, Hw1.
Qed.

(** On the scanned sample folder, for [/media/a.mp3]. *)
Lemma C8_notify_once_per_deletion_witness :
  let db1 := snd (mark_file_deleted Sample.db_scanned "/media/a.mp3") in
  let first := notify_if_deleted db1 1 in
  fst first
  = Some ("Warning: Matching file 'a.mp3' has been deleted from source. "
          +:+ "The file was originally located at: /media/a.mp3")
  /\ notify_if_deleted (snd first) 1 = (None, snd first).
Proof.
  intros db1 first.
  assert (Hf : exists f,
             FileCRUD.get_by_path Sample.db_scanned "/media/a.mp3" = Some f
             /\ file_id f = 1 /\ filename f = "a.mp3")
    by (eexists; repeat split; reflexivity).
  destruct Hf as (f & Hf & Hid & Hname).
  assert (Hnd : List.NoDup (map file_id (files Sample.db_scanned))).
  { vm_compute. repeat constructor; simpl; intuition discriminate. }
  destruct (C8_notify_once_per_deletion Sample.db_scanned "/media/a.mp3" f Hnd Hf)
    as (_ & H2 & _ & H4 & _).
  rewrite Hid, Hname in *. split; [exact H2 | exact H4].
Defined.

End Deletion.

(** ** The event debouncer *)

Section Debouncer.

Import MultimodalEventHandler Sample.

Lemma should_process_spec (h : t) (now : Q) (path : string) :
  _should_process h now path =
    if ModalityDetector.is_supported path
       && Qle_bool (cooldown_seconds h) (elapsed h now path)
    then (true, set_last_event_time h path now)
    else (false, h).
Proof.
  unfold _should_process, Qlt_bool, elapsed.
  destruct (ModalityDetector.is_supported path); simpl; [|reflexivity].
  now destruct (Qle_bool _ _).
Qed.

Lemma on_created_spec (h : t) (now : Q) (ev : FsEvent) :
  is_directory ev = false ->
  on_created h now ev =
    if ModalityDetector.is_supported (src_path ev)
       && Qle_bool (cooldown_seconds h) (elapsed h now (src_path ev))
    then _queue_event (set_last_event_time h (src_path ev) now) "create" (src_path ev)
    else h.
Proof.
  intros Hd. unfold on_created. rewrite Hd, should_process_spec.
  now destruct (_ && _).
Qed.

Lemma on_modified_spec (h : t) (now : Q) (ev : FsEvent) :
  is_directory ev = false ->
  on_modified h now ev =
    if ModalityDetector.is_supported (src_path ev)
       && Qle_bool (cooldown_seconds h) (elapsed h now (src_path ev))
    then _queue_event (set_last_event_time h (src_path ev) now) "modify" (src_path ev)
    else h.
Proof.
  intros Hd. unfold on_modified. rewrite Hd, should_process_spec.
  now destruct (_ && _).
Qed.

Lemma on_moved_spec (h : t) (now_src now_dest : Q) (ev : FsEvent) :
  is_directory ev = false ->
  on_moved h now_src now_dest ev =
    let h2 :=
      if ModalityDetector.is_supported (src_path ev)
         && Qle_bool (cooldown_seconds h) (elapsed h now_src (src_path ev))
      then _queue_event (set_last_event_time h (src_path ev) now_src)
             "delete" (src_path ev)
      else h in
    if ModalityDetector.is_supported (dest_path ev)
       && Qle_bool (cooldown_seconds h2) (elapsed h2 now_dest (dest_path ev))
    then _queue_event (set_last_event_time h2 (dest_path ev) now_dest)
           "create" (dest_path ev)
    else h2.
Proof.
  intros Hd. unfold on_moved. rewrite Hd, should_process_spec.
  destruct (_ && _); cbv zeta; rewrite should_process_spec;
    now destruct (_ && _).
Qed.

(** A handler call writes the entry of a path only together with an
    event for that path put on the queue. *)
Lemma on_moved_entry_written (h : t) (now_src now_dest : Q) (ev : FsEvent)
    (p : string) :
  is_directory ev = false ->
  last_event_time (on_moved h now_src now_dest ev) !! p <> last_event_time h !! p ->
  exists act new,
    queue (on_moved h now_src now_dest ev) = queue h ++ new
    /\ In (queued h act p) new.
Proof.
  intros Hd. rewrite on_moved_spec by exact Hd. cbv zeta.
  destruct (ModalityDetector.is_supported (src_path ev)
            && Qle_bool (cooldown_seconds h) (elapsed h now_src (src_path ev)));
    destruct (ModalityDetector.is_supported (dest_path ev) && Qle_bool _ _);
    cbn [last_event_time queue _queue_event set_last_event_time
         handler_folder_id cooldown_seconds]; intros Hne.
  - destruct (decide (dest_path ev = p)) as [<-|Hdp].
    + exists "create", [queued h "delete" (src_path ev);
                        queued h "create" (dest_path ev)].
      split; [now rewrite <- app_assoc | right; now left].
    + rewrite lookup_insert_ne in Hne by exact Hdp.
      destruct (decide (src_path ev = p)) as [<-|Hsp].
      * exists "delete", [queued h "delete" (src_path ev);
                          queued h "create" (dest_path ev)].
        split; [now rewrite <- app_assoc | now left].
      * rewrite lookup_insert_ne in Hne by exact Hsp. contradiction.
  - destruct (decide (src_path ev = p)) as [<-|Hsp].
    + exists "delete", [queued h "delete" (src_path ev)]. split; [reflexivity | now left].
    + rewrite lookup_insert_ne in Hne by exact Hsp. contradiction.
  - destruct (decide (dest_path ev = p)) as [<-|Hdp].
    + exists "create", [queued h "create" (dest_path ev)]. split; [reflexivity | now left].
    + rewrite lookup_insert_ne in Hne by exact Hdp. contradiction.
  - contradiction.
Qed.

Lemma elapsed_after_forward (h : t) (t1 now : Q) (p act : string) :
  elapsed (_queue_event (set_last_event_time h p t1) act p) now p = (now - t1)%Q.
Proof.
  unfold elapsed, _queue_event, set_last_event_time; simpl.
  now rewrite lookup_insert_eq.
Qed.

Lemma Qle_bool_false (a b : Q) : (b < a)%Q -> Qle_bool a b = false.
Proof.
  intros H. destruct (Qle_bool a b) eqn:E; [|reflexivity].
  apply Qle_bool_iff in E. exfalso. eapply Qlt_not_le; eassumption.
Qed.

Lemma Qle_bool_true (a b : Q) : (a <= b)%Q -> Qle_bool a b = true.
Proof. apply Qle_bool_iff. Qed.

(** C7 (as amended).  A create or modify event is forwarded exactly
    when the path is supported and the time since the entry of the
    last-forwarded-time map for that path (0 when there is none) is at
    least the cooldown window; the entry is written when the event is
    forwarded and the handler is left as it was otherwise.  Hence of two
    create events for a path within the window one is forwarded, and a
    create once the window has elapsed is forwarded as well.  A delete
    event writes no entry, and a move writes the entry of a path only
    together with an event for that path. *)
Theorem C7_cooldown_forwarding (h : t) (ev : FsEvent) :
  is_directory ev = false ->
  let p := src_path ev in
  (forall now,
      (ModalityDetector.is_supported p = true
       /\ (cooldown_seconds h <= elapsed h now p)%Q ->
       queue (on_created h now ev) = queue h ++ [queued h "create" p]
       /\ queue (on_modified h now ev) = queue h ++ [queued h "modify" p]
       /\ last_event_time (on_created h now ev) = <[p := now]> (last_event_time h)
       /\ last_event_time (on_modified h now ev) = <[p := now]> (last_event_time h))
      /\ (~ (ModalityDetector.is_supported p = true
             /\ (cooldown_seconds h <= elapsed h now p)%Q) ->
          on_created h now ev = h /\ on_modified h now ev = h))
  /\ (forall t1 t2 t3,
         ModalityDetector.is_supported p = true ->
         (cooldown_seconds h <= elapsed h t1 p)%Q ->
         (t2 - t1 < cooldown_seconds h)%Q ->
         (cooldown_seconds h <= t3 - t1)%Q ->
         let h1 := on_created h t1 ev in
         let h2 := on_created h1 t2 ev in
         let h3 := on_created h2 t3 ev in
         queue h2 = queue h ++ [queued h "create" p]
         /\ last_event_time h2 !! p = Some t1
         /\ queue h3 = queue h ++ [queued h "create" p; queued h "create" p])
  /\ last_event_time (on_deleted h ev) = last_event_time h
  /\ (forall now_src now_dest q,
         last_event_time (on_moved h now_src now_dest ev) !! q
           <> last_event_time h !! q ->
         exists act new,
           queue (on_moved h now_src now_dest ev) = queue h ++ new
           /\ In (queued h act q) new).
Proof.
  intros Hd p. split; [|split; [|split]];
    [| | unfold on_deleted; now rewrite Hd
       | intros now_src now_dest q; now apply on_moved_entry_written].
  - intros now. split.
    + intros [Hs Hc]. apply Qle_bool_true in Hc.
      rewrite on_created_spec, on_modified_spec by exact Hd.
      fold p. rewrite Hs, Hc. simpl. repeat split; reflexivity.
    + intros Hn.
      rewrite on_created_spec, on_modified_spec by exact Hd. fold p.
      destruct (ModalityDetector.is_supported p) eqn:Hs; simpl; [|now split].
      destruct (Qle_bool (cooldown_seconds h) (elapsed h now p)) eqn:Hc; [|now split].
      exfalso. apply Hn. split; [reflexivity|]. now apply Qle_bool_iff.
  - intros t1 t2 t3 Hs H1 H2 H3 h1 h2 h3.
    assert (E1 : h1 = _queue_event (set_last_event_time h p t1) "create" p).
    { unfold h1. rewrite on_created_spec by exact Hd. fold p.
      now rewrite Hs, (Qle_bool_true _ _ H1). }
    assert (E2 : h2 = h1).
    { unfold h2. rewrite on_created_spec by exact Hd. fold p.
      rewrite E1 at 1 2. rewrite elapsed_after_forward. simpl.
      now rewrite (Qle_bool_false _ _ H2), andb_false_r. }
    assert (E3 : h3 = _queue_event (set_last_event_time h1 p t3) "create" p).
    { unfold h3. rewrite E2. rewrite on_created_spec by exact Hd. fold p.
      rewrite E1 at 1 2. rewrite elapsed_after_forward. simpl.
      now rewrite Hs, (Qle_bool_true _ _ H3). }
    rewrite E3, E2, E1. simpl. repeat split.
    + apply lookup_insert_eq.
    + now rewrite <- app_assoc.
Qed.

Lemma C7_cooldown_forwarding_witness :
  queue (on_created (on_created (on_created handler0 100 (file_event "/media/a.mp4"))
                                101 (file_event "/media/a.mp4"))
                    103 (file_event "/media/a.mp4"))
  = [queued handler0 "create" "/media/a.mp4"; queued handler0 "create" "/media/a.mp4"]
  /\ last_event_time (on_modified handler0 100 (file_event "/media/a.mp4"))
     = <["/media/a.mp4" := 100%Q]> (last_event_time handler0)
  /\ on_created handler_after_create 101 (file_event "/media/a.mp4")
     = handler_after_create
  /\ exists act new,
       queue (on_moved handler0 100 100 (move_event "/media/a.mp4" "/media/b.mp4"))
       = queue handler0 ++ new
       /\ In (queued handler0 act "/media/b.mp4") new.
Proof.
  destruct (C7_cooldown_forwarding handler0 (file_event "/media/a.mp4") eq_refl)
    as (Hstep & H & _).
  destruct (C7_cooldown_forwarding handler_after_create
              (file_event "/media/a.mp4") eq_refl) as (Hdrop & _).
  destruct (C7_cooldown_forwarding handler0
              (move_event "/media/a.mp4" "/media/b.mp4") eq_refl)
    as (_ & _ & _ & Hmove).
  split; [|split; [|split]].
  - specialize (H 100%Q 101%Q 103%Q).
    destruct H as (_ & _ & H3).
    + reflexivity.
    + vm_compute. discriminate.
    + vm_compute. reflexivity.
    + vm_compute. discriminate.
    + exact H3.
  - destruct (Hstep 100%Q) as [Hfwd _].
    destruct Hfwd as (_ & _ & _ & Hmap).
    + split; [reflexivity | vm_compute; discriminate].
    + exact Hmap.
  - destruct (Hdrop 101%Q) as [_ Hno].
    destruct Hno as [Hc _].
    + intros [_ Hle]. revert Hle. vm_compute. intros Hle. now apply Hle.
    + exact Hc.
  - apply (Hmove 100%Q 100%Q "/media/b.mp4"). vm_compute. discriminate.
Defined.

Lemma C7_counterexample :
  let h := handler_after_create in
  let ev := file_event "/media/a.mp4" in
  last_event_time h !! "/media/a.mp4" = Some 100%Q
  /\ queue (on_created h 102 ev) = queue h ++ [queued h "create" "/media/a.mp4"]
  /\ ~ (cooldown_seconds h < 102 - 100)%Q.
Proof.
  repeat split.
  vm_compute. intros H. discriminate H.
Qed.

(** C5.  A move of a supported file within the cooldown of its source
    path: [on_moved] forwards no delete event for the source, only the
    create event for the destination, while [on_deleted] on the same
    handler forwards the delete event. *)
Lemma C5_move_within_cooldown :
  let h := handler_after_create in
  let ev := move_event "/media/a.mp4" "/media/b.mp4" in
  ModalityDetector.is_supported (src_path ev) = true
  /\ queue h = [queued h "create" "/media/a.mp4"]
  /\ queue (on_moved h 101 101 ev)
     = queue h ++ [queued h "create" "/media/b.mp4"]
  /\ queue (on_deleted h (file_event "/media/a.mp4"))
     = queue h ++ [queued h "delete" "/media/a.mp4"].
Proof. repeat split. Qed.

(** C6.  A delete event for a path with an unsupported extension:
    [on_deleted] does not look at the extension and queues the event,
    while a create, a modify and a move of the same path queue nothing
    (the delete that [on_moved] makes up for the source goes through the
    extension check of [_should_process]). *)
Lemma C6_unsupported_delete_is_queued :
  let ev := file_event "/media/notes.txt" in
  let mv := move_event "/media/notes.txt" "/media/notes2.txt" in
  ModalityDetector.is_supported (src_path ev) = false
  /\ queue (on_deleted handler0 ev) = [queued handler0 "delete" "/media/notes.txt"]
  /\ on_created handler0 100 ev = handler0
  /\ on_modified handler0 100 ev = handler0
  /\ on_moved handler0 100 100 mv = handler0.
Proof. repeat split. Qed.

(** X1.  A create or modify event whose path has an unsupported
    extension leaves the handler as it was, whatever the clock reading and
    the cooldown map: nothing is queued and no entry is written; so does a
    move whose source and destination are both unsupported. *)
Theorem unsupported_create_modify_dropped (h : t) (now now' : Q) (ev : FsEvent) :
  ModalityDetector.is_supported (src_path ev) = false ->
  on_created h now ev = h
  /\ on_modified h now ev = h
  /\ (ModalityDetector.is_supported (dest_path ev) = false ->
      on_moved h now now' ev = h).
Proof.
  intros Hs. unfold on_created, on_modified, on_moved, _should_process.
  rewrite Hs. simpl.
  destruct (is_directory ev); repeat split; try reflexivity.
  intros Hd. now rewrite Hd.
Qed.

Lemma unsupported_create_modify_dropped_witness :
  ModalityDetector.is_supported "/media/notes.txt" = false
  /\ on_created handler_after_create 500
       (move_event "/media/notes.txt" "/media/notes2.txt")
     = handler_after_create
  /\ on_moved handler_after_create 500 501
       (move_event "/media/notes.txt" "/media/notes2.txt")
     = handler_after_create.
Proof.
  split; [reflexivity|].
  destruct (unsupported_create_modify_dropped handler_after_create 500 501
              (move_event "/media/notes.txt" "/media/notes2.txt") eq_refl)
    as (H1 & _ & H3).
  split; [exact H1 | exact (H3 eq_refl)].
Defined.

End Debouncer.

(** ** The similarity scan and the folder filter *)

Section FolderFilter.

Import EmbeddingCRUD.

Lemma candidate_empty_folder_ids (modality : option string) (excl : bool)
    (row : File * Embedding) :
  candidate modality (Some []) excl row = candidate modality None excl row.
Proof. destruct row as [f e]. reflexivity. Qed.

Lemma score_rows_In (w : World) (q : ndarray) (T : Q)
    (rows : list (File * Embedding)) (f : File) (s : Q) :
  In (f, s) (score_rows w q T rows) ->
  (T <= s)%Q /\ exists e, In (f, e) rows.
Proof.
  unfold score_rows. rewrite in_flat_map. intros [[f' e] [Hin Hhit]].
  simpl in Hhit. destruct (vector e) as [blob|]; [|contradiction].
  destruct (Qle_bool T _) eqn:Hle; [|contradiction].
  destruct Hhit as [Heq|[]]. inversion Heq; subst.
  split; [now apply Qle_bool_iff | now exists e].
Qed.

Lemma search_similar_In (w : World) (db : DB) (q : ndarray)
    (modality : option string) (ids : option (list nat)) (k : nat) (T : Q)
    (excl : bool) (f : File) (s : Q) :
  In (f, s) (search_similar w db q modality ids k T excl) ->
  (T <= s)%Q
  /\ exists e, In (f, e) (join_file_embedding db)
               /\ candidate modality ids excl (f, e) = true.
Proof.
  unfold search_similar. intros Hin.
  apply firstn_In in Hin.
  apply (Permutation_in _ (sort_reverse_perm snd _)) in Hin.
  apply score_rows_In in Hin as [HT [e He]].
  apply filter_In in He as [Hj Hc].
  split; [exact HT | now exists e].
Qed.

Lemma join_file_embedding_iff (db : DB) (f : File) (e : Embedding) :
  In (f, e) (join_file_embedding db)
  <-> In e (embeddings db) /\ FileCRUD.get db (emb_file_id e) = Some f.
Proof.
  unfold join_file_embedding. rewrite in_flat_map. split.
  - intros [e' [He' Hin]].
    destruct (FileCRUD.get db (emb_file_id e')) as [f'|] eqn:Hg; [|contradiction].
    destruct Hin as [Heq|[]]. injection Heq as <- <-. now split.
  - intros [He Hg]. exists e. split; [exact He|]. rewrite Hg. now left.
Qed.

Lemma score_rows_iff (w : World) (q : ndarray) (T : Q)
    (rows : list (File * Embedding)) (f : File) (s : Q) :
  In (f, s) (score_rows w q T rows)
  <-> exists e blob,
        In (f, e) rows /\ vector e = Some blob
        /\ s = np_dot w q (deserialize_array w blob) /\ (T <= s)%Q.
Proof.
  unfold score_rows. rewrite in_flat_map. split.
  - intros [[f' e] [Hin Hhit]]. cbn [fst snd] in Hhit.
    destruct (vector e) as [blob|] eqn:Hv; [|contradiction].
    destruct (Qle_bool T _) eqn:Hle; [|contradiction].
    destruct Hhit as [Heq|[]]. injection Heq as <- <-.
    exists e, blob. repeat split; auto. now apply Qle_bool_iff.
  - intros (e & blob & Hin & Hv & -> & HT). exists (f, e). split; [exact Hin|].
    cbn [fst snd]. rewrite Hv. apply Qle_bool_iff in HT. rewrite HT. now left.
Qed.

Lemma candidate_iff (modality : option string) (folder_ids : option (list nat))
    (excl : bool) (f : File) (e : Embedding) :
  candidate modality folder_ids excl (f, e) = true
  <-> vector e <> None
      /\ (truthy_str modality = true -> emb_modality e = modality)
      /\ (excl = true -> is_deleted f = false)
      /\ (forall ids, folder_ids = Some ids -> ids <> [] ->
            In (file_folder_id f) ids).
Proof.
  unfold candidate. rewrite !andb_true_iff.
  assert (Hv : match vector e with Some _ => true | None => false end = true
               <-> vector e <> None)
    by (destruct (vector e); split; try discriminate; auto; intros H; now elim H).
  assert (Hm : (if truthy_str modality
                then match emb_modality e, modality with
                     | Some m, Some m' => String.eqb m m'
                     | _, _ => false
                     end
                else true) = true
               <-> (truthy_str modality = true -> emb_modality e = modality)).
  { destruct (truthy_str modality) eqn:Ht; [|split; auto; discriminate].
    destruct (emb_modality e) as [m|], modality as [m'|]; split; intros H;
      try discriminate; auto; try (specialize (H eq_refl); discriminate).
    - intros _. apply String.eqb_eq in H. now subst.
    - specialize (H eq_refl). injection H as ->. apply String.eqb_refl. }
  assert (Hf : (if truthy_list folder_ids
                then match folder_ids with
                     | Some ids => existsb (Nat.eqb (file_folder_id f)) ids
                     | None => true
                     end
                else true) = true
               <-> (forall ids, folder_ids = Some ids -> ids <> [] ->
                      In (file_folder_id f) ids)).
  { destruct folder_ids as [[|i ids]|]; cbn [truthy_list].
    - split; auto. intros _ ids E Hne. injection E as <-. now elim Hne.
    - rewrite existsb_exists. split.
      + intros [x [Hx Heq]] ids' E _. injection E as <-.
        apply Nat.eqb_eq in Heq. now subst.
      + intros H. exists (file_folder_id f).
        split; [apply (H (i :: ids) eq_refl); discriminate | apply Nat.eqb_refl].
    - split; auto. discriminate. }
  assert (Hd : (if excl then negb (is_deleted f) else true) = true
               <-> (excl = true -> is_deleted f = false)).
  { destruct excl; [|split; auto; discriminate].
    rewrite negb_true_iff. split; auto. }
  rewrite Hv, Hm, Hf, Hd. tauto.
Qed.

Lemma join_length (db : DB) :
  length (join_file_embedding db) <= length (embeddings db).
Proof.
  unfold join_file_embedding.
  induction (embeddings db) as [|e l IH]; cbn; [lia|].
  rewrite length_app. destruct (FileCRUD.get db (emb_file_id e)); cbn; lia.
Qed.

Lemma score_rows_length (w : World) (q : ndarray) (T : Q)
    (rows : list (File * Embedding)) :
  length (score_rows w q T rows) <= length rows.
Proof.
  unfold score_rows. induction rows as [|[f e] rows IH]; cbn; [lia|].
  rewrite length_app. destruct (vector e); cbn; [|lia].
  destruct (Qle_bool T _); cbn; lia.
Qed.

Lemma filter_length_le' {A : Type} (p : A -> bool) (l : list A) :
  length (List.filter p l) <= length l.
Proof.
  induction l as [|x l IH]; cbn; [lia|]. destruct (p x); cbn; lia.
Qed.

(** C10.  An empty folder-id list restricts nothing: the similarity scan
    and the whole search give the same result as with no list.  A
    non-empty list keeps only files owned by one of the listed folders.
    What the scan returns is pinned from both sides.  Every returned pair
    is a stored file with one of its embedding rows, scored by the dot
    product with the row's payload, the score reaching the threshold, the
    row of the requested modality, the file live when deleted files are
    excluded, and, for a non-empty list only, the file owned by a listed
    folder.  And when the cap is no smaller than the table, every such
    row is returned: from any folder when the list is absent or empty,
    from every listed folder when it is not. *)
Theorem C10_empty_folder_filter (w : World) (db : DB) (q : ndarray)
    (modality : option string) (k : nat) (T : Q) (excl : bool) :
  search_similar w db q modality (Some []) k T excl
  = search_similar w db q modality None k T excl
  /\ (forall tracker request,
         req_folder_ids request = Some [] ->
         SearchService.search w tracker db request
         = SearchService.search w tracker db
             {| query := query request; query_type := query_type request;
                modalities := modalities request; req_folder_ids := None;
                top_k := top_k request; threshold := threshold request |})
  /\ (forall id ids,
         Forall (fun r => In (file_folder_id (fst r)) (id :: ids))
                (search_similar w db q modality (Some (id :: ids)) k T excl))
  /\ (forall folder_ids f s,
         In (f, s) (search_similar w db q modality folder_ids k T excl) ->
         exists e blob,
           In e (embeddings db)
           /\ FileCRUD.get db (emb_file_id e) = Some f
           /\ vector e = Some blob
           /\ s = np_dot w q (deserialize_array w blob)
           /\ (T <= s)%Q
           /\ (truthy_str modality = true -> emb_modality e = modality)
           /\ (excl = true -> is_deleted f = false)
           /\ (forall ids, folder_ids = Some ids -> ids <> [] ->
                 In (file_folder_id f) ids))
  /\ (forall folder_ids e f blob,
         length (embeddings db) <= k ->
         In e (embeddings db) ->
         FileCRUD.get db (emb_file_id e) = Some f ->
         vector e = Some blob ->
         (T <= np_dot w q (deserialize_array w blob))%Q ->
         (truthy_str modality = true -> emb_modality e = modality) ->
         (excl = true -> is_deleted f = false) ->
         (forall ids, folder_ids = Some ids -> ids <> [] ->
            In (file_folder_id f) ids) ->
         In (f, np_dot w q (deserialize_array w blob))
            (search_similar w db q modality folder_ids k T excl)).
Proof.
  split; [|split; [|split; [|split]]].
  - reflexivity.
  - intros tracker request Hids.
    unfold SearchService.search, SearchService.collect_results; simpl.
    rewrite Hids.
    destruct (SimilarityCalculator.compute_query_embedding _ _ _ _)
      as [[|entry qe]|msg]; reflexivity.
  - intros id ids. apply List.Forall_forall. intros [f s] Hin.
    apply search_similar_In in Hin as [_ [e [_ Hc]]].
    apply candidate_iff in Hc as (_ & _ & _ & Hc).
    apply (Hc (id :: ids) eq_refl). discriminate.
  - intros folder_ids f s Hin. unfold search_similar in Hin.
    apply firstn_In in Hin.
    apply (Permutation_in _ (sort_reverse_perm snd _)) in Hin.
    apply score_rows_iff in Hin as (e & blob & Hrow & Hv & Hs & HT).
    apply filter_In in Hrow as [Hj Hc].
    apply join_file_embedding_iff in Hj as [He Hg].
    apply candidate_iff in Hc as (_ & Hm & Hd & Hf).
    exists e, blob. repeat split; auto.
  - intros folder_ids e f blob Hk He Hg Hv HT Hm Hd Hf. unfold search_similar.
    rewrite firstn_all2.
    + apply (Permutation_in _ (Permutation_sym (sort_reverse_perm snd _))).
      apply score_rows_iff. exists e, blob. repeat split; auto.
      apply filter_In. split; [now apply join_file_embedding_iff|].
      apply candidate_iff. repeat split; auto. rewrite Hv. discriminate.
    + rewrite sort_reverse_length.
      etransitivity; [apply score_rows_length|].
      etransitivity; [apply filter_length_le'|].
      etransitivity; [apply join_length | exact Hk].
Qed.

Lemma C10_empty_folder_filter_witness :
  let scan ids :=
    map (fun r => (file_path (fst r), file_folder_id (fst r), snd r))
      (search_similar Sample.world_two_folders Sample.db_two_folders [1; 0]%Q
         (Some "audio") ids 10 0 true) in
  scan None = [("/music/d.mp3", 2, 2%Q); ("/media/a.mp3", 1, 1%Q)]
  /\ scan (Some []) = scan None
  /\ scan (Some [2]) = [("/music/d.mp3", 2, 2%Q)]
  /\ Forall (fun r => In (file_folder_id (fst r)) [2])
       (search_similar Sample.world_two_folders Sample.db_two_folders [1; 0]%Q
          (Some "audio") (Some [2]) 10 0 true)
  /\ In ("/music/d.mp3", 2, 2%Q) (scan (Some [1; 2]))
  /\ In ("/media/a.mp3", 1, 1%Q) (scan (Some [1; 2])).
Proof.
  intros scan.
  destruct (C10_empty_folder_filter Sample.world_two_folders Sample.db_two_folders
              [1; 0]%Q (Some "audio") 10 0 true) as (Hempty & _ & Honly & _ & Hall).
  assert (Hin : forall n path folder score,
            (exists e f blob,
               nth_error (embeddings Sample.db_two_folders) n = Some e
               /\ FileCRUD.get Sample.db_two_folders (emb_file_id e) = Some f
               /\ vector e = Some blob
               /\ emb_modality e = Some "audio"
               /\ is_deleted f = false
               /\ In (file_folder_id f) [1; 2]
               /\ file_path f = path /\ file_folder_id f = folder
               /\ np_dot Sample.world_two_folders [1; 0]%Q
                    (deserialize_array Sample.world_two_folders blob) = score
               /\ (0 <= score)%Q) ->
            In (path, folder, score) (scan (Some [1; 2]))).
  { intros n path folder score
      (e & f & blob & He & Hg & Hv & Hm & Hd & Hf & <- & <- & <- & HT).
    unfold scan.
    apply (in_map (fun r => (file_path (fst r), file_folder_id (fst r), snd r))
             _ (f, _)).
    apply (Hall (Some [1; 2]) e f blob); auto.
    - vm_compute. lia.
    - eapply nth_error_In. exact He.
    - intros ids E _. now injection E as <-. }
  split; [reflexivity|]. split; [unfold scan; now rewrite Hempty|].
  split; [reflexivity|]. split; [exact (Honly 2 [])|].
  split; [apply (Hin 1) | apply (Hin 0)];
    (do 3 eexists; repeat split; try reflexivity; cbn; auto;
     vm_compute; intros H; discriminate H).
Defined.

End FolderFilter.

(** ** Ranking and merging *)

Section Ranking.

Import SearchService.

Lemma descending_map {A B : Type} (f : A -> B) (kb : B -> Q) (ka : A -> Q)
    (l : list A) :
  (forall x, kb (f x) = ka x) ->
  descending ka l -> descending kb (map f l).
Proof.
  intros Hk. unfold descending. induction 1 as [|x l _ IH Hall]; simpl.
  - constructor.
  - constructor; [exact IH|].
    rewrite List.Forall_forall in *. intros y Hy.
    apply in_map_iff in Hy as [z [<- Hz]]. rewrite !Hk. now apply Hall.
Qed.

Lemma collect_results_concat (w : World) (db : DB) (request : SearchRequest)
    (qe : list (string * ndarray)) :
  collect_results w db request qe
  = concat (map (modality_top_k w db request) qe).
Proof.
  unfold collect_results.
  assert (H : forall l acc,
    fold_left
      (fun all_results (entry : string * ndarray) =>
         let '(modality, query_emb) := entry in
         let found :=
           EmbeddingCRUD.search_similar w db query_emb (Some modality)
             (req_folder_ids request) (top_k request) (threshold request) true in
         all_results ++ map (fun r => (fst r, snd r, modality)) found) l acc
    = acc ++ concat (map (modality_top_k w db request) l)).
  { induction l as [|[m q] l IH]; intros acc; simpl.
    - now rewrite app_nil_r.
    - rewrite IH. unfold modality_top_k at 2. simpl. now rewrite <- app_assoc. }
  now rewrite H.
Qed.

Lemma build_response_results (tracker : bool) (db : DB) (l : list hit) :
  fst (fst (build_response tracker db l)) = map make_result l.
Proof.
  revert db. induction l as [|h l IH]; intros db; simpl; [reflexivity|].
  destruct (if tracker && is_deleted (hit_file h)
            then DeletionTracker.notify_if_deleted db (file_id (hit_file h))
            else (None, db)) as [warning db1].
  specialize (IH db1).
  destruct (build_response tracker db1 l) as [[rs ws] db2]. simpl in *.
  now rewrite IH.
Qed.

(** What [search] returns once the query embeddings are there. *)
Lemma search_results (w : World) (tracker : bool) (db : DB)
    (request : SearchRequest) (qe : list (string * ndarray)) :
  SimilarityCalculator.compute_query_embedding w (query request)
    (query_type request) (target_modalities request) = Ok qe ->
  exists resp db',
    search w tracker db request = (Ok resp, db')
    /\ results resp = map make_result (spec_merge w db request qe)
    /\ total resp = length (results resp)
    /\ (resp, db') =
       let '(rs, ws, db1) := build_response tracker db (spec_merge w db request qe) in
       ({| results := rs; total := length rs;
           warnings := match ws with [] => None | _ => Some ws end |}, db1).
Proof.
  intros Hqe. unfold search. rewrite Hqe.
  destruct qe as [|entry qe].
  - eexists; eexists. split; [reflexivity|].
    unfold spec_merge; simpl. rewrite firstn_nil. simpl. repeat split.
  - rewrite collect_results_concat. fold (spec_merge w db request (entry :: qe)).
    pose proof (build_response_results tracker db (spec_merge w db request (entry :: qe))) as Hr.
    destruct (build_response tracker db (spec_merge w db request (entry :: qe)))
      as [[rs ws] db1].
    simpl in Hr. eexists; eexists. split; [reflexivity|]. simpl.
    repeat split. exact Hr.
Qed.

Lemma modality_top_k_threshold (w : World) (db : DB) (request : SearchRequest)
    (entry : string * ndarray) (h : hit) :
  In h (modality_top_k w db request entry) ->
  (threshold request <= hit_score h)%Q.
Proof.
  unfold modality_top_k. intros Hin.
  apply in_map_iff in Hin as [[f s] [<- Hin]].
  apply search_similar_In in Hin as [HT _]. exact HT.
Qed.

Lemma spec_merge_In (w : World) (db : DB) (request : SearchRequest)
    (qe : list (string * ndarray)) (h : hit) :
  In h (spec_merge w db request qe) ->
  exists entry, In entry qe /\ In h (modality_top_k w db request entry).
Proof.
  unfold spec_merge. intros Hin. apply firstn_In in Hin.
  apply (Permutation_in _ (sort_reverse_perm hit_score _)) in Hin.
  apply in_concat in Hin as [l [Hl Hh]].
  apply in_map_iff in Hl as [entry [<- He]]. now exists entry.
Qed.

(** C2 (as amended).  Once the query embeddings are computed, [search]
    returns the merge the specification describes: the concatenation of the
    per-modality top-k lists, sorted by the stable descending sort and cut
    to top-k.  Every returned item has a score at least the threshold, the
    list is descending (equal scores may follow one another), its length
    is at most top-k, and items of equal score keep the order they have in
    the concatenation. *)
Theorem C2_ranked_merge (w : World) (tracker : bool) (db : DB)
    (request : SearchRequest) (qe : list (string * ndarray)) :
  SimilarityCalculator.compute_query_embedding w (query request)
    (query_type request) (target_modalities request) = Ok qe ->
  exists resp db',
    search w tracker db request = (Ok resp, db')
    /\ results resp = map make_result (spec_merge w db request qe)
    /\ Forall (fun r => (threshold request <= similarity r)%Q) (results resp)
    /\ descending similarity (results resp)
    /\ length (results resp) <= top_k request
    /\ (forall q, exists rest,
           with_key hit_score q
             (concat (map (modality_top_k w db request) qe))
           = with_key hit_score q (spec_merge w db request qe) ++ rest).
Proof.
  intros Hqe.
  destruct (search_results w tracker db request qe Hqe)
    as (resp & db' & Hs & Hr & _).
  exists resp, db'. split; [exact Hs|]. split; [exact Hr|].
  rewrite Hr. split; [|split; [|split]].
  - apply List.Forall_forall. intros r Hin.
    apply in_map_iff in Hin as [h [<- Hh]].
    apply spec_merge_In in Hh as [entry [_ Hh]].
    apply modality_top_k_threshold in Hh. exact Hh.
  - apply (descending_map make_result similarity hit_score); [reflexivity|].
    unfold spec_merge. apply descending_firstn, sort_reverse_descending.
  - rewrite length_map. unfold spec_merge. apply firstn_le_length.
  - intros q. unfold spec_merge.
    destruct (with_key_firstn hit_score q (top_k request)
                (sort_reverse hit_score
                   (concat (map (modality_top_k w db request) qe)))) as [rest Hrest].
    exists rest. rewrite <- Hrest. symmetry. apply sort_reverse_stable.
Qed.

Lemma C2_ranked_merge_witness :
  exists resp db',
    search Sample.world true Sample.db_scanned Sample.text_request = (Ok resp, db')
    /\ map res_file_id (results resp) = [1; 3]
    /\ descending similarity (results resp).
Proof.
  destruct (C2_ranked_merge Sample.world true Sample.db_scanned Sample.text_request
              [("audio", [1; 0]%Q); ("video", [1; 0]%Q)] eq_refl)
    as (resp & db' & Hs & Hr & _ & Hd & _).
  exists resp, db'. split; [exact Hs|]. split; [|exact Hd].
  rewrite Hr. reflexivity.
Defined.

Lemma C2_counterexample :
  exists resp db',
    search Sample.world true Sample.db_scanned Sample.text_request = (Ok resp, db')
    /\ map similarity (results resp) = [1; 1]%Q
    /\ ~ strictly_descending similarity (results resp).
Proof.
  eexists; eexists. split; [reflexivity|]. split; [reflexivity|].
  intros H. inversion H as [|? ? _ Hall]; subst.
  inversion Hall as [|? ? Hlt _]; subst.
  revert Hlt. vm_compute. discriminate.
Qed.

End Ranking.

(** ** Soft-deleted files and search *)

Section DeletedInSearch.

Import SearchService.

Lemma join_file_embedding_In (db : DB) (f : File) (e : Embedding) :
  In (f, e) (EmbeddingCRUD.join_file_embedding db) ->
  FileCRUD.get db (file_id f) = Some f.
Proof.
  unfold EmbeddingCRUD.join_file_embedding. rewrite in_flat_map.
  intros [e' [_ Hin]].
  destruct (FileCRUD.get db (emb_file_id e')) as [f'|] eqn:Hg; [|contradiction].
  destruct Hin as [Heq|[]]. inversion Heq; subst.
  pose proof Hg as Hg'. unfold FileCRUD.get in Hg'.
  apply find_some in Hg' as [_ Hid]. apply Nat.eqb_eq in Hid.
  now rewrite Hid.
Qed.

Lemma search_similar_live (w : World) (db : DB) (q : ndarray)
    (modality : option string) (ids : option (list nat)) (k : nat) (T : Q)
    (f : File) (s : Q) :
  In (f, s) (EmbeddingCRUD.search_similar w db q modality ids k T true) ->
  FileCRUD.get db (file_id f) = Some f /\ is_deleted f = false.
Proof.
  intros Hin. apply search_similar_In in Hin as [_ [e [Hj Hc]]].
  split; [eapply join_file_embedding_In; exact Hj|].
  unfold EmbeddingCRUD.candidate in Hc.
  apply andb_prop in Hc as [_ Hc]. now apply negb_true_iff in Hc.
Qed.

Lemma spec_merge_live (w : World) (db : DB) (request : SearchRequest)
    (qe : list (string * ndarray)) (h : hit) :
  In h (spec_merge w db request qe) ->
  FileCRUD.get db (file_id (hit_file h)) = Some (hit_file h)
  /\ is_deleted (hit_file h) = false.
Proof.
  intros Hin. apply spec_merge_In in Hin as [entry [_ Hin]].
  unfold modality_top_k in Hin.
  apply in_map_iff in Hin as [[f s] [<- Hin]].
  apply search_similar_live in Hin. exact Hin.
Qed.

Lemma build_response_live (tracker : bool) (db : DB) (l : list hit) :
  (forall h, In h l -> is_deleted (hit_file h) = false) ->
  build_response tracker db l = (map make_result l, [], db).
Proof.
  induction l as [|h l IH]; intros Hl; simpl; [reflexivity|].
  rewrite (Hl h (or_introl eq_refl)), andb_false_r.
  rewrite IH by (intros h' Hh'; apply Hl; now right).
  reflexivity.
Qed.

(** C3.  A soft-deleted file whose embedding matches the query.  The
    scan that does not exclude deleted files finds it, and the response
    loop, given that hit, keeps it flagged as deleted and collects the
    warning of the deletion tracker.  [search] runs the scan with
    [exclude_deleted=True]: the file is not in the returned list, no
    warning is collected, and the file is not marked as notified. *)
Lemma C3_deleted_match_hidden :
  (exists f, FileCRUD.get Sample.db_deleted 1 = Some f
             /\ file_path f = "/media/a.mp3"
             /\ is_deleted f = true /\ deletion_notified f = false)
  /\ map (fun r => file_id (fst r))
         (EmbeddingCRUD.search_similar Sample.world Sample.db_deleted [1; 0]%Q
            (Some "audio") None 10 0 false) = [1]
  /\ map (fun r => (res_file_id r, res_is_deleted r))
         (fst (fst (build_response true Sample.db_deleted Sample.hits_with_deleted)))
     = [(1, true)]
  /\ snd (fst (build_response true Sample.db_deleted Sample.hits_with_deleted))
     = ["Warning: Matching file 'a.mp3' has been deleted from source. "
        +:+ "The file was originally located at: /media/a.mp3"]
  /\ exists resp,
       search Sample.world true Sample.db_deleted Sample.text_request
       = (Ok resp, Sample.db_deleted)
       /\ map res_file_id (results resp) = [3]
       /\ warnings resp = None.
Proof.
  split; [eexists; repeat split; reflexivity|].
  split; [reflexivity|]. split; [reflexivity|]. split; [reflexivity|].
  eexists. split; [reflexivity|]. split; reflexivity.
Qed.

End DeletedInSearch.

(** ** The per-file indexing procedure *)

Section PerFile.

Import IndexingService.

Lemma find_app {A : Type} (p : A -> bool) (l1 l2 : list A) :
  List.find p (l1 ++ l2)
  = match List.find p l1 with Some x => Some x | None => List.find p l2 end.
Proof.
  induction l1 as [|x l1 IH]; simpl; [reflexivity|].
  destruct (p x); [reflexivity | exact IH].
Qed.

Lemma find_filter {A : Type} (p q : A -> bool) (l : list A) :
  List.find p (List.filter q l) = List.find (fun x => q x && p x) l.
Proof.
  induction l as [|x l IH]; simpl; [reflexivity|].
  destruct (q x); simpl; [|exact IH].
  destruct (p x); [reflexivity | exact IH].
Qed.

(** The owning folder is the first row of [folders] that is active and
    whose path is a prefix of the file's path. *)
Lemma find_folder_id_first (db : DB) (path : string) :
  find_folder_id db path
  = option_map folder_id
      (List.find (fun folder => is_active folder
                                && Py.startswith path (folder_path folder))
                 (folders db)).
Proof.
  unfold find_folder_id, FolderCRUD.list_all. rewrite find_filter.
  now destruct (List.find _ (folders db)).
Qed.

Lemma create_get_by_path (db : DB) (folder : nat) (path fname : string)
    (m : option string) (size : option nat) (mime : option string) :
  FileCRUD.get_by_path db path = None ->
  FileCRUD.get_by_path (snd (FileCRUD.create db folder path fname m size mime)) path
  = Some (fst (FileCRUD.create db folder path fname m size mime)).
Proof.
  intros Hnone. unfold FileCRUD.get_by_path in *. simpl.
  rewrite find_app, Hnone. simpl. now rewrite String.eqb_refl.
Qed.

Lemma upsert_get_by_path (w : World) (db : DB) (now : Z) (file : File)
    (m : option string) (v : ndarray) (path : string) (f : File) :
  FileCRUD.get_by_path db path = Some f ->
  exists f', FileCRUD.get_by_path (upsert_embedding w db now file m v) path = Some f'
             /\ (f' = f \/ f' = set_indexed_at now f).
Proof.
  intros Hf. unfold upsert_embedding.
  destruct (EmbeddingCRUD.get_by_file db (file_id file)) as [|e es].
  - exists f. split; [exact Hf | now left].
  - unfold FileCRUD.update_indexed_at.
    destruct (FileCRUD.get _ (file_id file)).
    + rewrite (get_by_path_after_update
                 (with_embeddings db
                    (update_rows emb_file_id (file_id file)
                       (set_vector (serialize_array w v)) (embeddings db))))
        by reflexivity.
      change (FileCRUD.get_by_path (with_embeddings db _) path)
        with (FileCRUD.get_by_path db path).
      rewrite Hf. simpl.
      destruct (Nat.eqb (file_id f) (file_id file));
        eexists; (split; [reflexivity|]); [now right | now left].
    + exists f. split; [exact Hf | now left].
Qed.

(** C4 (as amended).  For a valid supported file without a File record,
    the scan-job procedure creates the record under the first active
    folder, in storage order, whose path is a prefix of the file's path,
    with the detected modality, the size and the mime type, and skips the
    file when no active folder matches.  The event-driven procedure never
    creates a record: it leaves the database as it is. *)
Theorem C4_owning_folder_resolution (w : World) (db : DB) (now : Z)
    (file_info : ScanInfo) :
  let path := scan_path file_info in
  FileProcessor.validate_file w path = true ->
  FileCRUD.get_by_path db path = None ->
  match List.find (fun folder => is_active folder
                                 && Py.startswith path (folder_path folder))
                  (folders db) with
  | Some folder =>
      exists f,
        FileCRUD.get_by_path (snd (_index_file w db now file_info)) path = Some f
        /\ file_folder_id f = folder_id folder
        /\ file_modality f = ModalityDetector.detect path
        /\ file_size f = Some (FileProcessor.fi_file_size
                                 (FileProcessor.get_file_info w path))
        /\ mime_type f = FileProcessor.get_mime_type w path
  | None => _index_file w db now file_info = (Ok tt, db)
  end
  /\ IndexingWorker._index_file w db path = (Ok tt, db)
  /\ forall folder,
       IndexingWorker._process_event w db
         {| action := "create"; ev_folder_id := folder; ev_path := path |} = db
       /\ IndexingWorker._process_event w db
            {| action := "modify"; ev_folder_id := folder; ev_path := path |} = db.
Proof.
  intros path Hv Hnone.
  assert (Hworker : IndexingWorker._index_file w db path = (Ok tt, db)).
  { unfold IndexingWorker._index_file. now rewrite Hv, Hnone. }
  split; [|split; [exact Hworker|]].
  - unfold _index_file, resolve_file. fold path. rewrite Hv, Hnone.
    rewrite find_folder_id_first. cbn [negb].
    destruct (List.find _ (folders db)) as [folder|]; cbn [option_map];
      [|reflexivity].
    pose proof (create_get_by_path db (folder_id folder) path
                  (FileProcessor.fi_filename (FileProcessor.get_file_info w path))
                  (FileProcessor.fi_modality (FileProcessor.get_file_info w path))
                  (Some (FileProcessor.fi_file_size (FileProcessor.get_file_info w path)))
                  (FileProcessor.get_mime_type w path) Hnone) as Hc.
    cbv zeta.
    destruct (FileCRUD.create db (folder_id folder) path _ _ _ _)
      as [file db1] eqn:Hcreated.
    assert (Hfile : file_folder_id file = folder_id folder
                    /\ file_modality file = ModalityDetector.detect path
                    /\ file_size file = Some (FileProcessor.fi_file_size
                                                (FileProcessor.get_file_info w path))
                    /\ mime_type file = FileProcessor.get_mime_type w path).
    { unfold FileCRUD.create in Hcreated. inversion Hcreated. repeat split. }
    cbn [fst snd] in Hc.
    destruct (EmbeddingGenerator.generate_embedding_for_file w path _)
      as [[v|]|msg]; cbn [snd].
    + destruct (upsert_get_by_path w db1 now file (scan_modality file_info) v path file Hc)
        as [f' [Hf' [->| ->]]].
      * exists file. split; [exact Hf' | exact Hfile].
      * exists (set_indexed_at now file). split; [exact Hf' | exact Hfile].
    + exists file. split; [exact Hc | exact Hfile].
    + exists file. split; [exact Hc | exact Hfile].
  - intros folder. unfold IndexingWorker._process_event. simpl.
    now rewrite Hworker.
Qed.

End PerFile.

Section PerFileExamples.

Import IndexingService.

Lemma C4_owning_folder_resolution_witness :
  exists f,
    FileCRUD.get_by_path
      (snd (_index_file Sample.world Sample.db_registered 7
              (Sample.scan_info "/media/c.mp4"))) "/media/c.mp4" = Some f
    /\ file_folder_id f = 1
    /\ file_modality f = Some "video"
    /\ file_size f = Some 30
    /\ mime_type f = Some "video/mp4".
Proof.
  exact (proj1 (C4_owning_folder_resolution Sample.world Sample.db_registered 7
                  (Sample.scan_info "/media/c.mp4") eq_refl eq_refl)).
Defined.

Lemma C4_counterexample :
  let path := "/media/c.mp4" in
  let event := {| action := "create"; ev_folder_id := 1; ev_path := path |} in
  FileProcessor.validate_file Sample.world path = true
  /\ FileCRUD.get_by_path Sample.db_registered path = None
  /\ find_folder_id Sample.db_registered path = Some 1
  /\ FileCRUD.get_by_path
       (IndexingWorker._process_event Sample.world Sample.db_registered event) path
     = None.
Proof. repeat split. Qed.

End PerFileExamples.

(** ** The embedding upsert *)

Section Upsert.

Import IndexingService.

Lemma map_update_rows {R B : Type} (key : R -> nat) (h : R -> B) (k : nat)
    (g : R -> R) (l : list R) :
  (forall r, h (g r) = h r) ->
  map h (update_rows key k g l) = map h l.
Proof.
  intros Hh. unfold update_rows. rewrite map_map. apply map_ext.
  intros r. destruct (Nat.eqb (key r) k); [apply Hh | reflexivity].
Qed.

Lemma filter_update_rows_length {R : Type} (key : R -> nat) (p : R -> bool)
    (k : nat) (g : R -> R) (l : list R) :
  (forall r, p (g r) = p r) ->
  length (List.filter p (update_rows key k g l)) = length (List.filter p l).
Proof.
  intros Hp. induction l as [|r l IH]; simpl; [reflexivity|].
  assert (E : p (if Nat.eqb (key r) k then g r else r) = p r)
    by (destruct (Nat.eqb (key r) k); [apply Hp | reflexivity]).
  rewrite E. destruct (p r); simpl; now rewrite IH.
Qed.

Lemma update_rows_In_key {R : Type} (key : R -> nat) (k : nat) (g : R -> R)
    (l : list R) (e : R) :
  (forall r, key (g r) = key r) ->
  In e (update_rows key k g l) -> key e = k ->
  exists r, In r l /\ e = g r.
Proof.
  intros Hk Hin He. unfold update_rows in Hin.
  apply in_map_iff in Hin as [r [Hr Hin]].
  destruct (Nat.eqb (key r) k) eqn:E.
  - exists r. now split.
  - subst e. apply Nat.eqb_neq in E. contradiction.
Qed.

Lemma update_rows_In_other {R : Type} (key : R -> nat) (k : nat) (g : R -> R)
    (l : list R) (e : R) :
  In e l -> key e <> k -> In e (update_rows key k g l).
Proof.
  intros Hin Hne. unfold update_rows. apply in_map_iff. exists e.
  apply Nat.eqb_neq in Hne. rewrite Hne. now split.
Qed.

Lemma get_by_path_get_some (db : DB) (path : string) (f : File) :
  FileCRUD.get_by_path db path = Some f ->
  exists g, FileCRUD.get db (file_id f) = Some g.
Proof.
  intros Hf. unfold FileCRUD.get_by_path in Hf.
  apply find_some in Hf as [Hin _].
  unfold FileCRUD.get.
  destruct (List.find _ (files db)) as [g|] eqn:Hg; [now exists g|].
  exfalso. apply (find_none _ _ Hg) in Hin. now rewrite Nat.eqb_refl in Hin.
Qed.

Lemma upsert_existing (w : World) (db : DB) (now : Z) (file : File)
    (m : option string) (v : ndarray) :
  EmbeddingCRUD.get_by_file db (file_id file) <> [] ->
  upsert_embedding w db now file m v
  = FileCRUD.update_indexed_at
      (with_embeddings db
         (update_rows emb_file_id (file_id file)
            (set_vector (serialize_array w v)) (embeddings db)))
      (file_id file) now.
Proof.
  intros Hne. unfold upsert_embedding.
  destruct (EmbeddingCRUD.get_by_file db (file_id file)); [contradiction|reflexivity].
Qed.

Lemma update_indexed_at_embeddings (db : DB) (id : nat) (now : Z) :
  embeddings (FileCRUD.update_indexed_at db id now) = embeddings db.
Proof.
  unfold FileCRUD.update_indexed_at. now destruct (FileCRUD.get db id).
Qed.

(** X2.  When the scan-job procedure indexes a file that already has
    embedding rows, no row is added or removed (the ids of the rows and
    the number of rows of every (file, type) pair are unchanged), every
    row of that file holds the payload of the vector just computed, the
    rows of other files are kept, and the file's indexed timestamp is the
    current clock reading. *)
Theorem scan_upsert_overwrites_in_place (w : World) (db : DB) (now : Z)
    (file_info : ScanInfo) (file : File) (v : ndarray) :
  FileProcessor.validate_file w (scan_path file_info) = true ->
  FileCRUD.get_by_path db (scan_path file_info) = Some file ->
  EmbeddingGenerator.generate_embedding_for_file w (scan_path file_info)
    (scan_modality file_info) = Ok (Some v) ->
  EmbeddingCRUD.get_by_file db (file_id file) <> [] ->
  let r := _index_file w db now file_info in
  fst r = Ok tt
  /\ map emb_id (embeddings (snd r)) = map emb_id (embeddings db)
  /\ (forall fid ty,
         length (EmbeddingCRUD.pair_rows (snd r) fid ty)
         = length (EmbeddingCRUD.pair_rows db fid ty))
  /\ (forall e, In e (embeddings (snd r)) -> emb_file_id e = file_id file ->
        vector e = Some (serialize_array w v))
  /\ (forall e, In e (embeddings db) -> emb_file_id e <> file_id file ->
        In e (embeddings (snd r)))
  /\ exists f', FileCRUD.get (snd r) (file_id file) = Some f'
                /\ indexed_at f' = Some now.
Proof.
  intros Hv Hf Hgen Hne r.
  assert (Hr : r = (Ok tt, upsert_embedding w db now file
                             (scan_modality file_info) v)).
  { unfold r, _index_file, resolve_file. now rewrite Hv, Hf, Hgen. }
  rewrite Hr, upsert_existing by exact Hne. cbn [fst snd].
  rewrite update_indexed_at_embeddings. cbn [embeddings with_embeddings].
  split; [reflexivity|]. split; [|split; [|split; [|split]]].
  - now apply map_update_rows.
  - intros fid ty. unfold EmbeddingCRUD.pair_rows.
    rewrite update_indexed_at_embeddings. cbn [embeddings with_embeddings].
    now apply filter_update_rows_length.
  - intros e Hin He.
    apply update_rows_In_key in Hin as [r0 [_ ->]]; [|reflexivity|exact He].
    reflexivity.
  - intros e Hin He. now apply update_rows_In_other.
  - destruct (get_by_path_get_some db _ file Hf) as [g Hg].
    exists (set_indexed_at now g). split; [|reflexivity].
    unfold FileCRUD.update_indexed_at.
    change (FileCRUD.get (with_embeddings db _) (file_id file))
      with (FileCRUD.get db (file_id file)).
    rewrite Hg.
    rewrite (get_after_update (with_embeddings db _)) by reflexivity.
    change (FileCRUD.get (with_embeddings db _) (file_id file))
      with (FileCRUD.get db (file_id file)).
    now rewrite Nat.eqb_refl, Hg.
Qed.

Lemma scan_upsert_overwrites_in_place_witness :
  let r := _index_file Sample.world_retuned Sample.db_scanned 9
             (Sample.scan_info "/media/a.mp3") in
  fst r = Ok tt
  /\ map emb_id (embeddings (snd r)) = [1; 2]
  /\ (forall e, In e (embeddings (snd r)) -> emb_file_id e = 1 ->
        vector e = Some (serialize_array Sample.world_retuned [0; 1]%Q))
  /\ exists f', FileCRUD.get (snd r) 1 = Some f' /\ indexed_at f' = Some 9%Z.
Proof.
  intros r.
  assert (Hf : exists file,
             FileCRUD.get_by_path Sample.db_scanned "/media/a.mp3" = Some file
             /\ file_id file = 1)
    by (eexists; split; reflexivity).
  destruct Hf as [file [Hf Hid]].
  assert (Hne : EmbeddingCRUD.get_by_file Sample.db_scanned (file_id file) <> [])
    by (rewrite Hid; discriminate).
  destruct (scan_upsert_overwrites_in_place Sample.world_retuned Sample.db_scanned 9
              (Sample.scan_info "/media/a.mp3") file [0; 1]%Q
              eq_refl Hf eq_refl Hne)
    as (H1 & H2 & _ & H4 & _ & H6).
  rewrite Hid in H4, H6.
  split; [exact H1|]. split; [exact H2|]. split; [exact H4 | exact H6].
Defined.

(** C9.  A modify event for an indexed file whose content changed.  The
    update branch of the event-driven procedure calls
    [embedding.SerializeToString()] on a numpy array and raises before
    anything is written; [_process_event] logs and drops, so the stored
    payload is still the old vector.  The scan-job procedure on the same
    file overwrites the payload of the existing row. *)
Lemma C9_event_upsert_raises :
  let event := {| action := "modify"; ev_folder_id := 1;
                  ev_path := "/media/a.mp3" |} in
  let after_event :=
    IndexingWorker._process_event Sample.world_retuned Sample.db_scanned event in
  let after_scan :=
    snd (_index_file Sample.world_retuned Sample.db_scanned 9
           (Sample.scan_info "/media/a.mp3")) in
  EmbeddingGenerator.generate_embedding_for_file Sample.world_retuned
    "/media/a.mp3" (Some "audio") = Ok (Some [0; 1]%Q)
  /\ map (fun e => (emb_id e, emb_file_id e)) (embeddings Sample.db_scanned)
     = [(1, 1); (2, 3)]
  /\ EmbeddingCRUD.get_vector Sample.world_retuned Sample.db_scanned 1
     = Some [1; 0]%Q
  /\ IndexingWorker._index_file Sample.world_retuned Sample.db_scanned
       "/media/a.mp3"
     = (Raise IndexingWorker.no_SerializeToString, Sample.db_scanned)
  /\ after_event = Sample.db_scanned
  /\ EmbeddingCRUD.get_vector Sample.world_retuned after_event 1 = Some [1; 0]%Q
  /\ map (fun e => (emb_id e, emb_file_id e)) (embeddings after_scan)
     = [(1, 1); (2, 3)]
  /\ EmbeddingCRUD.get_vector Sample.world_retuned after_scan 1 = Some [0; 1]%Q.
Proof. repeat split. Qed.

(** The update branch of the event-driven procedure calls a method a
    numpy array does not have: it raises before anything is written. *)
Lemma worker_update_branch_raises (w : World) (db : DB) (path : string)
    (file : File) (v : ndarray) :
  FileProcessor.validate_file w path = true ->
  FileCRUD.get_by_path db path = Some file ->
  EmbeddingGenerator.generate_embedding_for_file w path
    (ModalityDetector.detect path) = Ok (Some v) ->
  EmbeddingCRUD.get_by_file db (file_id file) <> [] ->
  IndexingWorker._index_file w db path
  = (Raise IndexingWorker.no_SerializeToString, db).
Proof.
  intros Hv Hf Hgen Hne. unfold IndexingWorker._index_file.
  rewrite Hv, Hf. cbn [negb FileProcessor.get_file_info FileProcessor.fi_modality].
  rewrite Hgen.
  destruct (EmbeddingCRUD.get_by_file db (file_id file)); [contradiction|reflexivity].
Qed.

Lemma resolve_file_embeddings (w : World) (db db1 : DB) (path : string) (file : File) :
  resolve_file w db path = Some (file, db1) -> embeddings db1 = embeddings db.
Proof.
  unfold resolve_file.
  destruct (FileCRUD.get_by_path db path).
  - intros H. now inversion H.
  - destruct (find_folder_id db path); [|discriminate].
    intros H. now inversion H.
Qed.

Lemma upsert_one_row_per_file (w : World) (db : DB) (now : Z) (file : File)
    (m : option string) (v : ndarray) :
  one_row_per_file db -> one_row_per_file (upsert_embedding w db now file m v).
Proof.
  intros Hinv fid. unfold upsert_embedding.
  destruct (EmbeddingCRUD.get_by_file db (file_id file)) as [|e es] eqn:Hrows.
  - unfold EmbeddingCRUD.get_by_file in *. simpl.
    rewrite List.filter_app, length_app. simpl.
    destruct (Nat.eqb (file_id file) fid) eqn:E; simpl.
    + apply Nat.eqb_eq in E. subst fid. rewrite Hrows. simpl. lia.
    + specialize (Hinv fid). unfold EmbeddingCRUD.get_by_file in Hinv. lia.
  - unfold EmbeddingCRUD.get_by_file.
    rewrite update_indexed_at_embeddings. cbn [embeddings with_embeddings].
    rewrite filter_update_rows_length by reflexivity.
    apply Hinv.
Qed.

(** The scan-job procedure keeps the table at one embedding row per file
    at most, whatever the file and whatever the provider answers. *)
Lemma index_file_one_row_per_file (w : World) (db : DB) (now : Z)
    (file_info : ScanInfo) :
  one_row_per_file db -> one_row_per_file (snd (_index_file w db now file_info)).
Proof.
  intros Hinv. unfold _index_file.
  destruct (negb _); [exact Hinv|].
  destruct (resolve_file w db (scan_path file_info)) as [[file db1]|] eqn:Hr;
    [|exact Hinv].
  apply resolve_file_embeddings in Hr.
  assert (Hinv1 : one_row_per_file db1).
  { intros fid. unfold EmbeddingCRUD.get_by_file. rewrite Hr. apply Hinv. }
  destruct (EmbeddingGenerator.generate_embedding_for_file _ _ _) as [[v|]|msg];
    cbn [snd]; [now apply upsert_one_row_per_file | exact Hinv1 | exact Hinv1].
Qed.

End Upsert.

(** ** Scan jobs and their counters *)

Section ScanJob.

Import IndexingService.

Lemma job_get_after_update (db : DB) (id : nat) (g : IndexingJob -> IndexingJob)
    (j : IndexingJob) :
  (forall r, job_id (g r) = job_id r) ->
  IndexingJobCRUD.get db id = Some j ->
  IndexingJobCRUD.get (with_jobs db (update_rows job_id id g (jobs db))) id
  = Some (g j).
Proof.
  intros Hk Hg. unfold IndexingJobCRUD.get in *. simpl.
  rewrite find_key_update_rows by exact Hk.
  now rewrite Nat.eqb_refl, Hg.
Qed.

Lemma get_update_status (db : DB) (id : nat) (st : string) (err : option string)
    (now : Z) (j : IndexingJob) :
  IndexingJobCRUD.get db id = Some j ->
  IndexingJobCRUD.get (IndexingJobCRUD.update_status db id st err now) id
  = Some (IndexingJobCRUD.set_status st err now j).
Proof.
  intros Hg. unfold IndexingJobCRUD.update_status. rewrite Hg.
  now apply job_get_after_update.
Qed.

Lemma get_increment_progress (db : DB) (id p f : nat) (j : IndexingJob) :
  IndexingJobCRUD.get db id = Some j ->
  IndexingJobCRUD.get (IndexingJobCRUD.increment_progress db id p f) id
  = Some (IndexingJobCRUD.add_progress p f j).
Proof.
  intros Hg. unfold IndexingJobCRUD.increment_progress. rewrite Hg.
  now apply job_get_after_update.
Qed.

Lemma get_set_total_files (db : DB) (id n : nat) (j : IndexingJob) :
  IndexingJobCRUD.get db id = Some j ->
  IndexingJobCRUD.get (IndexingJobCRUD.set_total_files db id n) id
  = Some (IndexingJobCRUD.put_total n j).
Proof.
  intros Hg. unfold IndexingJobCRUD.set_total_files. rewrite Hg.
  now apply job_get_after_update.
Qed.

Lemma update_status_folders (db : DB) (id : nat) (st : string)
    (err : option string) (now : Z) :
  folders (IndexingJobCRUD.update_status db id st err now) = folders db.
Proof.
  unfold IndexingJobCRUD.update_status. now destruct (IndexingJobCRUD.get db id).
Qed.

Lemma increment_progress_embeddings (db : DB) (id p f : nat) :
  embeddings (IndexingJobCRUD.increment_progress db id p f) = embeddings db.
Proof.
  unfold IndexingJobCRUD.increment_progress. now destruct (IndexingJobCRUD.get db id).
Qed.

Lemma upsert_jobs (w : World) (db : DB) (now : Z) (file : File)
    (m : option string) (v : ndarray) :
  jobs (upsert_embedding w db now file m v) = jobs db.
Proof.
  unfold upsert_embedding, FileCRUD.update_indexed_at.
  destruct (EmbeddingCRUD.get_by_file db (file_id file)); [reflexivity|].
  now destruct (FileCRUD.get _ _).
Qed.

Lemma resolve_file_jobs (w : World) (db db1 : DB) (path : string) (file : File) :
  resolve_file w db path = Some (file, db1) -> jobs db1 = jobs db.
Proof.
  unfold resolve_file.
  destruct (FileCRUD.get_by_path db path).
  - intros H. now inversion H.
  - destruct (find_folder_id db path); [|discriminate].
    intros H. now inversion H.
Qed.

Lemma index_file_jobs (w : World) (db : DB) (now : Z) (file_info : ScanInfo) :
  jobs (snd (_index_file w db now file_info)) = jobs db.
Proof.
  unfold _index_file.
  destruct (negb _); [reflexivity|].
  destruct (resolve_file w db (scan_path file_info)) as [[file db1]|] eqn:Hr;
    [|reflexivity].
  apply resolve_file_jobs in Hr.
  destruct (EmbeddingGenerator.generate_embedding_for_file _ _ _) as [[v|]|msg];
    cbn [snd]; [rewrite upsert_jobs|..]; exact Hr.
Qed.

Lemma index_file_get_job (w : World) (db : DB) (now : Z) (file_info : ScanInfo)
    (id : nat) :
  IndexingJobCRUD.get (snd (_index_file w db now file_info)) id
  = IndexingJobCRUD.get db id.
Proof. unfold IndexingJobCRUD.get. now rewrite index_file_jobs. Qed.

(** The generator raises only when loading the model raises. *)
Lemma generate_no_raise (w : World) (path : string) (m : option string) :
  model_load_error w = None ->
  exists o, EmbeddingGenerator.generate_embedding_for_file w path m = Ok o.
Proof.
  intros Hl. unfold EmbeddingGenerator.generate_embedding_for_file,
    EmbeddingGenerator.generate_audio_embedding,
    EmbeddingGenerator.generate_video_embedding.
  rewrite Hl.
  destruct m as [m|]; [|now eexists].
  destruct (String.eqb m "audio"); [destruct (negb _); now eexists|].
  destruct (String.eqb m "video"); [destruct (negb _); now eexists|].
  destruct (String.eqb m "audio_video"); [destruct (negb _); now eexists|].
  now eexists.
Qed.

Lemma index_file_no_raise (w : World) (db : DB) (now : Z) (file_info : ScanInfo) :
  model_load_error w = None ->
  fst (_index_file w db now file_info) = Ok tt.
Proof.
  intros Hl. unfold _index_file.
  destruct (negb _); [reflexivity|].
  destruct (resolve_file w db (scan_path file_info)) as [[file db1]|]; [|reflexivity].
  destruct (generate_no_raise w (scan_path file_info) (scan_modality file_info) Hl)
    as [o ->].
  now destruct o.
Qed.

(** One turn of the loop: the file counts as processed whatever
    [_index_file] did, and as failed exactly when it raised. *)
Lemma process_file_job (w : World) (now : Z) (id : nat) (db : DB)
    (file_info : ScanInfo) (j : IndexingJob) :
  IndexingJobCRUD.get db id = Some j ->
  IndexingJobCRUD.get (process_file w now id db file_info) id
  = Some (IndexingJobCRUD.add_progress 1
            (match fst (_index_file w db now file_info) with
             | Ok _ => 0
             | Raise _ => 1
             end) j).
Proof.
  intros Hg. unfold process_file.
  pose proof (index_file_get_job w db now file_info id) as Hj.
  destruct (_index_file w db now file_info) as [[u|msg] db1]; cbn [fst snd] in *;
    apply get_increment_progress; now rewrite Hj.
Qed.

Lemma process_files_job (w : World) (now : Z) (id : nat)
    (l : list ScanInfo) (db : DB) (j : IndexingJob) :
  IndexingJobCRUD.get db id = Some j ->
  exists j',
    IndexingJobCRUD.get (fold_left (process_file w now id) l db) id = Some j'
    /\ status j' = status j
    /\ total_files j' = total_files j
    /\ processed_files j' = processed_files j + length l
    /\ failed_files j <= failed_files j' <= failed_files j + length l
    /\ (model_load_error w = None -> failed_files j' = failed_files j).
Proof.
  revert db j. induction l as [|fi l IH]; intros db j Hg; simpl.
  - exists j. repeat split; try lia. exact Hg.
  - pose proof (process_file_job w now id db fi j Hg) as Hstep.
    destruct (IH _ _ Hstep) as (j' & Hg' & Hst & Htot & Hproc & Hfail & Hnone).
    exists j'. split; [exact Hg'|]. cbn in Hst, Htot, Hproc, Hfail, Hnone.
    split; [exact Hst|]. split; [exact Htot|]. split; [lia|].
    split.
    + destruct (fst (_index_file w db now fi)); lia.
    + intros Hl. rewrite (Hnone Hl).
      rewrite (index_file_no_raise w db now fi Hl). lia.
Qed.

Lemma update_last_indexed_get_job (now : Z) (id : nat) (l : list Folder) (db : DB) :
  IndexingJobCRUD.get
    (fold_left (fun d f => FolderCRUD.update_last_indexed d (folder_id f) now) l db) id
  = IndexingJobCRUD.get db id.
Proof.
  revert db. induction l as [|f l IH]; intros db; simpl; [reflexivity|].
  rewrite IH. unfold FolderCRUD.update_last_indexed.
  now destruct (FolderCRUD.get db (folder_id f)).
Qed.

Lemma folders_to_index_update_status (db : DB) (id : nat) (st : string)
    (err : option string) (now : Z) (folder : option nat) :
  folders_to_index (IndexingJobCRUD.update_status db id st err now) folder
  = folders_to_index db folder.
Proof.
  unfold folders_to_index, FolderCRUD.get, FolderCRUD.list_all.
  now rewrite update_status_folders.
Qed.

Lemma perform_indexing_job (w : World) (db : DB) (now : Z) (id : nat)
    (folder : option nat) (mode : string) (j : IndexingJob) :
  IndexingJobCRUD.get db id = Some j ->
  total_files j = 0 -> processed_files j = 0 -> failed_files j = 0 ->
  let n := length (collect_files w (folders_to_index db folder)) in
  exists j',
    IndexingJobCRUD.get (_perform_indexing w db now id folder mode) id = Some j'
    /\ status j' = "completed"
    /\ total_files j' = n
    /\ processed_files j' = n
    /\ failed_files j' <= n
    /\ (model_load_error w = None -> failed_files j' = 0).
Proof.
  intros Hg Ht Hp Hf n. unfold _perform_indexing.
  rewrite folders_to_index_update_status.
  pose proof (get_update_status db id "running" None now j Hg) as H1.
  set (db1 := IndexingJobCRUD.update_status db id "running" None now) in *.
  unfold n. clear n.
  destruct (folders_to_index db folder) as [|f fs] eqn:Hfs.
  - pose proof (get_update_status db1 id "completed" None now _ H1) as H2.
    eexists. split; [exact H2|]. cbn. repeat split; try lia; assumption.
  - set (all_files := collect_files w (f :: fs)).
    pose proof (get_set_total_files db1 id (length all_files) _ H1) as H2.
    destruct (process_files_job w now id all_files _ _ H2)
      as (j3 & H3 & Hst & Htot & Hproc & Hfail & Hnone).
    cbn in Hst, Htot, Hproc, Hfail, Hnone.
    pose proof (update_last_indexed_get_job now id (f :: fs)
                  (fold_left (process_file w now id) all_files
                     (IndexingJobCRUD.set_total_files db1 id (length all_files))))
      as H4.
    rewrite H3 in H4.
    pose proof (get_update_status _ id "completed" None now _ H4) as H5.
    eexists. split; [exact H5|]. cbn.
    split; [reflexivity|]. split; [exact Htot|]. split; [lia|]. split; [lia|].
    intros Hl. rewrite (Hnone Hl). exact Hf.
Qed.

Lemma create_job_get (db : DB) (jtype : string) (folder : option nat) :
  let created := IndexingJobCRUD.create db jtype folder in
  IndexingJobCRUD.get (snd created) (job_id (fst created)) = Some (fst created).
Proof.
  simpl. unfold IndexingJobCRUD.get. simpl. rewrite find_app.
  destruct (List.find _ (jobs db)) as [x|] eqn:Hx.
  - apply find_some in Hx as [Hin Heq]. apply Nat.eqb_eq in Heq.
    exfalso. exact (next_id_fresh job_id (jobs db) x Hin Heq).
  - simpl. now rewrite Nat.eqb_refl.
Qed.

(** C1 (as amended).  A scan job started by [index_folder] ends
    [completed] with [total_files] and [processed_files] both equal to the
    number of candidate files, and with [failed_files = 0] when loading the
    model does not raise.  A candidate for which the Embedding Provider
    returns no vector is skipped (no embedding row is written) and is
    counted as processed, not as failed. *)
Theorem C1_provider_skip_counts_as_processed (w : World) (db : DB) (now : Z)
    (folder : option nat) (mode : string) :
  let job := fst (index_folder w db now folder mode) in
  let db' := snd (index_folder w db now folder mode) in
  let n := length (collect_files w (folders_to_index db folder)) in
  (exists j,
      IndexingJobCRUD.get db' job = Some j
      /\ status j = "completed"
      /\ total_files j = n
      /\ processed_files j = n
      /\ (model_load_error w = None -> failed_files j = 0))
  /\ (forall d file_info j,
         EmbeddingGenerator.generate_embedding_for_file w (scan_path file_info)
           (scan_modality file_info) = Ok None ->
         IndexingJobCRUD.get d job = Some j ->
         let d' := process_file w now job d file_info in
         embeddings d' = embeddings d
         /\ exists j',
              IndexingJobCRUD.get d' job = Some j'
              /\ processed_files j' = processed_files j + 1
              /\ failed_files j' = failed_files j).
Proof.
  intros job db' n. split.
  - unfold job, db', index_folder.
    pose proof (create_job_get db
                  (if String.eqb mode "full" then "full_scan" else "incremental")
                  folder) as Hc.
    destruct (IndexingJobCRUD.create db _ folder) as [j0 db1] eqn:Hcreate.
    cbn [fst snd] in *.
    assert (Hfresh : total_files j0 = 0 /\ processed_files j0 = 0
                     /\ failed_files j0 = 0 /\ folders db1 = folders db).
    { unfold IndexingJobCRUD.create in Hcreate. inversion Hcreate. repeat split. }
    destruct Hfresh as (Ht & Hp & Hf & Hfo).
    destruct (perform_indexing_job w db1 now (job_id j0) folder mode j0 Hc Ht Hp Hf)
      as (j & Hg & Hst & Htot & Hproc & _ & Hnone).
    assert (Hsame : folders_to_index db1 folder = folders_to_index db folder).
    { unfold folders_to_index, FolderCRUD.get, FolderCRUD.list_all. now rewrite Hfo. }
    rewrite Hsame in Htot, Hproc.
    exists j. repeat split; assumption.
  - intros d fi j Hgen Hg d'.
    assert (Hidx : _index_file w d now fi = (Ok tt, snd (_index_file w d now fi))
                   /\ embeddings (snd (_index_file w d now fi)) = embeddings d).
    { unfold _index_file. destruct (negb _); [now split|].
      destruct (resolve_file w d (scan_path fi)) as [[file d1]|] eqn:Hr; [|now split].
      rewrite Hgen. cbn [snd]. split; [reflexivity|].
      unfold resolve_file in Hr.
      destruct (FileCRUD.get_by_path d (scan_path fi)); [now inversion Hr|].
      destruct (find_folder_id d (scan_path fi)); [|discriminate].
      now inversion Hr. }
    destruct Hidx as [Hok Hemb].
    pose proof (process_file_job w now job d fi j Hg) as Hstep.
    fold d' in Hstep. rewrite Hok in Hstep. cbn [fst] in Hstep.
    split.
    + unfold d', process_file. rewrite Hok.
      now rewrite increment_progress_embeddings.
    + eexists. split; [exact Hstep|]. cbn. split; lia.
Qed.

(** On the sample folder: the job of the full scan, and one more turn of
    the loop on the file the model has no embedding for. *)
Lemma C1_provider_skip_counts_as_processed_witness :
  (exists j,
      IndexingJobCRUD.get Sample.db_scanned 1 = Some j
      /\ status j = "completed"
      /\ total_files j = 3 /\ processed_files j = 3 /\ failed_files j = 0)
  /\ embeddings (process_file Sample.world 8 1 Sample.db_scanned
                   (Sample.scan_info "/media/b.mp3"))
     = embeddings Sample.db_scanned.
Proof.
  destruct (C1_provider_skip_counts_as_processed Sample.world Sample.db_registered
              7 (Some 1) "full") as [(j & Hg & Hs & Ht & Hp & Hf) Hstep].
  split.
  - exists j. split; [exact Hg|]. split; [exact Hs|]. split; [exact Ht|].
    split; [exact Hp | exact (Hf eq_refl)].
  - assert (Hj : exists j1, IndexingJobCRUD.get Sample.db_scanned 1 = Some j1)
      by (eexists; reflexivity).
    destruct Hj as [j1 Hj1].
    exact (proj1 (Hstep Sample.db_scanned (Sample.scan_info "/media/b.mp3") j1
                    eq_refl Hj1)).
Defined.

(** Three candidate files, no vector for exactly one of them: the job
    counts three processed files and no failed one. *)
Lemma C1_counterexample :
  map scan_path (collect_files Sample.world
                   (folders_to_index Sample.db_registered (Some 1)))
  = ["/media/a.mp3"; "/media/b.mp3"; "/media/c.mp4"]
  /\ EmbeddingGenerator.generate_embedding_for_file Sample.world
       "/media/a.mp3" (Some "audio") = Ok (Some [1; 0]%Q)
  /\ EmbeddingGenerator.generate_embedding_for_file Sample.world
       "/media/b.mp3" (Some "audio") = Ok None
  /\ EmbeddingGenerator.generate_embedding_for_file Sample.world
       "/media/c.mp4" (Some "video") = Ok (Some [1; 2]%Q)
  /\ exists j,
       IndexingJobCRUD.get Sample.db_scanned (fst Sample.scanned) = Some j
       /\ status j = "completed"
       /\ total_files j = 3
       /\ processed_files j = 3
       /\ failed_files j = 0
       /\ ~ (processed_files j = 2 /\ failed_files j = 1).
Proof.
  repeat split. eexists. repeat split. simpl. intros [H _]. discriminate H.
Qed.

End ScanJob.

(** ** The debouncer over sequences of calls *)

Section DebouncerRuns.

Import MultimodalEventHandler.

Lemma should_process_view (h : t) (now : Q) (path : string) :
  cooldown_seconds (snd (_should_process h now path)) = cooldown_seconds h
  /\ handler_folder_id (snd (_should_process h now path)) = handler_folder_id h
  /\ queue (snd (_should_process h now path)) = queue h
  /\ last_event_time (snd (_should_process h now path))
     = if fst (_should_process h now path)
       then <[path := now]> (last_event_time h)
       else last_event_time h.
Proof.
  rewrite should_process_spec. destruct (_ && _); repeat split.
Qed.

Lemma should_process_queue_event (h : t) (act q : string) (now : Q) (path : string) :
  fst (_should_process (_queue_event h act q) now path) = fst (_should_process h now path)
  /\ last_event_time (snd (_should_process (_queue_event h act q) now path))
     = last_event_time (snd (_should_process h now path)).
Proof.
  rewrite !should_process_spec. unfold elapsed. cbn [_queue_event last_event_time cooldown_seconds].
  destruct (_ && _); split; reflexivity.
Qed.

(** Every call appends to the queue what [forwarded_by] lists, and
    changes neither the folder id nor the cooldown. *)
Lemma dispatch_queue (h : t) (c : call) :
  queue (dispatch h c) = queue h ++ map (event_of h) (forwarded_by h c)
  /\ handler_folder_id (dispatch h c) = handler_folder_id h
  /\ cooldown_seconds (dispatch h c) = cooldown_seconds h.
Proof.
  destruct c as [now ev|now ev|ev|n1 n2 ev]; cbn [dispatch forwarded_by].
  - unfold on_created, checked. destruct (is_directory ev).
    + now rewrite app_nil_r.
    + destruct (should_process_view h now (src_path ev)) as (Hc & Hf & Hq & _).
      destruct (_should_process h now (src_path ev)) as [[|] h1]; cbn in *.
      * unfold event_of, queued. cbn. now rewrite Hq, Hf, Hc.
      * now rewrite app_nil_r, Hq, Hf, Hc.
  - unfold on_modified, checked. destruct (is_directory ev).
    + now rewrite app_nil_r.
    + destruct (should_process_view h now (src_path ev)) as (Hc & Hf & Hq & _).
      destruct (_should_process h now (src_path ev)) as [[|] h1]; cbn in *.
      * unfold event_of, queued. cbn. now rewrite Hq, Hf, Hc.
      * now rewrite app_nil_r, Hq, Hf, Hc.
  - unfold on_deleted. destruct (is_directory ev).
    + now rewrite app_nil_r.
    + repeat split.
  - unfold on_moved, checked. destruct (is_directory ev).
    + now rewrite app_nil_r.
    + destruct (should_process_view h n1 (src_path ev)) as (Hc & Hf & Hq & _).
      destruct (should_process_queue_event (snd (_should_process h n1 (src_path ev)))
                  "delete" (src_path ev) n2 (dest_path ev)) as [Hfst _].
      destruct (_should_process h n1 (src_path ev)) as [[|] h1]; cbn [fst snd] in *.
      * destruct (should_process_view (_queue_event h1 "delete" (src_path ev)) n2
                    (dest_path ev)) as (Hc2 & Hf2 & Hq2 & _).
        rewrite <- Hfst.
        destruct (_should_process (_queue_event h1 "delete" (src_path ev)) n2
                    (dest_path ev)) as [[|] h3]; cbn [fst snd] in *.
        -- unfold event_of, queued. cbn.
           rewrite Hq2, Hf2, Hc2. cbn. rewrite Hq, Hf, Hc.
           now rewrite <- app_assoc.
        -- rewrite Hq2, Hf2, Hc2. cbn. rewrite Hq, Hf, Hc. repeat split.
      * destruct (should_process_view h1 n2 (dest_path ev)) as (Hc2 & Hf2 & Hq2 & _).
        destruct (_should_process h1 n2 (dest_path ev)) as [[|] h3]; cbn [fst snd] in *.
        -- unfold event_of, queued. cbn. now rewrite Hq2, Hf2, Hc2, Hq, Hf, Hc.
        -- now rewrite app_nil_r, Hq2, Hf2, Hc2, Hq, Hf, Hc.
Qed.

Lemma should_process_true_supported (h : t) (now : Q) (path : string) :
  fst (_should_process h now path) = true ->
  ModalityDetector.is_supported path = true
  /\ (cooldown_seconds h <= elapsed h now path)%Q.
Proof.
  rewrite should_process_spec.
  destruct (ModalityDetector.is_supported path); cbn; [|discriminate].
  destruct (Qle_bool _ _) eqn:E; cbn; [|discriminate].
  intros _. split; [reflexivity | now apply Qle_bool_iff].
Qed.

Lemma checked_entries (h : t) (now : Q) (act path : string) (x : forwarded) :
  In x (checked h now act path) ->
  x = {| fwd_time := Some now; fwd_action := act; fwd_path := path |}
  /\ ModalityDetector.is_supported path = true
  /\ (cooldown_seconds h <= elapsed h now path)%Q.
Proof.
  unfold checked. destruct (fst (_should_process h now path)) eqn:E; [|contradiction].
  intros [<-|[]]. split; [reflexivity|]. now apply should_process_true_supported.
Qed.

Lemma forwarded_by_entries (h : t) (c : call) (x : forwarded) :
  In x (forwarded_by h c) ->
  In (fwd_action x) ["create"; "modify"; "delete"]
  /\ In (fwd_path x) (call_paths c)
  /\ (fwd_action x <> "delete" -> ModalityDetector.is_supported (fwd_path x) = true)
  /\ (fwd_time x <> None -> ModalityDetector.is_supported (fwd_path x) = true).
Proof.
  destruct c as [now ev|now ev|ev|n1 n2 ev]; cbn [forwarded_by call_paths];
    destruct (is_directory ev); try contradiction.
  - intros Hin. apply checked_entries in Hin as (-> & Hs & _). cbn.
    repeat split; auto.
  - intros Hin. apply checked_entries in Hin as (-> & Hs & _). cbn.
    repeat split; auto.
  - intros [<-|[]]. cbn. repeat split; auto; intros H; now contradiction H.
  - intros Hin. apply in_app_or in Hin as [Hin|Hin];
      apply checked_entries in Hin as (-> & Hs & _); cbn; repeat split; auto.
Qed.

(** X3.  The queue after any sequence of calls is the queue before it
    followed by the events of the trace, in order; folder id and cooldown
    stay; every event is a create, modify or delete event, and every event
    other than a plain delete is for a supported path. *)
Theorem run_queue_is_trace (h : t) (calls : list call) :
  queue (run h calls) = queue h ++ map (event_of h) (trace h calls)
  /\ handler_folder_id (run h calls) = handler_folder_id h
  /\ cooldown_seconds (run h calls) = cooldown_seconds h
  /\ Forall (fun x => In (fwd_action x) ["create"; "modify"; "delete"]
                      /\ (fwd_time x <> None ->
                          ModalityDetector.is_supported (fwd_path x) = true)
                      /\ (fwd_action x <> "delete" ->
                          ModalityDetector.is_supported (fwd_path x) = true))
            (trace h calls).
Proof.
  revert h. induction calls as [|c calls IH]; intros h; cbn [run fold_left trace].
  - rewrite app_nil_r. repeat split. constructor.
  - destruct (dispatch_queue h c) as (Hq & Hf & Hc).
    destruct (IH (dispatch h c)) as (IHq & IHf & IHc & IHall).
    unfold run in *. rewrite IHq, IHf, IHc, Hq, Hf, Hc.
    split; [|split; [reflexivity|split; [reflexivity|]]].
    + rewrite map_app, <- app_assoc. do 2 f_equal.
      apply map_ext. intros x. unfold event_of, queued. now rewrite Hf.
    + apply Forall_app. split; [|exact IHall].
      apply List.Forall_forall. intros x Hin.
      apply forwarded_by_entries in Hin as (Ha & _ & Hs & Ht). auto.
Qed.

Lemma FOP_snoc {A : Type} (R : A -> A -> Prop) (l : list A) (x : A) :
  ForallOrdPairs R l -> List.Forall (fun y => R y x) l ->
  ForallOrdPairs R (l ++ [x]).
Proof.
  induction 1 as [|a l Ha Hl IH]; intros Hall; cbn.
  - constructor; constructor.
  - inversion Hall as [|? ? Hax Hrest]; subst.
    constructor; [|now apply IH].
    apply Forall_app. split; [exact Ha | now constructor].
Qed.

(** One cooldown check: what it adds to the trace keeps the trace spaced
    and covered by the map. *)
Lemma checked_step (h : t) (now : Q) (act path : string) (pre : list forwarded) :
  (0 <= cooldown_seconds h)%Q ->
  entries_cover (last_event_time h) pre ->
  ForallOrdPairs (spaced (cooldown_seconds h)) pre ->
  entries_cover (last_event_time (snd (_should_process h now path)))
    (pre ++ checked h now act path)
  /\ ForallOrdPairs (spaced (cooldown_seconds h)) (pre ++ checked h now act path).
Proof.
  intros Hcd Hcov Hfop.
  destruct (should_process_view h now path) as (_ & _ & _ & Hm).
  rewrite Hm. unfold checked.
  destruct (fst (_should_process h now path)) eqn:Hok.
  - apply should_process_true_supported in Hok as [_ Hel]. unfold elapsed in Hel.
    assert (Hold : forall x t, In x pre -> fwd_time x = Some t ->
                     fwd_path x = path -> (cooldown_seconds h <= now - t)%Q).
    { intros x t Hin Ht Hp. destruct (Hcov x t Hin Ht) as (t' & Hl & Hle).
      rewrite Hp in Hl. rewrite Hl in Hel. cbn in Hel. lra. }
    split.
    + intros x t Hin Ht. apply in_app_or in Hin as [Hin|[<-|[]]].
      * destruct (decide (path = fwd_path x)) as [Heq|Hne].
        -- rewrite <- Heq, lookup_insert_eq. exists now. split; [reflexivity|].
           specialize (Hold x t Hin Ht (eq_sym Heq)). lra.
        -- rewrite lookup_insert_ne by exact Hne. now apply Hcov.
      * cbn in *. inversion Ht; subst. rewrite lookup_insert_eq.
        exists t. split; [reflexivity | apply Qle_refl].
    + apply FOP_snoc; [exact Hfop|].
      apply List.Forall_forall. intros x Hin. unfold spaced. cbn.
      destruct (fwd_time x) as [t|] eqn:Ht; [|exact I].
      intros Hp. now apply (Hold x t).
  - rewrite app_nil_r. now split.
Qed.

Lemma dispatch_step (h : t) (c : call) (pre : list forwarded) :
  (0 <= cooldown_seconds h)%Q ->
  entries_cover (last_event_time h) pre ->
  ForallOrdPairs (spaced (cooldown_seconds h)) pre ->
  entries_cover (last_event_time (dispatch h c)) (pre ++ forwarded_by h c)
  /\ ForallOrdPairs (spaced (cooldown_seconds h)) (pre ++ forwarded_by h c).
Proof.
  intros Hcd Hcov Hfop.
  destruct c as [now ev|now ev|ev|n1 n2 ev]; cbn [dispatch forwarded_by].
  - unfold on_created. destruct (is_directory ev); [rewrite app_nil_r; now split|].
    destruct (checked_step h now "create" (src_path ev) pre Hcd Hcov Hfop) as [H1 H2].
    destruct (_should_process h now (src_path ev)) as [[|] h1]; now split.
  - unfold on_modified. destruct (is_directory ev); [rewrite app_nil_r; now split|].
    destruct (checked_step h now "modify" (src_path ev) pre Hcd Hcov Hfop) as [H1 H2].
    destruct (_should_process h now (src_path ev)) as [[|] h1]; now split.
  - unfold on_deleted. destruct (is_directory ev); [rewrite app_nil_r; now split|].
    cbn [_queue_event last_event_time]. split.
    + intros x t Hin Ht. apply in_app_or in Hin as [Hin|[<-|[]]].
      * now apply Hcov.
      * discriminate Ht.
    + apply FOP_snoc; [exact Hfop|]. apply List.Forall_forall. intros x _.
      unfold spaced. cbn. now destruct (fwd_time x).
  - unfold on_moved. destruct (is_directory ev); [rewrite app_nil_r; now split|].
    destruct (checked_step h n1 "delete" (src_path ev) pre Hcd Hcov Hfop) as [H1 H2].
    destruct (should_process_view h n1 (src_path ev)) as (Hc & _).
    set (h1 := snd (_should_process h n1 (src_path ev))) in *.
    assert (Hcd1 : (0 <= cooldown_seconds h1)%Q) by now rewrite Hc.
    rewrite <- Hc in H2.
    destruct (checked_step h1 n2 "create" (dest_path ev) _ Hcd1 H1 H2) as [H3 H4].
    rewrite Hc in H4. rewrite <- app_assoc in H3, H4.
    split; [|exact H4].
    destruct (should_process_queue_event h1 "delete" (src_path ev) n2 (dest_path ev))
      as [_ Hmap].
    unfold h1 in *.
    destruct (_should_process h n1 (src_path ev)) as [[|] h1']; cbn [fst snd] in *.
    + destruct (_should_process (_queue_event h1' "delete" (src_path ev)) n2
                  (dest_path ev)) as [[|] h3] eqn:E; cbn [snd] in Hmap;
        cbn [_queue_event last_event_time]; now rewrite Hmap.
    + destruct (_should_process h1' n2 (dest_path ev)) as [[|] h3]; exact H3.
Qed.

(** X4.  Whatever the calls and the clock readings, two events that
    passed the cooldown check for the same path lie at least one cooldown
    window apart. *)
Theorem forwarded_events_spaced (h : t) (calls : list call) :
  (0 <= cooldown_seconds h)%Q ->
  ForallOrdPairs (spaced (cooldown_seconds h)) (trace h calls).
Proof.
  intros Hcd.
  assert (H : forall calls h pre,
             (0 <= cooldown_seconds h)%Q ->
             entries_cover (last_event_time h) pre ->
             ForallOrdPairs (spaced (cooldown_seconds h)) pre ->
             ForallOrdPairs (spaced (cooldown_seconds h)) (pre ++ trace h calls)).
  { clear. induction calls as [|c calls IH]; intros h pre Hcd Hcov Hfop; cbn [trace].
    - now rewrite app_nil_r.
    - destruct (dispatch_step h c pre Hcd Hcov Hfop) as [H1 H2].
      destruct (dispatch_queue h c) as (_ & _ & Hc).
      rewrite app_assoc. rewrite <- Hc. apply IH; rewrite ?Hc; assumption. }
  apply (H calls h []); [exact Hcd | intros x t [] | constructor].
Qed.

Lemma should_process_lookup_other (h : t) (now : Q) (path p : string) :
  path <> p ->
  last_event_time (snd (_should_process h now path)) !! p = last_event_time h !! p.
Proof.
  intros Hne. destruct (should_process_view h now path) as (_ & _ & _ & Hm).
  rewrite Hm. destruct (fst _); [now rewrite lookup_insert_ne | reflexivity].
Qed.

Lemma dispatch_lookup_other (h : t) (c : call) (p : string) :
  ~ In p (call_paths c) ->
  last_event_time (dispatch h c) !! p = last_event_time h !! p.
Proof.
  destruct c as [now ev|now ev|ev|n1 n2 ev]; cbn [dispatch call_paths]; intros Hni.
  - unfold on_created. destruct (is_directory ev); [reflexivity|].
    pose proof (should_process_lookup_other h now (src_path ev) p) as H.
    destruct (_should_process h now (src_path ev)) as [[|] h1]; cbn in *;
      apply H; intros E; apply Hni; now left.
  - unfold on_modified. destruct (is_directory ev); [reflexivity|].
    pose proof (should_process_lookup_other h now (src_path ev) p) as H.
    destruct (_should_process h now (src_path ev)) as [[|] h1]; cbn in *;
      apply H; intros E; apply Hni; now left.
  - unfold on_deleted. now destruct (is_directory ev).
  - unfold on_moved. destruct (is_directory ev); [reflexivity|].
    assert (Hs : src_path ev <> p) by (intros E; apply Hni; now left).
    assert (Hd : dest_path ev <> p) by (intros E; apply Hni; right; now left).
    pose proof (should_process_lookup_other h n1 (src_path ev) p Hs) as H1.
    destruct (_should_process h n1 (src_path ev)) as [[|] h1]; cbn [snd] in H1.
    + pose proof (should_process_lookup_other
                    (_queue_event h1 "delete" (src_path ev)) n2 (dest_path ev) p Hd) as H2.
      destruct (_should_process (_queue_event h1 "delete" (src_path ev)) n2
                  (dest_path ev)) as [[|] h3]; cbn in *; now rewrite H2.
    + pose proof (should_process_lookup_other h1 n2 (dest_path ev) p Hd) as H2.
      destruct (_should_process h1 n2 (dest_path ev)) as [[|] h3]; cbn in *;
        now rewrite H2.
Qed.

(** X5.  The cooldown is kept per path: a call about other paths changes
    neither the entry of [p] nor what [_should_process] decides for [p]. *)
Theorem other_paths_do_not_interfere (h : t) (c : call) (now : Q) (p : string) :
  ~ In p (call_paths c) ->
  last_event_time (dispatch h c) !! p = last_event_time h !! p
  /\ fst (_should_process (dispatch h c) now p) = fst (_should_process h now p).
Proof.
  intros Hni. pose proof (dispatch_lookup_other h c p Hni) as Hl.
  split; [exact Hl|].
  destruct (dispatch_queue h c) as (_ & _ & Hc).
  rewrite !should_process_spec. unfold elapsed. rewrite Hl, Hc.
  now destruct (_ && _).
Qed.

End DebouncerRuns.


(** ** The schema constraints as an invariant *)

Section Consistency.

Lemma map_fst_keys {A B C : Type} (k : A -> B * C) (f : A -> B) (l : list A) :
  (forall x, fst (k x) = f x) -> map f l = map fst (map k l).
Proof. intros H. rewrite map_map. apply map_ext. intros x. now rewrite H. Qed.

Lemma filter_length_map {A B : Type} (k : A -> B) (p : A -> bool) (q : B -> bool)
    (l : list A) :
  (forall x, p x = q (k x)) ->
  length (List.filter p l) = length (List.filter q (map k l)).
Proof.
  intros H. induction l as [|x l IH]; cbn; [reflexivity|].
  rewrite <- H. destruct (p x); cbn; now rewrite IH.
Qed.

Lemma In_map_keys {A B : Type} (k : A -> B) (l l' : list A) (x : A) :
  map k l = map k l' -> In x l -> exists y, In y l' /\ k y = k x.
Proof.
  intros Hm Hin. apply (in_map k) in Hin. rewrite Hm in Hin.
  apply in_map_iff in Hin as [y [Hy Hin]]. now exists y.
Qed.

(** The constraints speak of the keys only. *)
Lemma consistent_shape (db db' : DB) :
  shape db' = shape db -> consistent db -> consistent db'.
Proof.
  unfold shape. intros Hs. injection Hs as Hfo Hfi Hem Hjo.
  assert (E1 : map folder_id (folders db') = map folder_id (folders db)).
  { rewrite !(map_fst_keys folder_keys folder_id) by reflexivity. now rewrite Hfo. }
  assert (E2 : map folder_path (folders db') = map folder_path (folders db)).
  { transitivity (map snd (map folder_keys (folders db'))).
    - rewrite map_map. now apply map_ext.
    - rewrite Hfo, map_map. now apply map_ext. }
  assert (E3 : map file_id (files db') = map file_id (files db)).
  { transitivity (map (fun k => fst (fst k)) (map file_keys (files db'))).
    - rewrite map_map. now apply map_ext.
    - rewrite Hfi, map_map. now apply map_ext. }
  assert (E4 : map file_path (files db') = map file_path (files db)).
  { transitivity (map (fun k => snd (fst k)) (map file_keys (files db'))).
    - rewrite map_map. now apply map_ext.
    - rewrite Hfi, map_map. now apply map_ext. }
  assert (E5 : map emb_id (embeddings db') = map emb_id (embeddings db)).
  { rewrite !(map_fst_keys emb_keys emb_id) by reflexivity. now rewrite Hem. }
  intros ((U1 & U2 & U3 & U4 & U5 & U6) & (R1 & R2) & Hone).
  split; [|split].
  - unfold unique_keys. now rewrite E1, E2, E3, E4, E5, Hjo.
  - split.
    + intros f Hin. rewrite E1.
      destruct (In_map_keys file_keys _ _ f Hfi Hin) as (g & Hg & Hk).
      injection Hk as _ _ Hfid. rewrite <- Hfid. now apply R1.
    + intros e Hin. rewrite E3.
      destruct (In_map_keys emb_keys _ _ e Hem Hin) as (g & Hg & Hk).
      injection Hk as _ Hfid. rewrite <- Hfid. now apply R2.
  - intros fid. unfold EmbeddingCRUD.get_by_file.
    rewrite (filter_length_map emb_keys _ (fun k => Nat.eqb (snd k) fid)) by reflexivity.
    rewrite Hem.
    rewrite <- (filter_length_map emb_keys (fun e => Nat.eqb (emb_file_id e) fid))
      by reflexivity.
    apply Hone.
Qed.

Lemma update_files_shape (db : DB) (k : nat) (g : File -> File) :
  (forall r, file_keys (g r) = file_keys r) ->
  shape (with_files db (update_rows file_id k g (files db))) = shape db.
Proof.
  intros Hg. unfold shape. cbn. now rewrite map_update_rows.
Qed.

Lemma mark_deleted_shape (db : DB) (path : string) :
  shape (snd (FileCRUD.mark_deleted db path)) = shape db.
Proof.
  unfold FileCRUD.mark_deleted. destruct (FileCRUD.get_by_path db path); [|reflexivity].
  now apply update_files_shape.
Qed.

Lemma notify_shape (db : DB) (id : nat) :
  shape (snd (DeletionTracker.notify_if_deleted db id)) = shape db.
Proof.
  unfold DeletionTracker.notify_if_deleted, FileCRUD.mark_deletion_notified.
  destruct (FileCRUD.get db id) as [f|]; [|reflexivity].
  destruct (is_deleted f && negb (deletion_notified f)); [|reflexivity].
  now apply update_files_shape.
Qed.

Lemma update_indexed_at_shape (db : DB) (id : nat) (now : Z) :
  shape (FileCRUD.update_indexed_at db id now) = shape db.
Proof.
  unfold FileCRUD.update_indexed_at. destruct (FileCRUD.get db id); [|reflexivity].
  now apply update_files_shape.
Qed.

Lemma update_jobs_shape (db : DB) (k : nat) (g : IndexingJob -> IndexingJob) :
  (forall r, job_id (g r) = job_id r) ->
  shape (with_jobs db (update_rows job_id k g (jobs db))) = shape db.
Proof.
  intros Hg. unfold shape. cbn. now rewrite map_update_rows.
Qed.

Lemma update_status_shape (db : DB) (id : nat) (st : string) (err : option string)
    (now : Z) :
  shape (IndexingJobCRUD.update_status db id st err now) = shape db.
Proof.
  unfold IndexingJobCRUD.update_status. destruct (IndexingJobCRUD.get db id);
    [|reflexivity]. now apply update_jobs_shape.
Qed.

Lemma increment_progress_shape (db : DB) (id p f : nat) :
  shape (IndexingJobCRUD.increment_progress db id p f) = shape db.
Proof.
  unfold IndexingJobCRUD.increment_progress. destruct (IndexingJobCRUD.get db id);
    [|reflexivity]. now apply update_jobs_shape.
Qed.

Lemma set_total_files_shape (db : DB) (id n : nat) :
  shape (IndexingJobCRUD.set_total_files db id n) = shape db.
Proof.
  unfold IndexingJobCRUD.set_total_files. destruct (IndexingJobCRUD.get db id);
    [|reflexivity]. now apply update_jobs_shape.
Qed.

Lemma update_last_indexed_shape (db : DB) (id : nat) (now : Z) :
  shape (FolderCRUD.update_last_indexed db id now) = shape db.
Proof.
  unfold FolderCRUD.update_last_indexed. destruct (FolderCRUD.get db id);
    [|reflexivity]. unfold shape. cbn. now rewrite map_update_rows.
Qed.

Lemma NoDup_snoc {A : Type} (l : list A) (x : A) :
  List.NoDup l -> ~ In x l -> List.NoDup (l ++ [x]).
Proof.
  induction l as [|a l IH]; cbn; intros Hnd Hni.
  - constructor; [intros [] | constructor].
  - inversion Hnd as [|? ? Ha Hl]; subst. constructor.
    + intros Hin. apply in_app_or in Hin as [Hin|[<-|[]]]; [contradiction|].
      apply Hni. now left.
    + apply IH; [exact Hl|]. intros H. apply Hni. now right.
Qed.

Lemma next_id_not_In {R : Type} (key : R -> nat) (l : list R) :
  ~ In (next_id key l) (map key l).
Proof.
  intros Hin. apply in_map_iff in Hin as [x [Hx Hin]].
  exact (next_id_fresh key l x Hin Hx).
Qed.

Lemma find_path_None (db : DB) (path : string) :
  FileCRUD.get_by_path db path = None -> ~ In path (map file_path (files db)).
Proof.
  intros Hn Hin. apply in_map_iff in Hin as [f [Hf Hin]].
  apply (find_none _ _ Hn) in Hin. cbn in Hin. rewrite Hf, String.eqb_refl in Hin.
  discriminate.
Qed.

Lemma file_create_consistent (db : DB) (folder : nat) (path fname : string)
    (m : option string) (size : option nat) (mime : option string) :
  FileCRUD.get_by_path db path = None ->
  In folder (map folder_id (folders db)) ->
  consistent db ->
  consistent (snd (FileCRUD.create db folder path fname m size mime)).
Proof.
  intros Hnone Hfolder ((U1 & U2 & U3 & U4 & U5 & U6) & (R1 & R2) & Hone).
  cbn. split; [|split].
  - unfold unique_keys. cbn. rewrite !map_app. cbn.
    repeat split; try assumption.
    + apply NoDup_snoc; [exact U3 | apply next_id_not_In].
    + apply NoDup_snoc; [exact U4 | now apply find_path_None].
  - split; cbn.
    + intros f Hin. apply in_app_or in Hin as [Hin|[<-|[]]]; [now apply R1 | exact Hfolder].
    + intros e Hin. rewrite map_app. apply in_or_app. left. now apply R2.
  - exact Hone.
Qed.

Lemma embedding_create_consistent (w : World) (db : DB) (file : nat) (v : ndarray)
    (m : option string) (ty : string) :
  In file (map file_id (files db)) ->
  EmbeddingCRUD.get_by_file db file = [] ->
  consistent db ->
  consistent (snd (EmbeddingCRUD.create w db file v m ty)).
Proof.
  intros Hfile Hnone ((U1 & U2 & U3 & U4 & U5 & U6) & (R1 & R2) & Hone).
  cbn. split; [|split].
  - unfold unique_keys. cbn. rewrite map_app. cbn.
    repeat split; try assumption.
    apply NoDup_snoc; [exact U5 | apply next_id_not_In].
  - split; cbn.
    + exact R1.
    + intros e Hin. apply in_app_or in Hin as [Hin|[<-|[]]]; [now apply R2 | exact Hfile].
  - intros fid. unfold EmbeddingCRUD.get_by_file in *. cbn.
    rewrite List.filter_app, length_app. cbn.
    destruct (Nat.eqb file fid) eqn:E; cbn.
    + apply Nat.eqb_eq in E. subst fid. rewrite Hnone. cbn. lia.
    + specialize (Hone fid). unfold EmbeddingCRUD.get_by_file in Hone. lia.
Qed.

Lemma find_folder_id_In (db : DB) (path : string) (fid : nat) :
  IndexingService.find_folder_id db path = Some fid ->
  In fid (map folder_id (folders db)).
Proof.
  unfold IndexingService.find_folder_id, FolderCRUD.list_all.
  destruct (List.find _ _) as [folder|] eqn:Hf; [|discriminate].
  intros H. injection H as <-.
  apply find_some in Hf as [Hin _]. apply filter_In in Hin as [Hin _].
  now apply in_map.
Qed.

Lemma resolve_file_consistent (w : World) (db db1 : DB) (path : string) (file : File) :
  IndexingService.resolve_file w db path = Some (file, db1) ->
  consistent db ->
  consistent db1 /\ In (file_id file) (map file_id (files db1)).
Proof.
  unfold IndexingService.resolve_file. intros Hr Hc.
  destruct (FileCRUD.get_by_path db path) as [f|] eqn:Hp.
  - injection Hr as <- <-. split; [exact Hc|].
    apply find_some in Hp as [Hin _]. now apply in_map.
  - destruct (IndexingService.find_folder_id db path) as [fid|] eqn:Hfid; [|discriminate].
    injection Hr as <- <-. split.
    + apply file_create_consistent; [exact Hp | now apply find_folder_id_In with path | exact Hc].
    + cbn. rewrite map_app. apply in_or_app. right. now left.
Qed.

Lemma upsert_consistent (w : World) (db : DB) (now : Z) (file : File)
    (m : option string) (v : ndarray) :
  In (file_id file) (map file_id (files db)) ->
  consistent db ->
  consistent (IndexingService.upsert_embedding w db now file m v).
Proof.
  intros Hin Hc. unfold IndexingService.upsert_embedding.
  destruct (EmbeddingCRUD.get_by_file db (file_id file)) as [|e es] eqn:Hrows.
  - now apply embedding_create_consistent.
  - eapply consistent_shape; [|exact Hc].
    rewrite update_indexed_at_shape. unfold shape. cbn.
    now rewrite map_update_rows.
Qed.

Lemma index_file_consistent (w : World) (db : DB) (now : Z)
    (file_info : IndexingService.ScanInfo) :
  consistent db -> consistent (snd (IndexingService._index_file w db now file_info)).
Proof.
  intros Hc. unfold IndexingService._index_file.
  destruct (negb _); [exact Hc|].
  destruct (IndexingService.resolve_file w db _) as [[file db1]|] eqn:Hr; [|exact Hc].
  destruct (resolve_file_consistent w db db1 _ file Hr Hc) as [Hc1 Hin].
  destruct (EmbeddingGenerator.generate_embedding_for_file _ _ _) as [[v|]|msg];
    cbn [snd]; [now apply upsert_consistent | exact Hc1 | exact Hc1].
Qed.

Lemma process_file_consistent (w : World) (now : Z) (job : nat) (db : DB)
    (file_info : IndexingService.ScanInfo) :
  consistent db -> consistent (IndexingService.process_file w now job db file_info).
Proof.
  intros Hc. unfold IndexingService.process_file.
  pose proof (index_file_consistent w db now file_info Hc) as H.
  destruct (IndexingService._index_file w db now file_info) as [[u|msg] db1];
    cbn [snd] in H; (eapply consistent_shape; [apply increment_progress_shape | exact H]).
Qed.

Lemma perform_indexing_consistent (w : World) (db : DB) (now : Z) (job : nat)
    (folder : option nat) (mode : string) :
  consistent db -> consistent (IndexingService._perform_indexing w db now job folder mode).
Proof.
  intros Hc. unfold IndexingService._perform_indexing.
  assert (H1 : consistent (IndexingJobCRUD.update_status db job "running" None now))
    by (eapply consistent_shape; [apply update_status_shape | exact Hc]).
  destruct (IndexingService.folders_to_index _ folder) as [|f fs].
  - eapply consistent_shape; [apply update_status_shape | exact H1].
  - eapply consistent_shape; [apply update_status_shape |].
    set (all_files := IndexingService.collect_files w (f :: fs)).
    assert (H2 : consistent
                   (fold_left (IndexingService.process_file w now job) all_files
                      (IndexingJobCRUD.set_total_files
                         (IndexingJobCRUD.update_status db job "running" None now)
                         job (length all_files)))).
    { assert (H0 : consistent (IndexingJobCRUD.set_total_files
                         (IndexingJobCRUD.update_status db job "running" None now)
                         job (length all_files)))
        by (eapply consistent_shape; [apply set_total_files_shape | exact H1]).
      revert H0. generalize (IndexingJobCRUD.set_total_files
                         (IndexingJobCRUD.update_status db job "running" None now)
                         job (length all_files)).
      induction all_files as [|fi l IH]; intros d Hd; cbn; [exact Hd|].
      apply IH. now apply process_file_consistent. }
    revert H2. generalize (fold_left (IndexingService.process_file w now job) all_files
                      (IndexingJobCRUD.set_total_files
                         (IndexingJobCRUD.update_status db job "running" None now)
                         job (length all_files))).
    generalize (f :: fs). intros l. induction l as [|g l IH]; intros d Hd; cbn; [exact Hd|].
    apply IH. eapply consistent_shape; [apply update_last_indexed_shape | exact Hd].
Qed.

Lemma job_create_consistent (db : DB) (jtype : string) (folder : option nat) :
  consistent db -> consistent (snd (IndexingJobCRUD.create db jtype folder)).
Proof.
  intros ((U1 & U2 & U3 & U4 & U5 & U6) & Hr & Hone). cbn.
  split; [|split; [exact Hr | exact Hone]].
  unfold unique_keys. cbn. rewrite map_app. cbn.
  repeat split; try assumption.
  apply NoDup_snoc; [exact U6 | apply next_id_not_In].
Qed.

(** X6.  A scan job keeps the constraints of the schema: primary keys and
    paths stay unique, every file keeps a folder and every embedding a
    file, and no file gets a second embedding row. *)
Theorem index_folder_consistent (w : World) (db : DB) (now : Z)
    (folder : option nat) (mode : string) :
  consistent db ->
  consistent (snd (IndexingService.index_folder w db now folder mode)).
Proof.
  intros Hc. unfold IndexingService.index_folder.
  pose proof (job_create_consistent db
                (if String.eqb mode "full" then "full_scan" else "incremental")
                folder Hc) as H.
  destruct (IndexingJobCRUD.create db _ folder) as [job db1]. cbn [snd] in *.
  now apply perform_indexing_consistent.
Qed.

(** The event-driven procedure leaves the database as it is or adds one
    embedding row for a file that has none. *)
Lemma worker_index_file_cases (w : World) (db : DB) (path : string) :
  snd (IndexingWorker._index_file w db path) = db
  \/ exists f v m ty,
       FileCRUD.get_by_path db path = Some f
       /\ EmbeddingCRUD.get_by_file db (file_id f) = []
       /\ snd (IndexingWorker._index_file w db path)
          = snd (EmbeddingCRUD.create w db (file_id f) v m ty).
Proof.
  unfold IndexingWorker._index_file.
  destruct (negb _); [now left|].
  destruct (FileCRUD.get_by_path db path) as [f|] eqn:Hp; [|now left].
  destruct (EmbeddingGenerator.generate_embedding_for_file _ _ _) as [[v|]|msg];
    [|now left..].
  destruct (EmbeddingCRUD.get_by_file db (file_id f)) as [|e es] eqn:Hrows;
    [|now left].
  right. exists f, v. do 2 eexists. repeat split. exact Hrows.
Qed.

Lemma worker_index_file_effect (w : World) (db : DB) (path : string) :
  folders (snd (IndexingWorker._index_file w db path)) = folders db
  /\ files (snd (IndexingWorker._index_file w db path)) = files db
  /\ jobs (snd (IndexingWorker._index_file w db path)) = jobs db
  /\ (consistent db -> consistent (snd (IndexingWorker._index_file w db path))).
Proof.
  destruct (worker_index_file_cases w db path) as [->|(f & v & m & ty & Hp & Hrows & ->)].
  - split; [reflexivity|]. split; [reflexivity|]. split; [reflexivity|]. auto.
  - split; [reflexivity|]. split; [reflexivity|]. split; [reflexivity|].
    intros Hc. apply embedding_create_consistent; [|exact Hrows|exact Hc].
    apply find_some in Hp as [Hin _]. now apply in_map.
Qed.

(** X7.  The worker never adds or removes a folder, a file or a job,
    whatever the event, and it keeps the constraints of the schema. *)
Theorem process_event_keeps_rows (w : World) (db : DB) (event : FileEvent) :
  let db' := IndexingWorker._process_event w db event in
  folders db' = folders db
  /\ map file_keys (files db') = map file_keys (files db)
  /\ jobs db' = jobs db
  /\ (consistent db -> consistent db').
Proof.
  unfold IndexingWorker._process_event.
  destruct (String.eqb (action event) "create" || String.eqb (action event) "modify").
  - destruct (worker_index_file_effect w db (ev_path event)) as (H1 & H2 & H3 & H4).
    cbn. rewrite H1, H2, H3. split; [reflexivity|]. split; [reflexivity|].
    split; [reflexivity | exact H4].
  - destruct (String.eqb (action event) "delete");
      [|split; [reflexivity|]; split; [reflexivity|]; split; [reflexivity|]; auto].
    unfold IndexingWorker._mark_file_deleted.
    pose proof (mark_deleted_shape db (ev_path event)) as Hs.
    cbn. split; [|split; [|split]].
    + unfold FileCRUD.mark_deleted. now destruct (FileCRUD.get_by_path db _).
    + unfold shape in Hs. now injection Hs.
    + unfold FileCRUD.mark_deleted. now destruct (FileCRUD.get_by_path db _).
    + intros Hc. now apply (consistent_shape db).
Qed.

End Consistency.


(** ** Soft deletion and the folder audit *)

Section Audit.

Import DeletionTracker.

Lemma with_files_same (db : DB) : with_files db (files db) = db.
Proof. now destruct db. Qed.

Lemma key_injective {R : Type} (key : R -> nat) (l : list R) (x y : R) :
  List.NoDup (map key l) -> In x l -> In y l -> key x = key y -> x = y.
Proof.
  intros Hnd Hx Hy Hk.
  pose proof (find_key_unique key l x Hnd Hx) as Fx.
  pose proof (find_key_unique key l y Hnd Hy) as Fy.
  rewrite Hk in Fx. congruence.
Qed.

Lemma find_path_unique (l : list File) (x : File) :
  List.NoDup (map file_path l) -> In x l ->
  List.find (fun f => String.eqb (file_path f) (file_path x)) l = Some x.
Proof.
  induction l as [|r l IH]; intros Hnd Hin; cbn in *; [contradiction|].
  inversion Hnd as [|? ? Hnotin Hnd']; subst.
  destruct Hin as [->|Hin].
  - now rewrite String.eqb_refl.
  - destruct (String.eqb (file_path r) (file_path x)) eqn:E.
    + apply String.eqb_eq in E. exfalso. apply Hnotin. rewrite E. now apply in_map.
    + now apply IH.
Qed.

Lemma mark_ids_keys (ids : list nat) (f : File) :
  file_id (mark_ids ids f) = file_id f /\ file_path (mark_ids ids f) = file_path f.
Proof. unfold mark_ids. now destruct (existsb _ ids). Qed.

(** One soft delete on a table that is the original one with the rows of
    [ids] flagged. *)
Lemma mark_deleted_mark_ids (db : DB) (ids : list nat) (f : File) :
  List.NoDup (map file_path (files db)) -> In f (files db) ->
  snd (FileCRUD.mark_deleted (with_files db (map (mark_ids ids) (files db)))
         (file_path f))
  = with_files db (map (mark_ids (ids ++ [file_id f])) (files db)).
Proof.
  intros Hnd Hin. unfold FileCRUD.mark_deleted, FileCRUD.get_by_path. cbn.
  rewrite (find_map_stable _ (mark_ids ids))
    by (intros r; now rewrite (proj2 (mark_ids_keys ids r))).
  rewrite find_path_unique by assumption. cbn.
  unfold with_files. cbn. f_equal.
  unfold update_rows. rewrite map_map. apply map_ext. intros r.
  rewrite (proj1 (mark_ids_keys ids r)), (proj1 (mark_ids_keys ids f)).
  unfold mark_ids. rewrite existsb_app. cbn. rewrite orb_false_r.
  destruct (Nat.eqb (file_id r) (file_id f)).
  - rewrite orb_true_r. now destruct (existsb _ ids).
  - now rewrite orb_false_r.
Qed.

Lemma scan_loop (w : World) (db : DB) (l : list File) (ids : list nat) (c : nat) :
  List.NoDup (map file_path (files db)) ->
  (forall f, In f l -> In f (files db)) ->
  fold_left
    (fun acc file =>
       if negb (path_exists w (file_path file))
       then (S (fst acc), snd (mark_file_deleted (snd acc) (file_path file)))
       else acc)
    l (c, with_files db (map (mark_ids ids) (files db)))
  = (c + length (List.filter (fun f => negb (path_exists w (file_path f))) l),
     with_files db
       (map (mark_ids
               (ids ++ map file_id
                         (List.filter (fun f => negb (path_exists w (file_path f))) l)))
            (files db))).
Proof.
  intros Hnd. revert ids c. induction l as [|f l IH]; intros ids c Hl; cbn.
  - now rewrite Nat.add_0_r, app_nil_r.
  - destruct (negb (path_exists w (file_path f))) eqn:E; cbn.
    + unfold mark_file_deleted. rewrite mark_deleted_mark_ids
        by (try assumption; apply Hl; now left).
      rewrite IH by (intros g Hg; apply Hl; now right).
      rewrite <- app_assoc. cbn. f_equal. lia.
    + apply IH. intros g Hg. apply Hl. now right.
Qed.

Lemma list_by_folder_live (db : DB) (folder : nat) (f : File) :
  In f (FileCRUD.list_by_folder db folder false)
  <-> In f (files db) /\ file_folder_id f = folder /\ is_deleted f = false.
Proof.
  unfold FileCRUD.list_by_folder. cbn. rewrite !filter_In, Nat.eqb_eq, negb_true_iff.
  tauto.
Qed.

(** X8.  The audit of a folder flags exactly its live files that are
    missing on disk and returns their number; no other row of any table
    changes, and an audit run again right after finds nothing. *)
Theorem scan_for_deleted_files_flags_missing (w : World) (db : DB) (folder : nat)
    (fo : Folder) :
  List.NoDup (map file_id (files db)) ->
  List.NoDup (map file_path (files db)) ->
  FolderCRUD.get db folder = Some fo ->
  let r := scan_for_deleted_files w db folder in
  fst r = length (List.filter (stale w folder) (files db))
  /\ files (snd r)
     = map (fun f => if stale w folder f then set_deleted true false f else f)
           (files db)
  /\ folders (snd r) = folders db
  /\ embeddings (snd r) = embeddings db
  /\ jobs (snd r) = jobs db
  /\ fst (scan_for_deleted_files w (snd r) folder) = 0.
Proof.
  intros Hids Hpaths Hfo r.
  set (missing := fun f : File => negb (path_exists w (file_path f))).
  set (listed := FileCRUD.list_by_folder db folder false).
  assert (Hr : r = (length (List.filter missing listed),
                    with_files db
                      (map (mark_ids (map file_id (List.filter missing listed)))
                           (files db)))).
  { unfold r, scan_for_deleted_files. rewrite Hfo. cbv zeta. fold listed.
    replace (0, db) with (0, with_files db (map (mark_ids []) (files db))).
    - rewrite (scan_loop w db listed [] 0 Hpaths)
        by (intros f Hf; now apply list_by_folder_live in Hf).
      reflexivity.
    - f_equal. rewrite (map_ext (mark_ids []) (fun x => x)) by reflexivity.
      rewrite map_id. apply with_files_same. }
  assert (Hmark : forall f, In f (files db) ->
             mark_ids (map file_id (List.filter missing listed)) f
             = if stale w folder f then set_deleted true false f else f).
  { intros f Hf. unfold mark_ids.
    destruct (stale w folder f) eqn:Hst.
    - assert (E : existsb (Nat.eqb (file_id f))
                    (map file_id (List.filter missing listed)) = true).
      { apply existsb_exists. exists (file_id f). split; [|apply Nat.eqb_refl].
        apply in_map. apply filter_In. unfold stale in Hst.
        apply andb_prop in Hst as [Hst Hm]. apply andb_prop in Hst as [Hfo' Hlive].
        split; [|exact Hm]. apply list_by_folder_live.
        split; [exact Hf|]. split; [now apply Nat.eqb_eq | now apply negb_true_iff]. }
      now rewrite E.
    - destruct (existsb _ _) eqn:E; [|reflexivity]. exfalso.
      apply existsb_exists in E as [k [Hk Heq]]. apply Nat.eqb_eq in Heq. subst k.
      apply in_map_iff in Hk as [g [Hg Hin]]. apply filter_In in Hin as [Hin Hm].
      apply list_by_folder_live in Hin as (Hgin & Hgf & Hgd).
      assert (g = f) by (apply (key_injective file_id (files db)); auto).
      subst g. unfold stale in Hst. unfold missing in Hm.
      rewrite Hgf, Nat.eqb_refl, Hgd, Hm in Hst. discriminate. }
  assert (Hfiles : files (snd r)
                   = map (fun f => if stale w folder f then set_deleted true false f else f)
                         (files db)).
  { rewrite Hr. cbn. now apply map_ext_in. }
  split; [|split; [exact Hfiles|split; [|split; [|split]]]];
    try (rewrite Hr; reflexivity).
  - rewrite Hr. cbn [fst]. unfold listed, FileCRUD.list_by_folder. cbn [negb].
    clear. induction (files db) as [|f l IH]; cbn; [reflexivity|].
    unfold stale at 1.
    destruct (Nat.eqb (file_folder_id f) folder); cbn; [|exact IH].
    destruct (is_deleted f); cbn; [exact IH|].
    unfold missing at 1.
    destruct (path_exists w (file_path f)); cbn; [exact IH | now rewrite IH].
  - assert (Hfo2 : FolderCRUD.get (snd r) folder = Some fo) by (rewrite Hr; exact Hfo).
    unfold scan_for_deleted_files at 1. rewrite Hfo2.
    assert (Hcount : forall l c d,
              fst (fold_left
                     (fun acc file =>
                        if negb (path_exists w (file_path file))
                        then (S (fst acc), snd (mark_file_deleted (snd acc) (file_path file)))
                        else acc) l (c, d))
              = c + length (List.filter missing l)).
    { clear. induction l as [|f l IH]; intros c d; cbn; [lia|].
      unfold missing at 1. destruct (negb (path_exists w (file_path f))); cbn.
      - rewrite IH. lia.
      - apply IH. }
    rewrite Hcount. cbn [Nat.add].
    assert (Hnone : List.filter missing (FileCRUD.list_by_folder (snd r) folder false) = []).
    { destruct (List.filter missing (FileCRUD.list_by_folder (snd r) folder false))
        as [|x rest] eqn:E; [reflexivity|]. exfalso.
      assert (Hx : In x (List.filter missing (FileCRUD.list_by_folder (snd r) folder false)))
        by (rewrite E; now left).
      apply filter_In in Hx as [Hx Hm]. apply list_by_folder_live in Hx as (Hin & Hxf & Hxd).
      rewrite Hfiles in Hin. apply in_map_iff in Hin as [g [Hg Hgin]].
      destruct (stale w folder g) eqn:Hst.
      - subst x. cbn in Hxd. discriminate.
      - subst x. unfold stale in Hst. unfold missing in Hm.
        rewrite Hxf, Nat.eqb_refl, Hxd, Hm in Hst. discriminate. }
    now rewrite Hnone.
Qed.

Lemma flags_kept_refl (db : DB) : flags_kept db db.
Proof. intros id f Hf. exists f. now repeat split. Qed.

Lemma flags_kept_trans (a b c : DB) :
  flags_kept a b -> flags_kept b c -> flags_kept a c.
Proof.
  intros Hab Hbc id f Hf.
  destruct (Hab id f Hf) as (f1 & H1 & K1 & D1 & N1).
  destruct (Hbc id f1 H1) as (f2 & H2 & K2 & D2 & N2).
  exists f2. repeat split; congruence.
Qed.

Lemma flags_kept_same_files (db db' : DB) :
  files db' = files db -> flags_kept db db'.
Proof.
  intros Hf id f Hg. exists f. unfold FileCRUD.get in *. rewrite Hf.
  now repeat split.
Qed.

Lemma update_indexed_at_flags (db : DB) (id : nat) (now : Z) :
  flags_kept db (FileCRUD.update_indexed_at db id now).
Proof.
  unfold FileCRUD.update_indexed_at.
  destruct (FileCRUD.get db id) as [f0|] eqn:Hg; [|apply flags_kept_refl].
  intros k f Hf. rewrite get_after_update by reflexivity.
  destruct (Nat.eqb k id).
  - rewrite Hf. cbn. eexists. split; [reflexivity|]. now repeat split.
  - exists f. now repeat split.
Qed.

Lemma file_create_flags (db : DB) (folder : nat) (path fname : string)
    (m : option string) (size : option nat) (mime : option string) :
  flags_kept db (snd (FileCRUD.create db folder path fname m size mime)).
Proof.
  intros id f Hf. exists f. split; [|now repeat split].
  unfold FileCRUD.get in *. cbn. now rewrite find_app, Hf.
Qed.

Lemma index_file_flags (w : World) (db : DB) (now : Z)
    (file_info : IndexingService.ScanInfo) :
  flags_kept db (snd (IndexingService._index_file w db now file_info)).
Proof.
  unfold IndexingService._index_file.
  destruct (negb _); [apply flags_kept_refl|].
  destruct (IndexingService.resolve_file w db _) as [[file db1]|] eqn:Hr;
    [|apply flags_kept_refl].
  assert (H1 : flags_kept db db1).
  { unfold IndexingService.resolve_file in Hr.
    destruct (FileCRUD.get_by_path db _).
    - injection Hr as _ <-. apply flags_kept_refl.
    - destruct (IndexingService.find_folder_id db _); [|discriminate].
      injection Hr as _ <-. apply file_create_flags. }
  destruct (EmbeddingGenerator.generate_embedding_for_file _ _ _) as [[v|]|msg];
    cbn [snd]; try exact H1.
  apply (flags_kept_trans _ db1); [exact H1|].
  unfold IndexingService.upsert_embedding.
  destruct (EmbeddingCRUD.get_by_file db1 (file_id file)).
  - now apply flags_kept_same_files.
  - apply (flags_kept_trans _ (with_embeddings db1
             (update_rows emb_file_id (file_id file)
                (set_vector (serialize_array w v)) (embeddings db1)))).
    + now apply flags_kept_same_files.
    + apply update_indexed_at_flags.
Qed.

Lemma job_update_files (db : DB) (id : nat) (g : IndexingJob -> IndexingJob) :
  files (with_jobs db (update_rows job_id id g (jobs db))) = files db.
Proof. reflexivity. Qed.

Lemma process_file_flags (w : World) (now : Z) (job : nat) (db : DB)
    (file_info : IndexingService.ScanInfo) :
  flags_kept db (IndexingService.process_file w now job db file_info).
Proof.
  unfold IndexingService.process_file.
  pose proof (index_file_flags w db now file_info) as H.
  destruct (IndexingService._index_file w db now file_info) as [[u|msg] db1];
    cbn [snd] in H; (apply (flags_kept_trans _ db1); [exact H|]);
    apply flags_kept_same_files; unfold IndexingJobCRUD.increment_progress;
    now destruct (IndexingJobCRUD.get db1 job).
Qed.

Lemma update_status_files (db : DB) (id : nat) (st : string) (err : option string)
    (now : Z) :
  files (IndexingJobCRUD.update_status db id st err now) = files db.
Proof.
  unfold IndexingJobCRUD.update_status. now destruct (IndexingJobCRUD.get db id).
Qed.

Lemma perform_indexing_flags (w : World) (db : DB) (now : Z) (job : nat)
    (folder : option nat) (mode : string) :
  flags_kept db (IndexingService._perform_indexing w db now job folder mode).
Proof.
  unfold IndexingService._perform_indexing.
  set (db1 := IndexingJobCRUD.update_status db job "running" None now).
  assert (H1 : flags_kept db db1)
    by (apply flags_kept_same_files, update_status_files).
  destruct (IndexingService.folders_to_index db1 folder) as [|f fs].
  - apply (flags_kept_trans _ db1); [exact H1|].
    apply flags_kept_same_files, update_status_files.
  - set (all_files := IndexingService.collect_files w (f :: fs)).
    set (db2 := IndexingJobCRUD.set_total_files db1 job (length all_files)).
    assert (H2 : flags_kept db db2).
    { apply (flags_kept_trans _ db1); [exact H1|].
      apply flags_kept_same_files. unfold db2, IndexingJobCRUD.set_total_files.
      now destruct (IndexingJobCRUD.get db1 job). }
    assert (H3 : forall l d, flags_kept db d ->
                   flags_kept db (fold_left (IndexingService.process_file w now job) l d)).
    { induction l as [|fi l IH]; intros d Hd; cbn; [exact Hd|].
      apply IH. apply (flags_kept_trans _ d); [exact Hd | apply process_file_flags]. }
    assert (H4 : forall l d, flags_kept db d ->
                   flags_kept db
                     (fold_left (fun d f => FolderCRUD.update_last_indexed d (folder_id f) now)
                        l d)).
    { induction l as [|g l IH]; intros d Hd; cbn; [exact Hd|].
      apply IH. apply (flags_kept_trans _ d); [exact Hd|].
      apply flags_kept_same_files. unfold FolderCRUD.update_last_indexed.
      now destruct (FolderCRUD.get d (folder_id g)). }
    eapply flags_kept_trans; [apply H4, H3, H2|].
    apply flags_kept_same_files, update_status_files.
Qed.

(** X9.  Indexing never clears a soft delete: after a scan job, and after
    the event-driven procedure, every file that was there is still there
    with the same keys, the same deleted flag and the same notified
    flag. *)
Theorem indexing_keeps_deletion_flags (w : World) (db : DB) (now : Z)
    (folder : option nat) (mode path : string) :
  flags_kept db (snd (IndexingService.index_folder w db now folder mode))
  /\ flags_kept db (snd (IndexingWorker._index_file w db path)).
Proof.
  split.
  - unfold IndexingService.index_folder.
    destruct (IndexingJobCRUD.create db _ folder) as [job db1] eqn:Hc. cbn [snd].
    apply (flags_kept_trans _ db1); [|apply perform_indexing_flags].
    apply flags_kept_same_files. unfold IndexingJobCRUD.create in Hc.
    now injection Hc as _ <-.
  - apply flags_kept_same_files.
    now destruct (worker_index_file_effect w db path) as (_ & H & _).
Qed.

Lemma filter_update_rows_count {R : Type} (key : R -> nat) (p : R -> bool)
    (g : R -> R) (l : list R) (x : R) :
  (forall r, key (g r) = key r) ->
  List.NoDup (map key l) -> In x l ->
  length (List.filter p (update_rows key (key x) g l)) + (if p x then 1 else 0)
  = length (List.filter p l) + (if p (g x) then 1 else 0).
Proof.
  intros Hk. induction l as [|r l IH]; intros Hnd Hin; [contradiction|].
  inversion Hnd as [|? ? Hnotin Hnd']; subst. cbn.
  destruct Hin as [->|Hin].
  - rewrite Nat.eqb_refl.
    assert (E : update_rows key (key x) g l = l).
    { unfold update_rows. rewrite <- (map_id l) at 2. apply map_ext_in.
      intros r Hr. destruct (Nat.eqb (key r) (key x)) eqn:E; [|reflexivity].
      apply Nat.eqb_eq in E. exfalso. apply Hnotin. rewrite <- E. now apply in_map. }
    fold (update_rows key (key x) g l). rewrite E.
    destruct (p x), (p (g x)); cbn; lia.
  - assert (E : Nat.eqb (key r) (key x) = false).
    { apply Nat.eqb_neq. intros E. apply Hnotin. rewrite E. now apply in_map. }
    rewrite E. fold (update_rows key (key x) g l).
    specialize (IH Hnd' Hin). destruct (p r); cbn; lia.
Qed.

(** X10.  The file count of a folder is the number of files its listing
    without deleted files returns; the soft delete of a live file lowers
    the count of its folder by one and leaves the counts of the other
    folders alone. *)
Theorem count_by_folder_after_mark_deleted (db : DB) (path : string) (f : File) :
  List.NoDup (map file_id (files db)) ->
  FileCRUD.get_by_path db path = Some f ->
  is_deleted f = false ->
  let db' := snd (FileCRUD.mark_deleted db path) in
  (forall folder,
      FileCRUD.count_by_folder db folder
      = length (FileCRUD.list_by_folder db folder false))
  /\ S (FileCRUD.count_by_folder db' (file_folder_id f))
     = FileCRUD.count_by_folder db (file_folder_id f)
  /\ (forall folder, folder <> file_folder_id f ->
        FileCRUD.count_by_folder db' folder = FileCRUD.count_by_folder db folder).
Proof.
  intros Hnd Hp Hlive db'.
  assert (Hin : In f (files db)) by (apply find_some in Hp; tauto).
  assert (Hcount : forall folder,
             FileCRUD.count_by_folder db' folder
             + (if Nat.eqb (file_folder_id f) folder && negb (is_deleted f) then 1 else 0)
             = FileCRUD.count_by_folder db folder + 0).
  { intros folder. unfold db', FileCRUD.mark_deleted, FileCRUD.count_by_folder.
    rewrite Hp. cbn [snd files with_files].
    rewrite (filter_update_rows_count file_id
               (fun f0 => Nat.eqb (file_folder_id f0) folder && negb (is_deleted f0))
               (set_deleted true false) (files db) f) by auto.
    cbn. now rewrite andb_false_r. }
  split; [|split].
  - intros folder. unfold FileCRUD.count_by_folder, FileCRUD.list_by_folder. cbn.
    clear. induction (files db) as [|r l IH]; cbn; [reflexivity|].
    destruct (Nat.eqb (file_folder_id r) folder); cbn; [|exact IH].
    destruct (is_deleted r); cbn; [exact IH | now rewrite IH].
  - specialize (Hcount (file_folder_id f)).
    rewrite Nat.eqb_refl, Hlive in Hcount. cbn in Hcount. lia.
  - intros folder Hne. specialize (Hcount folder).
    assert (E : Nat.eqb (file_folder_id f) folder = false)
      by (apply Nat.eqb_neq; congruence).
    rewrite E in Hcount. cbn in Hcount. lia.
Qed.

End Audit.


(** ** Files similar to an indexed file *)

Section SimilarFiles.

Import EmbeddingCRUD SearchService.

Lemma similar_loop_firstn (id k : nat) (found : list (File * Q))
    (acc : list SearchResult) :
  firstn k (similar_loop id k found acc)
  = firstn k (acc ++ map (fun r => similar_result (fst r) (snd r))
                       (List.filter (fun r => negb (Nat.eqb (file_id (fst r)) id)) found)).
Proof.
  revert acc. induction found as [|[f s] rest IH]; intros acc; cbn [similar_loop].
  - cbn. now rewrite app_nil_r.
  - set (acc1 := if negb (Nat.eqb (file_id f) id)
                 then acc ++ [similar_result f s] else acc).
    assert (E : acc ++ map (fun r => similar_result (fst r) (snd r))
                  (List.filter (fun r => negb (Nat.eqb (file_id (fst r)) id))
                     ((f, s) :: rest))
                = acc1 ++ map (fun r => similar_result (fst r) (snd r))
                    (List.filter (fun r => negb (Nat.eqb (file_id (fst r)) id)) rest)).
    { unfold acc1. cbn. destruct (negb (Nat.eqb (file_id f) id)); cbn;
        [now rewrite <- app_assoc | reflexivity]. }
    rewrite E. destruct (Nat.leb k (length acc1)) eqn:Hk.
    + apply Nat.leb_le in Hk. rewrite firstn_app.
      replace (k - length acc1) with 0 by lia. cbn. now rewrite app_nil_r.
    + apply IH.
Qed.

Lemma descending_filter {A : Type} (key : A -> Q) (p : A -> bool) (l : list A) :
  descending key l -> descending key (List.filter p l).
Proof.
  unfold descending. induction 1 as [|x l _ IH Hall]; cbn; [constructor|].
  destruct (p x); [|exact IH]. constructor; [exact IH|].
  rewrite List.Forall_forall in *. intros y Hy. apply filter_In in Hy as [Hy _].
  now apply Hall.
Qed.

Lemma insert_reverse_head {A : Type} (key : A -> Q) (x : A) (l : list A) :
  Forall (fun y => (key y <= key x)%Q) l -> insert_reverse key x l = x :: l.
Proof.
  intros H. destruct l as [|y l]; [reflexivity|]. cbn.
  inversion H as [|? ? Hy _]; subst. apply Qle_bool_iff in Hy. now rewrite Hy.
Qed.

Lemma filter_insert_reverse {A : Type} (key : A -> Q) (p : A -> bool) (x : A)
    (l : list A) :
  descending key l ->
  List.filter p (insert_reverse key x l)
  = if p x then insert_reverse key x (List.filter p l) else List.filter p l.
Proof.
  unfold descending. induction 1 as [|y l Hs IH Hall]; cbn.
  - now destruct (p x).
  - destruct (Qle_bool (key y) (key x)) eqn:Hle.
    + cbn. destruct (p x); [|reflexivity].
      symmetry. apply insert_reverse_head.
      apply Qle_bool_iff in Hle.
      assert (H : Forall (fun z => (key z <= key x)%Q) (y :: l)).
      { constructor; [exact Hle|]. eapply List.Forall_impl; [|exact Hall].
        intros z Hz. cbn in Hz. eapply Qle_trans; eassumption. }
      rewrite List.Forall_forall in *. intros z Hz.
      apply (filter_In p z (y :: l)) in Hz as [Hz _]. now apply H.
    + cbn. rewrite IH. destruct (p y), (p x); cbn; try reflexivity.
      now rewrite Hle.
Qed.

(** The stable sort and a filter commute. *)
Lemma filter_sort_reverse {A : Type} (key : A -> Q) (p : A -> bool) (l : list A) :
  List.filter p (sort_reverse key l) = sort_reverse key (List.filter p l).
Proof.
  induction l as [|x l IH]; cbn; [reflexivity|].
  rewrite filter_insert_reverse by apply sort_reverse_descending.
  rewrite IH. now destruct (p x).
Qed.

(** One element more than asked for is enough when at most one element
    is dropped afterwards. *)
Lemma firstn_filter_one_more {A : Type} (good : A -> bool) (l : list A) (k : nat) :
  length (List.filter (fun x => negb (good x)) l) <= 1 ->
  firstn k (List.filter good (firstn (S k) l)) = firstn k (List.filter good l).
Proof.
  revert k. induction l as [|x l IH]; intros k Hc; [reflexivity|].
  cbn [firstn List.filter] in *. destruct (good x) eqn:Hx; cbn [negb] in Hc.
  - destruct k as [|k]; [reflexivity|]. cbn [firstn]. f_equal. now apply IH.
  - cbn [length] in Hc.
    assert (Hall : forall m : list A,
               length (List.filter (fun x => negb (good x)) m) = 0 ->
               List.filter good m = m).
    { induction m as [|y m IHm]; cbn; [reflexivity|].
      destruct (good y); cbn; [intros H; f_equal; auto | discriminate]. }
    assert (H0 : length (List.filter (fun x => negb (good x)) l) = 0) by lia.
    rewrite (Hall l H0).
    assert (H1 : length (List.filter (fun x => negb (good x)) (firstn k l)) = 0).
    { clear -H0. revert k. induction l as [|y l IHl]; intros [|k]; cbn in *;
        try reflexivity.
      destruct (good y); cbn in *; [auto | discriminate]. }
    rewrite (Hall _ H1). now rewrite firstn_firstn, Nat.min_id.
Qed.

Lemma join_file_id (db : DB) (f : File) (e : Embedding) :
  In (f, e) (join_file_embedding db) -> file_id f = emb_file_id e.
Proof.
  unfold join_file_embedding. rewrite in_flat_map. intros [e' [_ Hin]].
  destruct (FileCRUD.get db (emb_file_id e')) as [f'|] eqn:Hg; [|contradiction].
  destruct Hin as [Heq|[]]. injection Heq as -> ->.
  unfold FileCRUD.get in Hg. apply find_some in Hg as [_ Hid].
  now apply Nat.eqb_eq in Hid.
Qed.

Lemma join_filter (db : DB) (pe : Embedding -> bool) :
  join_file_embedding (with_embeddings db (List.filter pe (embeddings db)))
  = List.filter (fun r => pe (snd r)) (join_file_embedding db).
Proof.
  unfold join_file_embedding. cbn [embeddings with_embeddings].
  change (FileCRUD.get (with_embeddings db (List.filter pe (embeddings db))))
    with (FileCRUD.get db).
  induction (embeddings db) as [|e l IH]; [reflexivity|].
  cbn [flat_map]. rewrite List.filter_app, <- IH. cbn [List.filter].
  destruct (pe e) eqn:He; cbn [flat_map];
    destruct (FileCRUD.get db (emb_file_id e)); cbn; rewrite ?He; reflexivity.
Qed.

Lemma score_rows_filter (w : World) (q : ndarray) (T : Q) (pf : File -> bool)
    (rows : list (File * Embedding)) :
  score_rows w q T (List.filter (fun r => pf (fst r)) rows)
  = List.filter (fun r => pf (fst r)) (score_rows w q T rows).
Proof.
  unfold score_rows. induction rows as [|[f e] rows IH]; cbn; [reflexivity|].
  rewrite List.filter_app, <- IH.
  destruct (pf f) eqn:Hf; cbn.
  - destruct (vector e); cbn; [|reflexivity].
    destruct (Qle_bool T _); cbn; [now rewrite Hf | reflexivity].
  - destruct (vector e); cbn; [|reflexivity].
    destruct (Qle_bool T _); cbn; [now rewrite Hf | reflexivity].
Qed.

Lemma filter_comm {A : Type} (p q : A -> bool) (l : list A) :
  List.filter p (List.filter q l) = List.filter q (List.filter p l).
Proof.
  induction l as [|x l IH]; cbn; [reflexivity|].
  destruct (p x) eqn:Hp, (q x) eqn:Hq; cbn; rewrite ?Hp, ?Hq, IH; reflexivity.
Qed.

Lemma find_similar_files_In (w : World) (db : DB) (id top_k : nat)
    (threshold : Q) (resp : SearchResponse) (r : SearchResult) :
  find_similar_files w db id top_k threshold = Ok resp ->
  In r (results resp) ->
  res_file_id r <> id
  /\ res_is_deleted r = false
  /\ (threshold <= similarity r)%Q
  /\ exists f, FileCRUD.get db (res_file_id r) = Some f
               /\ is_deleted f = false /\ res_path r = file_path f.
Proof.
  unfold find_similar_files. intros H Hr.
  destruct (FileCRUD.get db id) as [file|];
    [|injection H as <-; contradiction].
  destruct (get_by_file db id) as [|first rest];
    [injection H as <-; contradiction|].
  destruct (vector first) as [blob|]; [|discriminate].
  injection H as <-. cbn [results] in Hr.
  rewrite similar_loop_firstn in Hr. cbn [app] in Hr.
  apply firstn_In in Hr.
  apply in_map_iff in Hr as [[f s] [<- Hin]].
  apply filter_In in Hin as [Hin Hne]. cbn in *.
  apply negb_true_iff, Nat.eqb_neq in Hne.
  pose proof (search_similar_live _ _ _ _ _ _ _ _ _ Hin) as [Hg Hlive].
  apply search_similar_In in Hin as [HT _].
  repeat split; auto. now exists f.
Qed.

(** X11.  What [find_similar_files] answers: never the reference file, never
    a deleted file, only scores that reach the threshold, in descending
    order of score, at most [top_k] results, and [total] is their
    number. *)
Theorem find_similar_files_results (w : World) (db : DB) (id top_k : nat)
    (threshold : Q) (resp : SearchResponse) :
  find_similar_files w db id top_k threshold = Ok resp ->
  Forall (fun r => res_file_id r <> id
                   /\ res_is_deleted r = false
                   /\ (threshold <= similarity r)%Q
                   /\ exists f, FileCRUD.get db (res_file_id r) = Some f
                                /\ is_deleted f = false
                                /\ res_path r = file_path f)
         (results resp)
  /\ descending similarity (results resp)
  /\ length (results resp) <= top_k
  /\ total resp = length (results resp)
  /\ warnings resp = None.
Proof.
  intros H. split.
  { rewrite List.Forall_forall. intros r Hr.
    exact (find_similar_files_In w db id top_k threshold resp r H Hr). }
  unfold find_similar_files in H.
  destruct (FileCRUD.get db id) as [file|];
    [|injection H as <-; cbn; repeat split; try constructor; lia].
  destruct (get_by_file db id) as [|first rest];
    [injection H as <-; cbn; repeat split; try constructor; lia|].
  destruct (vector first) as [blob|]; [|discriminate].
  injection H as <-. cbn [results total warnings].
  rewrite similar_loop_firstn. cbn [app].
  split; [|split; [|split]]; try reflexivity.
  - apply descending_firstn.
    apply (descending_map _ similarity snd); [reflexivity|].
    apply descending_filter. unfold search_similar.
    apply descending_firstn, sort_reverse_descending.
  - apply firstn_le_length.
Qed.

(** X12.  When the reference file has one embedding row, the answer of
    [find_similar_files] is the top-k similarity scan of the database
    without that row: asking the scan for one result more makes up for
    the reference file. *)
Theorem find_similar_files_top_k_of_others (w : World) (db : DB) (id top_k : nat)
    (threshold : Q) (file : File) (first : Embedding) (blob : bytes) :
  FileCRUD.get db id = Some file ->
  get_by_file db id = [first] ->
  vector first = Some blob ->
  let others :=
    search_similar w (snd (delete_by_file db id)) (deserialize_array w blob)
      (file_modality file) None top_k threshold true in
  find_similar_files w db id top_k threshold
  = Ok {| results := map (fun r => similar_result (fst r) (snd r)) others;
          total := length others;
          warnings := None |}.
Proof.
  intros Hg He Hv others. unfold find_similar_files. rewrite Hg, He, Hv.
  rewrite similar_loop_firstn. cbn [app].
  set (ne := fun r : File * Q => negb (Nat.eqb (file_id (fst r)) id)).
  set (q := deserialize_array w blob).
  set (cands := List.filter (candidate (file_modality file) None true)
                  (join_file_embedding db)).
  set (scored := score_rows w q threshold cands).
  assert (Hothers : others = firstn top_k (List.filter ne (sort_reverse snd scored))).
  { unfold others, search_similar, delete_by_file. cbn [snd]. f_equal.
    rewrite filter_sort_reverse. f_equal.
    rewrite join_filter.
    rewrite (filter_ext_in
               (fun r : File * Embedding => negb (Nat.eqb (emb_file_id (snd r)) id))
               (fun r => negb (Nat.eqb (file_id (fst r)) id))).
    2:{ intros [f e] Hin. cbn. now rewrite (join_file_id db f e Hin). }
    rewrite filter_comm.
    apply (score_rows_filter w q threshold (fun f => negb (Nat.eqb (file_id f) id))). }
  assert (Hone : length (List.filter (fun x => negb (ne x)) (sort_reverse snd scored)) <= 1).
  { rewrite filter_sort_reverse, sort_reverse_length.
    unfold scored, ne.
    rewrite <- (score_rows_filter w q threshold
                  (fun f => negb (negb (Nat.eqb (file_id f) id)))).
    etransitivity; [apply score_rows_length|].
    unfold cands. rewrite filter_comm.
    etransitivity; [apply filter_length_le'|].
    rewrite (filter_ext_in
               (fun r : File * Embedding => negb (negb (Nat.eqb (file_id (fst r)) id)))
               (fun r => Nat.eqb (emb_file_id (snd r)) id)).
    2:{ intros [f e] Hin. cbn. rewrite (join_file_id db f e Hin).
        apply negb_involutive. }
    rewrite <- (join_filter db (fun e => Nat.eqb (emb_file_id e) id)).
    etransitivity; [apply join_length|].
    cbn [embeddings with_embeddings]. fold (get_by_file db id). rewrite He. cbn. lia. }
  replace (top_k + 1) with (S top_k) by lia.
  assert (Hres : firstn top_k
                   (map (fun r => similar_result (fst r) (snd r))
                      (List.filter ne
                         (search_similar w db q (file_modality file) None (S top_k)
                            threshold true)))
                 = map (fun r => similar_result (fst r) (snd r)) others).
  { rewrite firstn_map. f_equal. rewrite Hothers. unfold search_similar.
    fold cands. fold scored. now apply firstn_filter_one_more. }
  fold q. fold ne. rewrite Hres. now rewrite length_map.
Qed.

End SimilarFiles.


(** ** A soft delete is never taken back *)

Section Permanence.

Lemma deleted_file_update (db : DB) (k id : nat) (g : File -> File) :
  (forall r, file_id (g r) = file_id r) ->
  (forall r, is_deleted r = true -> is_deleted (g r) = true) ->
  deleted_file db id ->
  deleted_file (with_files db (update_rows file_id k g (files db))) id.
Proof.
  intros Hk Hd (f & Hf & Hdel). unfold deleted_file.
  rewrite get_after_update by exact Hk. rewrite Hf.
  destruct (Nat.eqb id k); cbn; eauto.
Qed.

Lemma mark_deleted_keeps (db : DB) (path : string) (id : nat) :
  deleted_file db id -> deleted_file (snd (FileCRUD.mark_deleted db path)) id.
Proof.
  intros H. unfold FileCRUD.mark_deleted.
  destruct (FileCRUD.get_by_path db path) as [f|]; cbn [snd]; [|exact H].
  now apply deleted_file_update.
Qed.

Lemma flags_kept_deleted (db db' : DB) (id : nat) :
  flags_kept db db' -> deleted_file db id -> deleted_file db' id.
Proof.
  intros Hk (f & Hf & Hdel). destruct (Hk id f Hf) as (f' & Hf' & _ & Hd & _).
  exists f'. split; [exact Hf' | congruence].
Qed.

Lemma audit_keeps (w : World) (db : DB) (folder id : nat) :
  deleted_file db id ->
  deleted_file (snd (DeletionTracker.scan_for_deleted_files w db folder)) id.
Proof.
  intros H. unfold DeletionTracker.scan_for_deleted_files.
  destruct (FolderCRUD.get db folder) as [fo|]; [|exact H]. cbv zeta.
  assert (G : forall l acc, deleted_file (snd acc) id ->
            deleted_file
              (snd (fold_left
                      (fun (acc : nat * DB) file =>
                         if negb (path_exists w (file_path file))
                         then (S (fst acc),
                               snd (DeletionTracker.mark_file_deleted (snd acc)
                                      (file_path file)))
                         else acc) l acc)) id).
  { induction l as [|x l IH]; intros acc Hacc; cbn [fold_left]; [exact Hacc|].
    apply IH. destruct (negb (path_exists w (file_path x))); [|exact Hacc].
    cbn [snd]. now apply mark_deleted_keeps. }
  now apply G.
Qed.

(** The search itself writes nothing: it runs on live rows only, so the
    deletion tracker is never asked. *)
Lemma search_db (w : World) (tracker : bool) (db : DB) (request : SearchRequest) :
  snd (SearchService.search w tracker db request) = db.
Proof.
  destruct (SimilarityCalculator.compute_query_embedding w (query request)
              (query_type request) (SearchService.target_modalities request))
    as [qe|msg] eqn:Hq.
  - destruct (search_results w tracker db request qe Hq) as (resp & db' & Hs & _ & _ & E).
    rewrite Hs. cbn [snd].
    rewrite build_response_live in E
      by (intros h Hh; now apply (spec_merge_live w db request qe h)).
    now injection E as _ ->.
  - unfold SearchService.search. now rewrite Hq.
Qed.

Lemma process_event_keeps_deleted (w : World) (db : DB) (event : FileEvent)
    (id : nat) :
  deleted_file db id -> deleted_file (IndexingWorker._process_event w db event) id.
Proof.
  intros H. unfold IndexingWorker._process_event.
  destruct (_ || _).
  - destruct H as (f & Hf & Hd). exists f. split; [|exact Hd].
    unfold FileCRUD.get.
    destruct (worker_index_file_effect w db (ev_path event)) as (_ & -> & _).
    exact Hf.
  - destruct (String.eqb _ _); [|exact H].
    now apply mark_deleted_keeps.
Qed.

Lemma perform_keeps_deleted (w : World) (db : DB) (op : operation) (id : nat) :
  deleted_file db id -> deleted_file (perform w db op) id.
Proof.
  intros H. destruct op as [event|now folder mode|folder|tracker request];
    cbn [perform].
  - now apply process_event_keeps_deleted.
  - eapply flags_kept_deleted; [|exact H].
    unfold IndexingService.index_folder.
    destruct (IndexingJobCRUD.create db _ folder) as [job db1] eqn:Hc. cbn [snd].
    apply (flags_kept_trans _ db1); [|apply perform_indexing_flags].
    apply flags_kept_same_files. unfold IndexingJobCRUD.create in Hc.
    now injection Hc as _ <-.
  - now apply audit_keeps.
  - now rewrite search_db.
Qed.

(** X13.  A soft delete is never taken back.  Whatever worker events, scan
    jobs, folder audits and searches follow, the file stays flagged, and
    neither [search] nor [find_similar_files] returns it: also when the
    file is back on disk and gets indexed again. *)
Theorem soft_delete_is_permanent (w : World) (db : DB) (id : nat)
    (ops : list operation) :
  deleted_file db id ->
  let db' := fold_left (perform w) ops db in
  deleted_file db' id
  /\ (forall tracker request resp db'',
         SearchService.search w tracker db' request = (Ok resp, db'') ->
         ~ In id (map res_file_id (results resp)))
  /\ (forall ref top_k threshold resp,
         SearchService.find_similar_files w db' ref top_k threshold = Ok resp ->
         ~ In id (map res_file_id (results resp))).
Proof.
  intros H db'.
  assert (H' : deleted_file db' id).
  { unfold db'. clear db'. revert db H.
    induction ops as [|op ops IH]; intros db H; cbn [fold_left]; [exact H|].
    apply IH. now apply perform_keeps_deleted. }
  split; [exact H'|]. destruct H' as (f0 & Hf0 & Hd0). split.
  - intros tracker request resp db'' Hs Hin.
    destruct (SimilarityCalculator.compute_query_embedding w (query request)
                (query_type request) (SearchService.target_modalities request))
      as [qe|msg] eqn:Hq.
    + destruct (search_results w tracker db' request qe Hq)
        as (resp' & db3 & Hs' & Hres & _).
      rewrite Hs in Hs'. injection Hs' as <- <-.
      rewrite Hres, map_map in Hin.
      apply in_map_iff in Hin as [h [Hid Hh]].
      apply spec_merge_live in Hh as [Hg Hlive].
      cbn in Hid. rewrite Hid in Hg. congruence.
    + unfold SearchService.search in Hs. rewrite Hq in Hs. discriminate.
  - intros ref top_k threshold resp Hs Hin.
    apply in_map_iff in Hin as [r [Hid Hr]].
    destruct (find_similar_files_In w db' ref top_k threshold resp r Hs Hr)
      as (_ & _ & _ & f & Hg & Hlive & _).
    rewrite Hid in Hg. congruence.
Qed.

End Permanence.


(** ** Query embeddings *)

Section QueryEmbeddings.

Import SimilarityCalculator.

Lemma str_in_In (x : string) (xs : list string) :
  Py.str_in x xs = true <-> In x xs.
Proof.
  unfold Py.str_in. rewrite existsb_exists. split.
  - intros [y [Hy E]]. apply String.eqb_eq in E. now subst.
  - intros H. exists x. split; [exact H | apply String.eqb_refl].
Qed.

Lemma dict_set_map_fst {V : Type} (d : list (string * V)) (k : string) (v : V) :
  map fst (dict_set d k v)
  = if Py.str_in k (map fst d) then map fst d else map fst d ++ [k].
Proof.
  induction d as [|[k' v'] d IH]; cbn; [reflexivity|].
  rewrite (String.eqb_sym k k').
  destruct (String.eqb k' k); cbn; [reflexivity|].
  rewrite IH. unfold Py.str_in. now destruct (existsb _ _).
Qed.

Lemma dict_set_keys {V : Type} (d : list (string * V)) (k : string) (v : V) :
  List.NoDup (map fst d) -> List.NoDup (map fst (dict_set d k v)).
Proof.
  intros Hnd. rewrite dict_set_map_fst.
  destruct (Py.str_in k (map fst d)) eqn:E; [exact Hnd|].
  apply NoDup_snoc; [exact Hnd|].
  intros Hin. apply str_in_In in Hin. congruence.
Qed.

Lemma dict_set_In {V : Type} (d : list (string * V)) (k : string) (v : V)
    (m : string) (x : V) :
  List.NoDup (map fst d) ->
  In (m, x) (dict_set d k v) <-> (m = k /\ x = v) \/ (m <> k /\ In (m, x) d).
Proof.
  induction d as [|[k' v'] d IH]; intros Hnd; cbn.
  - split.
    + intros [E|[]]. injection E as <- <-. now left.
    + intros [[-> ->]|[_ []]]. now left.
  - inversion Hnd as [|? ? Hnotin Hnd']; subst.
    destruct (String.eqb k' k) eqn:E.
    + apply String.eqb_eq in E. subst k'. cbn. split.
      * intros [Heq|Hin].
        -- injection Heq as <- <-. now left.
        -- right. split; [|now right].
           intros ->. apply Hnotin. apply (in_map fst) in Hin. exact Hin.
      * intros [[-> ->]|[Hne [Heq|Hin]]].
        -- now left.
        -- injection Heq as <- _. now contradiction Hne.
        -- now right.
    + apply String.eqb_neq in E. cbn. rewrite (IH Hnd'). split.
      * intros [Heq|[[-> ->]|[Hne Hin]]].
        -- injection Heq as <- <-. right. split; [exact E | now left].
        -- now left.
        -- right. split; [exact Hne | now right].
      * intros [[-> ->]|[Hne [Heq|Hin]]].
        -- right. now left.
        -- now left.
        -- right. right. now split.
Qed.

Lemma generate_text_target (w : World) (text m : string) :
  EmbeddingGenerator.generate_text_embedding w text
    (if String.eqb m "audio" then "audio"
     else if String.eqb m "video" then "video" else "audio_video")
  = EmbeddingGenerator.generate_text_embedding w text m.
Proof.
  unfold EmbeddingGenerator.generate_text_embedding.
  destruct (model_load_error w); [reflexivity|].
  destruct (String.eqb m "audio") eqn:Ea; [reflexivity|].
  destruct (String.eqb m "video") eqn:Ev; reflexivity.
Qed.

Lemma text_loop_spec (w : World) (text : string) (targets : list string) :
  forall acc d,
    text_loop w text targets acc = Ok d ->
    List.NoDup (map fst acc) ->
    (forall m v, In (m, v) acc ->
       EmbeddingGenerator.generate_text_embedding w text m = Ok (Some v)) ->
    List.NoDup (map fst d)
    /\ forall m v,
         In (m, v) d <->
         In (m, v) acc
         \/ (In m targets
             /\ EmbeddingGenerator.generate_text_embedding w text m = Ok (Some v)).
Proof.
  induction targets as [|t targets IH]; intros acc d H Hnd Hgood; cbn [text_loop] in H.
  - injection H as <-. split; [exact Hnd|]. intros m v. cbn. tauto.
  - rewrite generate_text_target in H.
    destruct (EmbeddingGenerator.generate_text_embedding w text t) as [[emb|]|msg] eqn:Hg;
      [| |discriminate].
    + assert (Hnd' : List.NoDup (map fst (dict_set acc t emb)))
        by now apply dict_set_keys.
      assert (Hgood' : forall m v, In (m, v) (dict_set acc t emb) ->
                EmbeddingGenerator.generate_text_embedding w text m = Ok (Some v)).
      { intros m v Hin. apply dict_set_In in Hin; [|exact Hnd].
        destruct Hin as [[-> ->]|[_ Hin]]; auto. }
      destruct (IH _ _ H Hnd' Hgood') as [Hk Hd]. split; [exact Hk|].
      intros m v. rewrite Hd, (dict_set_In acc t emb m v Hnd). cbn [In]. split.
      * intros [[[-> ->]|[_ Hin]]|[Hin Hgen]]; auto.
      * intros [Hin|[[<-|Hin] Hgen]].
        -- destruct (string_dec m t) as [->|Hne].
           ++ apply Hgood in Hin. left. left. split; congruence.
           ++ left. right. now split.
        -- left. left. split; congruence.
        -- right. now split.
    + destruct (IH _ _ H Hnd Hgood) as [Hk Hd]. split; [exact Hk|].
      intros m v. rewrite Hd. cbn [In]. split.
      * intros [Hin|[Hin Hgen]]; auto.
      * intros [Hin|[[<-|Hin] Hgen]]; auto. congruence.
Qed.

Lemma reuse_loop_spec (accepted : list string) (embedding : ndarray)
    (targets : list string) :
  List.NoDup (map fst (reuse_loop accepted embedding targets))
  /\ forall m v,
       In (m, v) (reuse_loop accepted embedding targets) <->
       In m targets /\ In m accepted /\ v = embedding.
Proof.
  unfold reuse_loop.
  assert (G : forall acc,
            List.NoDup (map fst acc) ->
            (forall m v, In (m, v) acc -> v = embedding) ->
            let d := fold_left
                       (fun d modality =>
                          if Py.str_in modality accepted
                          then dict_set d modality embedding else d)
                       targets acc in
            List.NoDup (map fst d)
            /\ forall m v,
                 In (m, v) d <->
                 In (m, v) acc \/ (In m targets /\ In m accepted /\ v = embedding)).
  { induction targets as [|t targets IH]; intros acc Hnd Hgood; cbn [fold_left].
    - split; [exact Hnd|]. intros m v. cbn. tauto.
    - destruct (Py.str_in t accepted) eqn:Ht.
      + apply str_in_In in Ht.
        assert (Hnd' : List.NoDup (map fst (dict_set acc t embedding)))
          by now apply dict_set_keys.
        assert (Hgood' : forall m v, In (m, v) (dict_set acc t embedding) ->
                  v = embedding).
        { intros m v Hin. apply dict_set_In in Hin; [|exact Hnd].
          destruct Hin as [[_ ->]|[_ Hin]]; eauto. }
        destruct (IH _ Hnd' Hgood') as [Hk Hd]. split; [exact Hk|].
        intros m v. rewrite Hd, (dict_set_In acc t embedding m v Hnd). cbn [In].
        split.
        * intros [[[-> ->]|[_ Hin]]|(Hin & Ha & ->)]; auto.
        * intros [Hin|([<-|Hin] & Ha & ->)].
          -- destruct (string_dec m t) as [->|Hne].
             ++ apply Hgood in Hin. left. left. now split.
             ++ left. right. now split.
          -- left. left. now split.
          -- right. now repeat split.
      + destruct (IH _ Hnd Hgood) as [Hk Hd]. split; [exact Hk|].
        intros m v. rewrite Hd. cbn [In]. split.
        * intros [Hin|(Hin & Ha & ->)]; auto.
        * intros [Hin|([<-|Hin] & Ha & ->)]; auto.
          apply str_in_In in Ha. congruence. }
  destruct (G [] (List.NoDup_nil _) (fun m v (H : In (m, v) []) => match H with end))
    as [Hk Hd].
  split; [exact Hk|]. intros m v. rewrite Hd. cbn. tauto.
Qed.

(** The entries of the dict, from both sides. *)
Lemma query_embedding_spec (w : World) (query query_type : string)
    (targets : list string) (d : list (string * ndarray)) :
  compute_query_embedding w query query_type targets = Ok d ->
  List.NoDup (map fst d)
  /\ forall m v,
       In (m, v) d <->
       In m targets
       /\ ((query_type = "text"
            /\ EmbeddingGenerator.generate_text_embedding w query m = Ok (Some v))
           \/ (query_type = "audio" /\ In m ["audio"; "audio_video"]
               /\ EmbeddingGenerator.generate_audio_embedding w query = Ok (Some v))
           \/ (query_type = "video" /\ In m ["video"; "audio_video"]
               /\ EmbeddingGenerator.generate_video_embedding w query = Ok (Some v))).
Proof.
  unfold compute_query_embedding. intros H.
  destruct (String.eqb query_type "text") eqn:Et.
  { apply String.eqb_eq in Et. subst query_type.
    destruct (text_loop_spec w query targets [] d H (List.NoDup_nil _)
                (fun m v (Hin : In (m, v) []) => match Hin with end)) as [Hk Hd].
    split; [exact Hk|]. intros m v. rewrite Hd. cbn [In]. split.
    - intros [[]|[Hin Hg]]. split; [exact Hin|]. left. now split.
    - intros [Hin [[_ Hg]|[[E _]|[E _]]]]; try discriminate. right. now split. }
  apply String.eqb_neq in Et.
  destruct (String.eqb query_type "audio") eqn:Ea.
  { apply String.eqb_eq in Ea. subst query_type.
    destruct (EmbeddingGenerator.generate_audio_embedding w query)
      as [[embedding|]|msg] eqn:Hg; [| |discriminate]; injection H as <-.
    - destruct (reuse_loop_spec ["audio"; "audio_video"] embedding targets) as [Hk Hd].
      split; [exact Hk|]. intros m v. rewrite Hd. split.
      + intros (Hin & Ha & ->). split; [exact Hin|]. right. left. now repeat split.
      + intros [Hin [[E _]|[(_ & Ha & Hv)|[E _]]]]; try discriminate.
        injection Hv as <-. now repeat split.
    - split; [constructor|]. intros m v. split; [intros []|].
      intros [_ [[E _]|[(_ & _ & Hv)|[E _]]]]; discriminate. }
  apply String.eqb_neq in Ea.
  destruct (String.eqb query_type "video") eqn:Ev.
  { apply String.eqb_eq in Ev. subst query_type.
    destruct (EmbeddingGenerator.generate_video_embedding w query)
      as [[embedding|]|msg] eqn:Hg; [| |discriminate]; injection H as <-.
    - destruct (reuse_loop_spec ["video"; "audio_video"] embedding targets) as [Hk Hd].
      split; [exact Hk|]. intros m v. rewrite Hd. split.
      + intros (Hin & Ha & ->). split; [exact Hin|]. right. right. now repeat split.
      + intros [Hin [[E _]|[[E _]|(_ & Ha & Hv)]]]; try discriminate.
        injection Hv as <-. now repeat split.
    - split; [constructor|]. intros m v. split; [intros []|].
      intros [_ [[E _]|[[E _]|(_ & _ & Hv)]]]; discriminate. }
  apply String.eqb_neq in Ev. injection H as <-.
  split; [constructor|]. intros m v. split; [intros []|].
  intros [_ [[E _]|[[E _]|[E _]]]]; congruence.
Qed.

(** X14.  The dict [compute_query_embedding] returns has one entry per
    modality, and exactly these: for a text query, the target modalities
    for which the text embedding is there, with that embedding; for an
    audio query, the targets among audio and audio_video, all with the
    one audio embedding; for a video query, the targets among video and
    audio_video, with the one video embedding; for another query type,
    none. *)
Theorem query_embedding_entries (w : World) (query query_type : string)
    (targets : list string) (d : list (string * ndarray)) :
  compute_query_embedding w query query_type targets = Ok d ->
  List.NoDup (map fst d)
  /\ forall m v,
       In (m, v) d <->
       In m targets
       /\ ((query_type = "text"
            /\ EmbeddingGenerator.generate_text_embedding w query m = Ok (Some v))
           \/ (query_type = "audio" /\ In m ["audio"; "audio_video"]
               /\ EmbeddingGenerator.generate_audio_embedding w query = Ok (Some v))
           \/ (query_type = "video" /\ In m ["video"; "audio_video"]
               /\ EmbeddingGenerator.generate_video_embedding w query = Ok (Some v))).
Proof. exact (query_embedding_spec w query query_type targets d). Qed.

Lemma join_embedding_In (db : DB) (f : File) (e : Embedding) :
  In (f, e) (EmbeddingCRUD.join_file_embedding db) -> In e (embeddings db).
Proof.
  unfold EmbeddingCRUD.join_file_embedding. rewrite in_flat_map.
  intros [e' [He' Hin]].
  destruct (FileCRUD.get db (emb_file_id e')); [|contradiction].
  destruct Hin as [Heq|[]]. now injection Heq as _ <-.
Qed.

(** X15.  A search compares the query only with stored embeddings of a
    modality the query type goes with.  Every result is backed by an
    embedding row of the returned file whose modality is one of the
    target modalities (an empty modality name among the targets filters
    nothing); for an audio query that modality is audio or audio_video,
    for a video query video or audio_video.  A query whose type is none
    of text, audio and video gets the empty answer. *)
Theorem search_compares_compatible_modalities (w : World) (tracker : bool)
    (db : DB) (request : SearchRequest) (resp : SearchResponse) (db' : DB) :
  SearchService.search w tracker db request = (Ok resp, db') ->
  Forall
    (fun r =>
       exists e m,
         In e (embeddings db)
         /\ emb_file_id e = res_file_id r
         /\ In m (SearchService.target_modalities request)
         /\ (m = "" \/ emb_modality e = Some m)
         /\ (query_type request = "audio" -> In m ["audio"; "audio_video"])
         /\ (query_type request = "video" -> In m ["video"; "audio_video"]))
    (results resp)
  /\ (query_type request <> "text" -> query_type request <> "audio" ->
      query_type request <> "video" -> resp = SearchService.empty_response).
Proof.
  intros Hs.
  destruct (compute_query_embedding w (query request) (query_type request)
              (SearchService.target_modalities request)) as [qe|msg] eqn:Hq;
    [|unfold SearchService.search in Hs; rewrite Hq in Hs; discriminate].
  split.
  - destruct (query_embedding_spec w _ _ _ _ Hq) as [_ Hd].
    destruct (search_results w tracker db request qe Hq)
      as (resp' & db2 & Hs' & Hres & _).
    rewrite Hs in Hs'. injection Hs' as <- <-.
    rewrite List.Forall_forall. intros r Hr. rewrite Hres in Hr.
    apply in_map_iff in Hr as [h [<- Hh]].
    apply spec_merge_In in Hh as [[m q] [He Hh]].
    unfold SearchService.modality_top_k in Hh. cbn [fst snd] in Hh.
    apply in_map_iff in Hh as [[f s] [<- Hin]].
    apply search_similar_In in Hin as [_ [e [Hj Hc]]].
    apply Hd in He as [Hm Hcases].
    exists e, m. split; [eapply join_embedding_In; exact Hj|].
    split; [symmetry; eapply join_file_id; exact Hj|].
    split; [exact Hm|]. split.
    + unfold EmbeddingCRUD.candidate in Hc. cbn [truthy_str] in Hc.
      destruct (String.eqb m "") eqn:Em; [left; now apply String.eqb_eq|].
      right. cbn [negb] in Hc.
      apply andb_prop in Hc as [Hc _]. apply andb_prop in Hc as [Hc _].
      apply andb_prop in Hc as [_ Hc].
      destruct (emb_modality e) as [m'|]; [|discriminate].
      apply String.eqb_eq in Hc. now subst.
    + split; intros E; rewrite E in Hcases;
        destruct Hcases as [[E' _]|[(E' & Ha & _)|(E' & Ha & _)]];
        try discriminate; exact Ha.
  - intros Ht Ha Hv. unfold compute_query_embedding in Hq.
    apply String.eqb_neq in Ht, Ha, Hv. rewrite Ht, Ha, Hv in Hq.
    injection Hq as <-. unfold SearchService.search in Hs.
    unfold compute_query_embedding in Hs. rewrite Ht, Ha, Hv in Hs.
    now injection Hs as <- _.
Qed.

End QueryEmbeddings.


(** ** Folders: registration and removal *)

Section Folders.

Import FolderRoutes.

Lemma NoDup_map_filter {A B : Type} (k : A -> B) (p : A -> bool) (l : list A) :
  List.NoDup (map k l) -> List.NoDup (map k (List.filter p l)).
Proof.
  induction l as [|x l IH]; cbn; intros H; [constructor|].
  inversion H as [|? ? Hnotin Hnd]; subst.
  destruct (p x); cbn; [|now apply IH].
  constructor; [|now apply IH].
  intros Hin. apply Hnotin. apply in_map_iff in Hin as [y [E Hy]].
  apply filter_In in Hy as [Hy _]. rewrite <- E. now apply in_map.
Qed.

Lemma filter_filter_implied {A : Type} (p q : A -> bool) (l : list A) :
  (forall x, In x l -> p x = true -> q x = true) ->
  List.filter p (List.filter q l) = List.filter p l.
Proof.
  induction l as [|x l IH]; cbn; intros H; [reflexivity|].
  destruct (q x) eqn:Hq; cbn.
  - rewrite IH by (intros y Hy; apply H; now right). reflexivity.
  - destruct (p x) eqn:Hp.
    + rewrite (H x (or_introl eq_refl) Hp) in Hq. discriminate.
    + apply IH. intros y Hy; apply H; now right.
Qed.

Lemma find_filter_implied {A : Type} (p q : A -> bool) (l : list A) :
  (forall x, In x l -> p x = true -> q x = true) ->
  List.find p (List.filter q l) = List.find p l.
Proof.
  induction l as [|x l IH]; cbn; intros H; [reflexivity|].
  destruct (q x) eqn:Hq; cbn.
  - destruct (p x); [reflexivity|]. apply IH. intros y Hy; apply H; now right.
  - destruct (p x) eqn:Hp.
    + rewrite (H x (or_introl eq_refl) Hp) in Hq. discriminate.
    + apply IH. intros y Hy; apply H; now right.
Qed.

Lemma filter_nil {A : Type} (p : A -> bool) (l : list A) :
  (forall x, In x l -> p x = false) -> List.filter p l = [].
Proof.
  induction l as [|x l IH]; cbn; intros H; [reflexivity|].
  rewrite (H x (or_introl eq_refl)). apply IH. intros y Hy; apply H; now right.
Qed.

Lemma key_unique {A : Type} (k : A -> nat) (l : list A) (x y : A) :
  List.NoDup (map k l) -> In x l -> In y l -> k x = k y -> x = y.
Proof.
  induction l as [|z l IH]; cbn; intros Hnd Hx Hy E; [contradiction|].
  inversion Hnd as [|? ? Hnotin Hnd']; subst.
  destruct Hx as [->|Hx], Hy as [->|Hy]; auto.
  - exfalso. apply Hnotin. rewrite E. now apply in_map.
  - exfalso. apply Hnotin. rewrite <- E. now apply in_map.
Qed.





Lemma existsb_eqb_In (k : nat) (l : list nat) :
  existsb (Nat.eqb k) l = true <-> In k l.
Proof.
  rewrite existsb_exists. split.
  - intros [y [Hy E]]. apply Nat.eqb_eq in E. now subst.
  - intros H. exists k. split; [exact H | apply Nat.eqb_refl].
Qed.

(** X17.  Removing a folder takes its files and their embeddings with it
    and nothing else.  The constraints of the schema still hold, the
    folder is gone, none of its files and none of their embedding rows is
    left, no job refers to it, and every other folder keeps its row, its
    files, and the embedding rows of its files. *)
Theorem folder_delete_cascade (db : DB) (id : nat) (fo : Folder) :
  consistent db ->
  FolderCRUD.get db id = Some fo ->
  let db' := snd (FolderCRUD.delete db id) in
  fst (FolderCRUD.delete db id) = true
  /\ consistent db'
  /\ FolderCRUD.get db' id = None
  /\ get_folder db' id = HTTPException 404
  /\ (forall f, In f (files db) -> file_folder_id f = id ->
        FileCRUD.get db' (file_id f) = None
        /\ EmbeddingCRUD.get_by_file db' (file_id f) = [])
  /\ (forall j, In j (jobs db') -> job_folder_id j <> Some id)
  /\ map job_id (jobs db') = map job_id (jobs db)
  /\ (forall k, k <> id ->
        FolderCRUD.get db' k = FolderCRUD.get db k
        /\ FileCRUD.list_by_folder db' k true = FileCRUD.list_by_folder db k true)
  /\ (forall f, In f (files db) -> file_folder_id f <> id ->
        FileCRUD.get db' (file_id f) = Some f
        /\ EmbeddingCRUD.get_by_file db' (file_id f)
           = EmbeddingCRUD.get_by_file db (file_id f)).
Proof.
  intros ((U1 & U2 & U3 & U4 & U5 & U6) & (Hrf & Hre) & Ho) Hg db'.
  unfold db', FolderCRUD.delete. rewrite Hg. cbn [fst snd].
  set (gone := fun f : File => Nat.eqb (file_folder_id f) id).
  set (gone_ids := map file_id (List.filter gone (files db))).
  assert (Hgone : forall f, In f (files db) ->
            (In (file_id f) gone_ids <-> file_folder_id f = id)).
  { intros f Hf. unfold gone_ids. rewrite in_map_iff. split.
    - intros [g [E Hin]]. apply filter_In in Hin as [Hin Hgn].
      rewrite (key_unique file_id (files db) f g U3 Hf Hin (eq_sym E)).
      now apply Nat.eqb_eq in Hgn.
    - intros E. exists f. split; [reflexivity|]. apply filter_In.
      split; [exact Hf | now apply Nat.eqb_eq]. }
  split; [reflexivity|]. split; [|split; [|split; [|split; [|split; [|split; [|split]]]]]].
  - split; [|split].
    + unfold unique_keys. cbn [folders files embeddings jobs].
      repeat match goal with |- _ /\ _ => split end;
        try (now apply NoDup_map_filter).
      rewrite map_map.
      replace (map _ (jobs db)) with (map job_id (jobs db)); [exact U6|].
      apply map_ext. intros j. destruct (job_folder_id j) as [k|]; [|reflexivity].
      now destruct (Nat.eqb k id).
    + split; cbn [folders files embeddings].
      * intros f Hf. apply filter_In in Hf as [Hf Hn].
        pose proof (Hrf f Hf) as Hin. apply in_map_iff in Hin as [g [E Hgin]].
        apply in_map_iff. exists g. split; [exact E|]. apply filter_In.
        split; [exact Hgin|]. rewrite E. exact Hn.
      * intros e He. apply filter_In in He as [He Hn].
        pose proof (Hre e He) as Hin. apply in_map_iff in Hin as [f [E Hf]].
        apply in_map_iff. exists f. split; [exact E|]. apply filter_In.
        split; [exact Hf|]. unfold gone.
        destruct (Nat.eqb (file_folder_id f) id) eqn:Hfo; [|reflexivity].
        apply Nat.eqb_eq in Hfo. apply (Hgone f Hf) in Hfo.
        rewrite E in Hfo. apply existsb_eqb_In in Hfo.
        fold gone_ids in Hn. rewrite Hfo in Hn. discriminate.
    + intros file. unfold EmbeddingCRUD.get_by_file. cbn [embeddings].
      rewrite filter_comm.
      etransitivity; [apply filter_length_le'|]. apply Ho.
  - unfold FolderCRUD.get. cbn [folders].
    destruct (List.find _ _) as [x|] eqn:Hx; [|reflexivity].
    apply find_some in Hx as [Hin Heq]. apply filter_In in Hin as [_ Hn].
    rewrite Heq in Hn. discriminate.
  - unfold get_folder, FolderCRUD.get. cbn [folders].
    destruct (List.find _ _) as [x|] eqn:Hx; [|reflexivity].
    apply find_some in Hx as [Hin Heq]. apply filter_In in Hin as [_ Hn].
    rewrite Heq in Hn. discriminate.
  - intros f Hf Hfo. split.
    + unfold FileCRUD.get. cbn [files].
      destruct (List.find _ _) as [x|] eqn:Hx; [|reflexivity].
      apply find_some in Hx as [Hin Heq]. apply filter_In in Hin as [Hin Hn].
      apply Nat.eqb_eq in Heq.
      rewrite (key_unique file_id (files db) x f U3 Hin Hf Heq) in Hn.
      unfold gone in Hn. apply Nat.eqb_eq in Hfo. rewrite Hfo in Hn. discriminate.
    + unfold EmbeddingCRUD.get_by_file. cbn [embeddings].
      apply filter_nil. intros e Hin. apply filter_In in Hin as [_ Hn].
      destruct (Nat.eqb (emb_file_id e) (file_id f)) eqn:Heq; [|reflexivity].
      apply Nat.eqb_eq in Heq.
      apply (Hgone f Hf) in Hfo. rewrite <- Heq in Hfo.
      apply existsb_eqb_In in Hfo. fold gone_ids in Hn. rewrite Hfo in Hn.
      discriminate.
  - cbn [jobs]. intros j Hj. apply in_map_iff in Hj as [j0 [E Hj0]].
    destruct (job_folder_id j0) as [k|] eqn:Hk.
    + destruct (Nat.eqb k id) eqn:Hki; subst j; cbn.
      * discriminate.
      * rewrite Hk. apply Nat.eqb_neq in Hki. congruence.
    + subst j. rewrite Hk. discriminate.
  - cbn [jobs]. rewrite map_map. apply map_ext. intros j.
    destruct (job_folder_id j) as [k|]; [|reflexivity]. now destruct (Nat.eqb k id).
  - intros k Hk. split.
    + unfold FolderCRUD.get. cbn [folders]. apply find_filter_implied.
      intros x _ Hx. apply Nat.eqb_eq in Hx. rewrite Hx.
      apply negb_true_iff, Nat.eqb_neq. exact Hk.
    + unfold FileCRUD.list_by_folder. cbn [files negb].
      apply filter_filter_implied. intros x _ Hx. apply Nat.eqb_eq in Hx.
      unfold gone. rewrite Hx. apply negb_true_iff, Nat.eqb_neq. exact Hk.
  - intros f Hf Hfo. split.
    + unfold FileCRUD.get. cbn [files]. rewrite find_filter_implied.
      * apply (find_key_unique file_id); auto.
      * intros x Hx Hk. apply Nat.eqb_eq in Hk.
        rewrite (key_unique file_id (files db) x f U3 Hx Hf Hk).
        unfold gone. apply negb_true_iff, Nat.eqb_neq. exact Hfo.
    + unfold EmbeddingCRUD.get_by_file. cbn [embeddings].
      apply filter_filter_implied. intros e _ He. apply Nat.eqb_eq in He.
      apply negb_true_iff. destruct (existsb _ _) eqn:Hex; [|reflexivity].
      fold gone_ids in Hex. apply existsb_eqb_In in Hex. rewrite He in Hex.
      apply (Hgone f Hf) in Hex. contradiction.
Qed.

End Folders.


(** ** Embedding rows: store, read back, remove *)

Section EmbeddingRows.

Import EmbeddingCRUD.

(** X18.  A stored vector is read back under the key of its row, as long
    as the payload format gives the vector back; the rows that were there
    read as before; removing the embeddings of the file then reports one
    row more than the file had, leaves the file without rows and the new
    key without a vector, does not touch the rows of other files, and
    gives the table that removing without storing first gives. *)
Theorem embedding_rows_round_trip (w : World) (db : DB) (file : nat) (v : ndarray)
    (modality : option string) (etype : string) :
  deserialize_array w (serialize_array w v) = v ->
  let e := fst (create w db file v modality etype) in
  let db1 := snd (create w db file v modality etype) in
  let db2 := snd (delete_by_file db1 file) in
  get_vector w db1 (emb_id e) = Some v
  /\ (forall e0, In e0 (embeddings db) ->
        get_vector w db1 (emb_id e0) = get_vector w db (emb_id e0))
  /\ get_by_file db1 file = get_by_file db file ++ [e]
  /\ fst (delete_by_file db1 file) = S (length (get_by_file db file))
  /\ get_by_file db2 file = []
  /\ get_vector w db2 (emb_id e) = None
  /\ (forall other, other <> file -> get_by_file db2 other = get_by_file db other)
  /\ embeddings db2 = embeddings (snd (delete_by_file db file)).
Proof.
  intros Hrt e db1 db2.
  assert (Hfresh : List.find (fun x => Nat.eqb (emb_id x) (emb_id e)) (embeddings db)
                   = None).
  { destruct (List.find _ _) as [x|] eqn:Hx; [|reflexivity].
    apply find_some in Hx as [Hin Heq]. apply Nat.eqb_eq in Heq.
    exfalso. exact (next_id_fresh emb_id (embeddings db) x Hin Heq). }
  assert (Hdel : embeddings db2 = embeddings (snd (delete_by_file db file))).
  { unfold db2, db1, delete_by_file, create. cbn [snd embeddings with_embeddings].
    rewrite List.filter_app. cbn. rewrite Nat.eqb_refl. cbn. apply app_nil_r. }
  split; [|split; [|split; [|split; [|split; [|split; [|split]]]]]].
  - unfold get_vector, db1, create. cbn [snd embeddings with_embeddings].
    rewrite find_app. fold e. rewrite Hfresh. cbn [List.find].
    rewrite Nat.eqb_refl. unfold e, create. cbn [fst vector]. now rewrite Hrt.
  - intros e0 He0. unfold get_vector, db1, create.
    cbn [snd embeddings with_embeddings]. rewrite find_app.
    destruct (List.find (fun x => Nat.eqb (emb_id x) (emb_id e0)) (embeddings db))
      eqn:Hx; [reflexivity|].
    apply (find_none _ _ Hx) in He0. rewrite Nat.eqb_refl in He0. discriminate.
  - unfold get_by_file, db1, create. cbn [snd embeddings with_embeddings].
    rewrite List.filter_app. cbn. now rewrite Nat.eqb_refl.
  - unfold delete_by_file, get_by_file, db1, create.
    cbn [fst snd embeddings with_embeddings].
    rewrite List.filter_app, length_app. cbn. rewrite Nat.eqb_refl. cbn. lia.
  - unfold get_by_file. rewrite Hdel. unfold delete_by_file.
    cbn [snd embeddings with_embeddings].
    apply filter_nil. intros x Hx. apply filter_In in Hx as [_ Hn].
    now apply negb_true_iff in Hn.
  - unfold get_vector. rewrite Hdel. unfold delete_by_file.
    cbn [snd embeddings with_embeddings]. rewrite find_filter_implied.
    + now rewrite Hfresh.
    + intros x Hx Hk. apply Nat.eqb_eq in Hk. exfalso.
      exact (next_id_fresh emb_id (embeddings db) x Hx Hk).
  - intros other Hne. unfold get_by_file. rewrite Hdel. unfold delete_by_file.
    cbn [snd embeddings with_embeddings]. apply filter_filter_implied.
    intros x _ Hx. apply Nat.eqb_eq in Hx. rewrite Hx.
    apply negb_true_iff, Nat.eqb_neq. exact Hne.
  - exact Hdel.
Qed.

End EmbeddingRows.


(** ** What a scan job leaves in the tables *)

Section ScanResult.

Import IndexingService.

Lemma prefix_app (a b s : string) :
  String.prefix (a +:+ b) s = true -> String.prefix a s = true.
Proof.
  revert s. induction a as [|c a IH]; intros s H; [now destruct s|].
  change (String c a +:+ b) with (String c (a +:+ b)) in H.
  destruct s as [|c' s]; cbn in *; [discriminate|].
  destruct (ascii_dec c c'); [now apply IH | discriminate].
Qed.

Lemma folders_to_index_In (db : DB) (folder : option nat) (fo : Folder) :
  In fo (folders_to_index db folder) -> In fo (folders db) /\ is_active fo = true.
Proof.
  assert (L : In fo (FolderCRUD.list_all db true) ->
              In fo (folders db) /\ is_active fo = true)
    by (unfold FolderCRUD.list_all; apply filter_In).
  unfold folders_to_index. destruct folder as [[|n]|]; try exact L.
  destruct (FolderCRUD.get db (S n)) as [g|] eqn:Hg; [|intros []].
  destruct (is_active g) eqn:Ha; [|intros []].
  intros [<-|[]]. split; [|exact Ha].
  unfold FolderCRUD.get in Hg. now apply find_some in Hg as [Hin _].
Qed.

Lemma scan_folder_In (w : World) (folder_path modality : string) (fi : ScanInfo) :
  In fi (_scan_folder w folder_path modality) ->
  Py.startswith (scan_path fi) (folder_path +:+ "/") = true
  /\ scan_modality fi = ModalityDetector.detect (scan_path fi).
Proof.
  unfold _scan_folder. rewrite in_flat_map. intros [ext [_ Hin]].
  apply in_flat_map in Hin as [e [He Hin]].
  destruct (fs_is_file (snd e)); [|contradiction].
  destruct Hin as [<-|[]]. cbn.
  unfold rglob in He. apply filter_In in He as [_ Hp].
  apply andb_prop in Hp as [Hp _]. now split.
Qed.

Lemma collect_files_In (w : World) (db : DB) (folder : option nat) (fi : ScanInfo) :
  In fi (collect_files w (folders_to_index db folder)) ->
  find_folder_id db (scan_path fi) <> None
  /\ scan_modality fi = ModalityDetector.detect (scan_path fi).
Proof.
  unfold collect_files. rewrite in_flat_map. intros [fo [Hfo Hin]].
  apply scan_folder_In in Hin as [Hp Hm]. split; [|exact Hm].
  apply folders_to_index_In in Hfo as [Hfo Ha].
  rewrite find_folder_id_first.
  destruct (List.find _ (folders db)) eqn:Hf; [discriminate|].
  apply (find_none _ _ Hf) in Hfo. rewrite Ha in Hfo. cbn in Hfo.
  unfold Py.startswith in *. apply prefix_app in Hp. congruence.
Qed.

Lemma indexed_as_same (w : World) (d d' : DB) (p : string) (v : ndarray) :
  files d' = files d -> embeddings d' = embeddings d ->
  indexed_as w d p v -> indexed_as w d' p v.
Proof.
  intros Hf He (f & Hg & Hne & Hall). exists f.
  unfold FileCRUD.get_by_path, EmbeddingCRUD.get_by_file in *.
  rewrite Hf, He. auto.
Qed.

Lemma filter_update_rows_other {R : Type} (key : R -> nat) (k k' : nat)
    (g : R -> R) (l : list R) :
  (forall r, key (g r) = key r) -> k <> k' ->
  List.filter (fun r => Nat.eqb (key r) k') (update_rows key k g l)
  = List.filter (fun r => Nat.eqb (key r) k') l.
Proof.
  intros Hk Hne. induction l as [|r l IH]; [reflexivity|].
  unfold update_rows in *. cbn [map List.filter]. rewrite IH.
  destruct (Nat.eqb (key r) k) eqn:E; [|reflexivity].
  rewrite Hk. apply Nat.eqb_eq in E.
  assert (E' : Nat.eqb (key r) k' = false) by (apply Nat.eqb_neq; congruence).
  now rewrite E'.
Qed.

Lemma resolve_file_spec (w : World) (d d1 : DB) (path : string) (file : File) :
  resolve_file w d path = Some (file, d1) ->
  FileCRUD.get_by_path d1 path = Some file
  /\ embeddings d1 = embeddings d
  /\ folders d1 = folders d
  /\ (forall p f, FileCRUD.get_by_path d p = Some f ->
        FileCRUD.get_by_path d1 p = Some f).
Proof.
  unfold resolve_file.
  destruct (FileCRUD.get_by_path d path) as [f0|] eqn:Hg.
  - intros H. injection H as <- <-. auto.
  - destruct (find_folder_id d path) as [fid|]; [|discriminate].
    intros H. injection H as <- <-.
    split; [now apply create_get_by_path|]. split; [reflexivity|].
    split; [reflexivity|].
    intros p f Hp. unfold FileCRUD.get_by_path in *. cbn. now rewrite find_app, Hp.
Qed.

Lemma resolve_file_Some (w : World) (d : DB) (path : string) :
  find_folder_id d path <> None \/ FileCRUD.get_by_path d path <> None ->
  resolve_file w d path <> None.
Proof.
  unfold resolve_file. intros H.
  destruct (FileCRUD.get_by_path d path); [discriminate|].
  destruct (find_folder_id d path); [discriminate|]. now destruct H.
Qed.

(** The upsert for [file] makes its path indexed with the vector
    written. *)
Lemma upsert_indexes (w : World) (d : DB) (now : Z) (file : File)
    (m : option string) (v : ndarray) (p : string) :
  FileCRUD.get_by_path d p = Some file ->
  indexed_as w (upsert_embedding w d now file m v) p v.
Proof.
  intros Hg.
  destruct (upsert_get_by_path w d now file m v p file Hg) as (f' & Hf' & Hcase).
  assert (Hid : file_id f' = file_id file) by (destruct Hcase; now subst).
  exists f'. split; [exact Hf'|]. rewrite Hid. unfold upsert_embedding.
  destruct (EmbeddingCRUD.get_by_file d (file_id file)) as [|e0 es] eqn:Hrows.
  - unfold EmbeddingCRUD.get_by_file in *. cbn [snd EmbeddingCRUD.create embeddings
      with_embeddings]. rewrite List.filter_app, Hrows. cbn.
    rewrite Nat.eqb_refl. split; [discriminate|].
    intros e [<-|[]]. reflexivity.
  - unfold EmbeddingCRUD.get_by_file in *.
    rewrite update_indexed_at_embeddings. cbn [embeddings with_embeddings]. split.
    + intros E. apply (f_equal (@length _)) in E.
      rewrite filter_update_rows_length in E by reflexivity.
      rewrite Hrows in E. discriminate.
    + intros e He. apply filter_In in He as [Hin Hk]. apply Nat.eqb_eq in Hk.
      apply update_rows_In_key in Hin as [r0 [_ ->]]; [reflexivity|reflexivity|exact Hk].
Qed.

(** The upsert for another file leaves an indexed path as it is. *)
Lemma upsert_keeps_indexed (w : World) (d : DB) (now : Z) (file : File)
    (m : option string) (v' : ndarray) (p : string) (v : ndarray) (f : File) :
  FileCRUD.get_by_path d p = Some f ->
  file_id file <> file_id f ->
  indexed_as w d p v ->
  indexed_as w (upsert_embedding w d now file m v') p v.
Proof.
  intros Hg Hne (f0 & Hg0 & Hrows & Hall). rewrite Hg in Hg0. injection Hg0 as <-.
  destruct (upsert_get_by_path w d now file m v' p f Hg) as (f' & Hf' & Hcase).
  assert (Hid : file_id f' = file_id f) by (destruct Hcase; now subst).
  exists f'. split; [exact Hf'|]. rewrite Hid.
  assert (E : EmbeddingCRUD.get_by_file (upsert_embedding w d now file m v') (file_id f)
              = EmbeddingCRUD.get_by_file d (file_id f)).
  { unfold upsert_embedding.
    destruct (EmbeddingCRUD.get_by_file d (file_id file)) as [|e0 es].
    - unfold EmbeddingCRUD.get_by_file. cbn [snd EmbeddingCRUD.create embeddings
        with_embeddings]. rewrite List.filter_app. cbn.
      apply Nat.eqb_neq in Hne. rewrite Hne. apply app_nil_r.
    - unfold EmbeddingCRUD.get_by_file.
      rewrite update_indexed_at_embeddings. cbn [embeddings with_embeddings].
      now apply filter_update_rows_other. }
  rewrite E. now split.
Qed.

Lemma increment_progress_tables (d : DB) (job p f : nat) :
  files (IndexingJobCRUD.increment_progress d job p f) = files d
  /\ embeddings (IndexingJobCRUD.increment_progress d job p f) = embeddings d
  /\ folders (IndexingJobCRUD.increment_progress d job p f) = folders d.
Proof.
  unfold IndexingJobCRUD.increment_progress.
  now destruct (IndexingJobCRUD.get d job).
Qed.

Lemma upsert_folders (w : World) (d : DB) (now : Z) (file : File)
    (m : option string) (v : ndarray) :
  folders (upsert_embedding w d now file m v) = folders d.
Proof.
  unfold upsert_embedding.
  destruct (EmbeddingCRUD.get_by_file d (file_id file)); [reflexivity|].
  unfold FileCRUD.update_indexed_at. now destruct (FileCRUD.get _ _).
Qed.

Lemma process_file_folders (w : World) (now : Z) (job : nat) (d : DB)
    (fi : ScanInfo) :
  folders (process_file w now job d fi) = folders d.
Proof.
  unfold process_file.
  assert (H : folders (snd (_index_file w d now fi)) = folders d).
  { unfold _index_file. destruct (negb _); [reflexivity|].
    destruct (resolve_file w d (scan_path fi)) as [[file d1]|] eqn:Hr; [|reflexivity].
    apply resolve_file_spec in Hr as (_ & _ & Hfo & _).
    destruct (EmbeddingGenerator.generate_embedding_for_file _ _ _) as [[v|]|msg];
      cbn [snd]; try exact Hfo.
    now rewrite upsert_folders. }
  destruct (_index_file w d now fi) as [[u|msg] d1]; cbn [snd] in H;
    destruct (increment_progress_tables d1 job 1 0) as (_ & _ & H0);
    destruct (increment_progress_tables d1 job 1 1) as (_ & _ & H1); congruence.
Qed.

(** Processing a valid candidate for which the provider has a vector
    makes its path indexed with that vector. *)
Lemma process_file_indexes (w : World) (now : Z) (job : nat) (d : DB)
    (fi : ScanInfo) (v : ndarray) :
  FileProcessor.validate_file w (scan_path fi) = true ->
  find_folder_id d (scan_path fi) <> None
    \/ FileCRUD.get_by_path d (scan_path fi) <> None ->
  EmbeddingGenerator.generate_embedding_for_file w (scan_path fi) (scan_modality fi)
    = Ok (Some v) ->
  indexed_as w (process_file w now job d fi) (scan_path fi) v.
Proof.
  intros Hv Hres Hgen. unfold process_file, _index_file. rewrite Hv. cbn [negb].
  pose proof (resolve_file_Some w d (scan_path fi) Hres) as Hsome.
  destruct (resolve_file w d (scan_path fi)) as [[file d1]|] eqn:Hr; [|contradiction].
  apply resolve_file_spec in Hr as (Hg1 & _). rewrite Hgen.
  destruct (increment_progress_tables
              (upsert_embedding w d1 now file (scan_modality fi) v) job 1 0)
    as (Hf & He & _).
  apply (indexed_as_same w _ _ _ _ Hf He). now apply upsert_indexes.
Qed.

(** Processing a candidate keeps what is indexed, as long as the
    provider answers the same for the same path. *)
Lemma process_file_keeps_indexed (w : World) (now : Z) (job : nat) (d : DB)
    (fi : ScanInfo) (p : string) (v : ndarray) :
  consistent d ->
  (scan_path fi = p ->
   EmbeddingGenerator.generate_embedding_for_file w p (scan_modality fi) = Ok (Some v)) ->
  indexed_as w d p v ->
  indexed_as w (process_file w now job d fi) p v.
Proof.
  intros Hc Hsame Hix.
  destruct (string_dec (scan_path fi) p) as [E|Hne].
  - destruct (FileProcessor.validate_file w (scan_path fi)) eqn:Hv.
    + rewrite <- E. apply process_file_indexes; [exact Hv| |rewrite E; auto].
      right. destruct Hix as (f & Hg & _). rewrite E, Hg. discriminate.
    + unfold process_file, _index_file. rewrite Hv. cbn [negb].
      destruct (increment_progress_tables d job 1 0) as (Hf & He & _).
      now apply (indexed_as_same w _ _ _ _ Hf He).
  - unfold process_file, _index_file.
    assert (G : indexed_as w
                  (snd (if negb (FileProcessor.validate_file w (scan_path fi))
                        then (Ok tt, d)
                        else match resolve_file w d (scan_path fi) with
                             | Some (file, d1) =>
                                 match EmbeddingGenerator.generate_embedding_for_file w
                                         (scan_path fi) (scan_modality fi) with
                                 | Ok (Some embedding) =>
                                     (Ok tt, upsert_embedding w d1 now file
                                               (scan_modality fi) embedding)
                                 | Ok None => (Ok tt, d1)
                                 | Raise msg => (Raise msg, d1)
                                 end
                             | None => (Ok tt, d)
                             end)) p v).
    { clear Hsame. destruct (negb _); [exact Hix|].
      destruct (resolve_file w d (scan_path fi)) as [[file d1]|] eqn:Hr; [|exact Hix].
      pose proof (resolve_file_consistent w d d1 _ file Hr Hc) as [Hc1 _].
      apply resolve_file_spec in Hr as (Hg1 & He1 & _ & Hkeep).
      destruct Hix as (f & Hg & Hrows & Hall).
      pose proof (Hkeep p f Hg) as Hg'.
      assert (Hix1 : indexed_as w d1 p v).
      { exists f. unfold EmbeddingCRUD.get_by_file in *. rewrite He1. auto. }
      destruct (EmbeddingGenerator.generate_embedding_for_file _ _ _) as [[v'|]|msg];
        cbn [snd]; try exact Hix1.
      apply (upsert_keeps_indexed w d1 now file _ v' p v f Hg'); [|exact Hix1].
      intros Hid. apply Hne.
      destruct Hc1 as ((_ & _ & U3 & _) & _).
      unfold FileCRUD.get_by_path in Hg1, Hg'.
      apply find_some in Hg1 as [Hin1 Hp1]. apply find_some in Hg' as [Hin2 Hp2].
      apply String.eqb_eq in Hp1, Hp2.
      rewrite (key_unique file_id (files d1) file f U3 Hin1 Hin2 Hid) in Hp1.
      congruence. }
    destruct (if negb _ then _ else _) as [[u|msg] d2]; cbn [snd] in G.
    + destruct (increment_progress_tables d2 job 1 0) as (Hf & He & _).
      now apply (indexed_as_same w _ _ _ _ Hf He).
    + destruct (increment_progress_tables d2 job 1 1) as (Hf & He & _).
      now apply (indexed_as_same w _ _ _ _ Hf He).
Qed.

Lemma process_files_consistent (w : World) (now : Z) (job : nat)
    (l : list ScanInfo) (d : DB) :
  consistent d -> consistent (fold_left (process_file w now job) l d).
Proof.
  revert d. induction l as [|fi l IH]; intros d Hc; cbn; [exact Hc|].
  apply IH. now apply process_file_consistent.
Qed.

Lemma process_files_folders (w : World) (now : Z) (job : nat)
    (l : list ScanInfo) (d : DB) :
  folders (fold_left (process_file w now job) l d) = folders d.
Proof.
  revert d. induction l as [|fi l IH]; intros d; cbn; [reflexivity|].
  now rewrite IH, process_file_folders.
Qed.

Lemma process_files_keep_indexed (w : World) (now : Z) (job : nat)
    (l : list ScanInfo) (d : DB) (p : string) (v : ndarray) :
  consistent d ->
  (forall fi, In fi l -> scan_path fi = p ->
     EmbeddingGenerator.generate_embedding_for_file w p (scan_modality fi) = Ok (Some v)) ->
  indexed_as w d p v ->
  indexed_as w (fold_left (process_file w now job) l d) p v.
Proof.
  revert d. induction l as [|fi l IH]; intros d Hc Hsame Hix; cbn; [exact Hix|].
  apply IH.
  - now apply process_file_consistent.
  - intros fi' Hin. apply Hsame. now right.
  - apply process_file_keeps_indexed; auto. apply Hsame. now left.
Qed.

Lemma process_files_flags (w : World) (now : Z) (job : nat)
    (l : list ScanInfo) (d : DB) :
  flags_kept d (fold_left (process_file w now job) l d).
Proof.
  revert d. induction l as [|x l IH]; intros d; cbn; [apply flags_kept_refl|].
  eapply flags_kept_trans; [apply process_file_flags | apply IH].
Qed.

Lemma update_last_indexed_tables (now : Z) (l : list Folder) (d : DB) :
  let d' := fold_left (fun d f => FolderCRUD.update_last_indexed d (folder_id f) now) l d in
  files d' = files d /\ embeddings d' = embeddings d.
Proof.
  revert d. induction l as [|f l IH]; intros d; cbn; [now split|].
  destruct (IH (FolderCRUD.update_last_indexed d (folder_id f) now)) as [Hf He].
  cbn in Hf, He. rewrite Hf, He. unfold FolderCRUD.update_last_indexed.
  now destruct (FolderCRUD.get d (folder_id f)).
Qed.

Lemma update_status_tables (d : DB) (id : nat) (st : string) (err : option string)
    (now : Z) :
  files (IndexingJobCRUD.update_status d id st err now) = files d
  /\ embeddings (IndexingJobCRUD.update_status d id st err now) = embeddings d
  /\ folders (IndexingJobCRUD.update_status d id st err now) = folders d.
Proof.
  unfold IndexingJobCRUD.update_status. now destruct (IndexingJobCRUD.get d id).
Qed.

(** X19.  A scan job indexes every valid candidate it finds.  When the job
    is over, every file the scan listed that passes validation has a File
    record, and when the provider has a vector for it, the record has
    embedding rows and each of them holds that vector: whatever was stored
    for the path before, and wherever in the list the file came. *)
Theorem scan_indexes_valid_candidates (w : World) (db : DB) (now : Z)
    (folder : option nat) (mode : string) (fi : ScanInfo) :
  consistent db ->
  In fi (collect_files w (folders_to_index db folder)) ->
  FileProcessor.validate_file w (scan_path fi) = true ->
  let db' := snd (index_folder w db now folder mode) in
  (exists f, FileCRUD.get_by_path db' (scan_path fi) = Some f)
  /\ forall v,
       EmbeddingGenerator.generate_embedding_for_file w (scan_path fi)
         (ModalityDetector.detect (scan_path fi)) = Ok (Some v) ->
       indexed_as w db' (scan_path fi) v.
Proof.
  intros Hc Hin Hv db'.
  unfold db', index_folder.
  pose proof (job_create_consistent db
                (if String.eqb mode "full" then "full_scan" else "incremental") folder Hc)
    as Hc1.
  destruct (IndexingJobCRUD.create db _ folder) as [job db1] eqn:Hcreate.
  cbn [snd] in *.
  assert (Hfo1 : folders db1 = folders db)
    by (unfold IndexingJobCRUD.create in Hcreate; now injection Hcreate as _ <-).
  unfold _perform_indexing. rewrite folders_to_index_update_status.
  set (db2 := IndexingJobCRUD.update_status db1 (job_id job) "running" None now).
  assert (Hfolders : folders_to_index db1 folder = folders_to_index db folder).
  { unfold folders_to_index, FolderCRUD.get, FolderCRUD.list_all. now rewrite Hfo1. }
  rewrite Hfolders.
  destruct (folders_to_index db folder) as [|f0 fs] eqn:Hfs; [contradiction|].
  set (all_files := collect_files w (f0 :: fs)) in *.
  set (db3 := IndexingJobCRUD.set_total_files db2 (job_id job) (length all_files)).
  assert (Hc3 : consistent db3).
  { apply (consistent_shape db1); [|exact Hc1].
    unfold db3, db2. now rewrite set_total_files_shape, update_status_shape. }
  assert (Hfo3 : folders db3 = folders db).
  { unfold db3, IndexingJobCRUD.set_total_files.
    destruct (IndexingJobCRUD.get db2 (job_id job)); cbn [folders with_jobs];
      unfold db2; now destruct (update_status_tables db1 (job_id job) "running" None now)
        as (_ & _ & ->). }
  assert (Hmod : forall fi', In fi' all_files ->
            find_folder_id db (scan_path fi') <> None
            /\ scan_modality fi' = ModalityDetector.detect (scan_path fi')).
  { intros fi' Hin'. apply (collect_files_In w db folder). now rewrite Hfs. }
  destruct (in_split fi all_files Hin) as (l1 & l2 & Hsplit).
  set (d := fold_left (process_file w now (job_id job)) l1 db3).
  assert (Hcd : consistent d) by now apply process_files_consistent.
  assert (Hfod : find_folder_id d (scan_path fi) <> None).
  { destruct (Hmod fi Hin) as [Hff _].
    unfold find_folder_id, FolderCRUD.list_all in *. unfold d.
    now rewrite process_files_folders, Hfo3. }
  set (d1 := process_file w now (job_id job) d fi).
  set (final := IndexingJobCRUD.update_status
                  (fold_left (fun d f => FolderCRUD.update_last_indexed d (folder_id f) now)
                     (f0 :: fs)
                     (fold_left (process_file w now (job_id job)) all_files db3))
                  (job_id job) "completed" None now).
  assert (Hloop : fold_left (process_file w now (job_id job)) all_files db3
                  = fold_left (process_file w now (job_id job)) l2 d1).
  { rewrite Hsplit, fold_left_app. reflexivity. }
  assert (Htab : files final
                 = files (fold_left (process_file w now (job_id job)) l2 d1)
                 /\ embeddings final
                    = embeddings (fold_left (process_file w now (job_id job)) l2 d1)).
  { unfold final. rewrite Hloop.
    destruct (update_status_tables
                (fold_left (fun d f => FolderCRUD.update_last_indexed d (folder_id f) now)
                   (f0 :: fs) (fold_left (process_file w now (job_id job)) l2 d1))
                (job_id job) "completed" None now) as (-> & -> & _).
    apply update_last_indexed_tables. }
  destruct Htab as [Hfiles Hembs].
  fold final. split.
  - assert (Hreg : exists f, FileCRUD.get_by_path d1 (scan_path fi) = Some f).
    { unfold d1, process_file, _index_file. rewrite Hv. cbn [negb].
      pose proof (resolve_file_Some w d (scan_path fi) (or_introl Hfod)) as Hsome.
      destruct (resolve_file w d (scan_path fi)) as [[file d0]|] eqn:Hr; [|contradiction].
      apply resolve_file_spec in Hr as (Hg & _).
      assert (G : forall dd, files dd = files d0 \/
                    (exists m v, dd = upsert_embedding w d0 now file m v) ->
                    exists f, FileCRUD.get_by_path dd (scan_path fi) = Some f).
      { intros dd [E|(m & v & ->)].
        - exists file. unfold FileCRUD.get_by_path in *. now rewrite E.
        - destruct (upsert_get_by_path w d0 now file m v _ file Hg) as (f' & Hf' & _).
          now exists f'. }
      destruct (EmbeddingGenerator.generate_embedding_for_file _ _ _) as [[v|]|msg].
      - destruct (G (upsert_embedding w d0 now file (scan_modality fi) v)) as [f Hf];
          [right; eauto|].
        exists f. unfold FileCRUD.get_by_path in *.
        now destruct (increment_progress_tables
                        (upsert_embedding w d0 now file (scan_modality fi) v)
                        (job_id job) 1 0) as (-> & _).
      - exists file. unfold FileCRUD.get_by_path in *.
        now destruct (increment_progress_tables d0 (job_id job) 1 0) as (-> & _).
      - exists file. unfold FileCRUD.get_by_path in *.
        now destruct (increment_progress_tables d0 (job_id job) 1 1) as (-> & _). }
    destruct Hreg as [f Hf].
    assert (Hc1' : consistent d1) by now apply process_file_consistent.
    assert (Hkept : flags_kept d1 (fold_left (process_file w now (job_id job)) l2 d1))
      by apply process_files_flags.
    assert (Hc2 : consistent (fold_left (process_file w now (job_id job)) l2 d1))
      by now apply process_files_consistent.
    pose proof Hf as Hf0. unfold FileCRUD.get_by_path in Hf0.
    apply find_some in Hf0 as [Hinf Hpath]. apply String.eqb_eq in Hpath.
    destruct Hc1' as ((_ & _ & U3 & _) & _).
    pose proof (find_key_unique file_id (files d1) f U3 Hinf) as Hget.
    destruct (Hkept (file_id f) f Hget) as (f' & Hget' & Hkeys & _).
    injection Hkeys as _ Hp' _.
    unfold FileCRUD.get in Hget'. apply find_some in Hget' as [Hin' _].
    unfold FileCRUD.get_by_path. rewrite Hfiles.
    destruct (List.find (fun x => String.eqb (file_path x) (scan_path fi))
                (files (fold_left (process_file w now (job_id job)) l2 d1)))
      as [g|] eqn:Hfind; [now exists g|].
    apply (find_none _ _ Hfind) in Hin'. rewrite Hp', Hpath, String.eqb_refl in Hin'.
    discriminate.
  - intros v Hgen.
    apply (indexed_as_same w (fold_left (process_file w now (job_id job)) l2 d1));
      [exact Hfiles | exact Hembs |].
    apply process_files_keep_indexed.
    + now apply process_file_consistent.
    + intros fi' Hin' E.
      assert (Hin2 : In fi' all_files)
        by (rewrite Hsplit; apply in_or_app; right; now right).
      destruct (Hmod fi' Hin2) as [_ ->]. now rewrite E.
    + apply process_file_indexes; [exact Hv | now left|].
      destruct (Hmod fi Hin) as [_ ->]. exact Hgen.
Qed.

End ScanResult.


(** ** The jobs table under a scan job *)

Section JobsTable.

Import IndexingService.

(** Only rows with key [job] differ between the two tables. *)
Lemma touches_refl (job : nat) (l : list IndexingJob) :
  exists g, l = update_rows job_id job g l
            /\ forall r, job_id (g r) = job_id r
                         /\ job_folder_id (g r) = job_folder_id r.
Proof.
  exists (fun r => r). split; [|now split].
  unfold update_rows. rewrite <- (map_id l) at 1. apply map_ext.
  intros r. now destruct (Nat.eqb (job_id r) job).
Qed.

Lemma touches_step (job : nat) (l l1 : list IndexingJob)
    (g h : IndexingJob -> IndexingJob) :
  l1 = update_rows job_id job g l -> 
  (forall r, job_id (g r) = job_id r /\ job_folder_id (g r) = job_folder_id r) ->
  (forall r, job_id (h r) = job_id r /\ job_folder_id (h r) = job_folder_id r) ->
  exists g', update_rows job_id job h l1 = update_rows job_id job g' l
             /\ forall r, job_id (g' r) = job_id r
                          /\ job_folder_id (g' r) = job_folder_id r.
Proof.
  intros -> Hg Hh. exists (fun r => h (g r)). split.
  - unfold update_rows. rewrite map_map. apply map_ext. intros r.
    destruct (Nat.eqb (job_id r) job) eqn:E; [|now rewrite E].
    now rewrite (proj1 (Hg r)), E.
  - intros r. destruct (Hh (g r)) as [-> ->]. apply Hg.
Qed.

Lemma update_status_touches (d : DB) (job : nat) (st : string)
    (err : option string) (now : Z) (l : list IndexingJob)
    (g : IndexingJob -> IndexingJob) :
  jobs d = update_rows job_id job g l -> 
  (forall r, job_id (g r) = job_id r /\ job_folder_id (g r) = job_folder_id r) ->
  exists g', jobs (IndexingJobCRUD.update_status d job st err now)
             = update_rows job_id job g' l
             /\ forall r, job_id (g' r) = job_id r
                          /\ job_folder_id (g' r) = job_folder_id r.
Proof.
  intros H Hg. unfold IndexingJobCRUD.update_status.
  destruct (IndexingJobCRUD.get d job); [|eauto].
  cbn [jobs with_jobs]. apply (touches_step job l (jobs d) g); auto.
Qed.

Lemma set_total_files_touches (d : DB) (job n : nat) (l : list IndexingJob)
    (g : IndexingJob -> IndexingJob) :
  jobs d = update_rows job_id job g l -> 
  (forall r, job_id (g r) = job_id r /\ job_folder_id (g r) = job_folder_id r) ->
  exists g', jobs (IndexingJobCRUD.set_total_files d job n)
             = update_rows job_id job g' l
             /\ forall r, job_id (g' r) = job_id r
                          /\ job_folder_id (g' r) = job_folder_id r.
Proof.
  intros H Hg. unfold IndexingJobCRUD.set_total_files.
  destruct (IndexingJobCRUD.get d job); [|eauto].
  cbn [jobs with_jobs]. apply (touches_step job l (jobs d) g); auto.
Qed.

Lemma increment_progress_touches (d : DB) (job p f : nat) (l : list IndexingJob)
    (g : IndexingJob -> IndexingJob) :
  jobs d = update_rows job_id job g l -> 
  (forall r, job_id (g r) = job_id r /\ job_folder_id (g r) = job_folder_id r) ->
  exists g', jobs (IndexingJobCRUD.increment_progress d job p f)
             = update_rows job_id job g' l
             /\ forall r, job_id (g' r) = job_id r
                          /\ job_folder_id (g' r) = job_folder_id r.
Proof.
  intros H Hg. unfold IndexingJobCRUD.increment_progress.
  destruct (IndexingJobCRUD.get d job); [|eauto].
  cbn [jobs with_jobs]. apply (touches_step job l (jobs d) g); auto.
Qed.

Lemma process_files_touch (w : World) (now : Z) (job : nat) (files : list ScanInfo)
    (l : list IndexingJob) :
  forall d g,
    jobs d = update_rows job_id job g l -> 
  (forall r, job_id (g r) = job_id r /\ job_folder_id (g r) = job_folder_id r) ->
    exists g', jobs (fold_left (process_file w now job) files d)
               = update_rows job_id job g' l
               /\ forall r, job_id (g' r) = job_id r
                          /\ job_folder_id (g' r) = job_folder_id r.
Proof.
  induction files as [|fi files IH]; intros d g H Hg; cbn [fold_left]; [eauto|].
  assert (H1 : exists g1, jobs (process_file w now job d fi) = update_rows job_id job g1 l
                          /\ forall r, job_id (g1 r) = job_id r
                                       /\ job_folder_id (g1 r) = job_folder_id r).
  { unfold process_file. pose proof (index_file_jobs w d now fi) as Hj.
    destruct (_index_file w d now fi) as [[u|msg] d1]; cbn [snd] in Hj;
      apply (increment_progress_touches _ _ _ _ l g); auto; congruence. }
  destruct H1 as (g1 & H1 & Hg1). exact (IH _ g1 H1 Hg1).
Qed.

Lemma update_last_indexed_jobs (now : Z) (l : list Folder) (d : DB) :
  jobs (fold_left (fun d f => FolderCRUD.update_last_indexed d (folder_id f) now) l d)
  = jobs d.
Proof.
  revert d. induction l as [|f l IH]; intros d; cbn; [reflexivity|].
  rewrite IH. unfold FolderCRUD.update_last_indexed.
  now destruct (FolderCRUD.get d (folder_id f)).
Qed.

Lemma update_rows_fresh (job : nat) (g : IndexingJob -> IndexingJob)
    (l : list IndexingJob) (j0 : IndexingJob) :
  ~ In job (map job_id l) -> job_id j0 = job ->
  update_rows job_id job g (l ++ [j0]) = l ++ [g j0].
Proof.
  intros Hfresh Hj. unfold update_rows. rewrite map_app. cbn.
  rewrite Hj, Nat.eqb_refl. f_equal.
  rewrite <- (map_id l) at 2. apply map_ext_in. intros r Hr.
  destruct (Nat.eqb (job_id r) job) eqn:E; [|reflexivity].
  apply Nat.eqb_eq in E. exfalso. apply Hfresh. rewrite <- E. now apply in_map.
Qed.

(** X20.  A scan job writes one row to the jobs table and touches no other:
    when it is over, the table is the table there was followed by the row
    of the job, under a key no job had, with status completed; so the
    number of active jobs is what it was. *)
Theorem index_folder_adds_one_job (w : World) (db : DB) (now : Z)
    (folder : option nat) (mode : string) :
  let job := fst (index_folder w db now folder mode) in
  let db' := snd (index_folder w db now folder mode) in
  ~ In job (map job_id (jobs db))
  /\ (exists j, jobs db' = jobs db ++ [j]
                /\ job_id j = job
                /\ job_folder_id j = folder
                /\ status j = "completed")
  /\ IndexingJobCRUD.count_active db' = IndexingJobCRUD.count_active db.
Proof.
  intros job db'.
  assert (H : ~ In job (map job_id (jobs db))
              /\ exists j, jobs db' = jobs db ++ [j] /\ job_id j = job
                           /\ job_folder_id j = folder /\ status j = "completed").
  { unfold job, db', index_folder.
    pose proof (create_job_get db
                  (if String.eqb mode "full" then "full_scan" else "incremental")
                  folder) as Hget.
    destruct (IndexingJobCRUD.create db _ folder) as [j0 db1] eqn:Hcreate.
    cbn [fst snd] in *.
    assert (Hj0 : jobs db1 = jobs db ++ [j0]
                  /\ job_id j0 = next_id job_id (jobs db)
                  /\ job_folder_id j0 = folder
                  /\ total_files j0 = 0 /\ processed_files j0 = 0
                  /\ failed_files j0 = 0).
    { unfold IndexingJobCRUD.create in Hcreate. injection Hcreate as <- <-.
      now repeat split. }
    destruct Hj0 as (Hjobs & Hid & Hfol & Ht & Hp & Hf).
    assert (Hfresh : ~ In (job_id j0) (map job_id (jobs db)))
      by (rewrite Hid; apply next_id_not_In).
    split; [exact Hfresh|].
    destruct (perform_indexing_job w db1 now (job_id j0) folder mode j0 Hget Ht Hp Hf)
      as (j' & Hget' & Hst & _).
    assert (Htouch : exists g,
               jobs (_perform_indexing w db1 now (job_id j0) folder mode)
               = update_rows job_id (job_id j0) g (jobs db1)
               /\ forall r, job_id (g r) = job_id r
                            /\ job_folder_id (g r) = job_folder_id r).
    { unfold _perform_indexing.
      destruct (touches_refl (job_id j0) (jobs db1)) as (g0 & H0 & Hg0).
      destruct (update_status_touches db1 (job_id j0) "running" None now
                  (jobs db1) g0 H0 Hg0) as (g1 & H1 & Hg1).
      destruct (folders_to_index _ folder) as [|f0 fs].
      - exact (update_status_touches _ _ _ _ _ _ g1 H1 Hg1).
      - destruct (set_total_files_touches _ (job_id j0)
                    (length (collect_files w (f0 :: fs))) _ g1 H1 Hg1)
          as (g2 & H2 & Hg2).
        destruct (process_files_touch w now (job_id j0)
                    (collect_files w (f0 :: fs)) (jobs db1) _ g2 H2 Hg2)
          as (g3 & H3 & Hg3).
        apply (update_status_touches _ _ _ _ _ _ g3); [|exact Hg3].
        now rewrite update_last_indexed_jobs. }
    destruct Htouch as (g & Hg & Hgid).
    rewrite Hjobs, (update_rows_fresh _ g _ j0 Hfresh eq_refl) in Hg.
    exists (g j0). split; [exact Hg|]. split; [apply Hgid|].
    split; [now rewrite (proj2 (Hgid j0))|].
    assert (Hj' : j' = g j0).
    { unfold IndexingJobCRUD.get in Hget'. rewrite Hg, find_app in Hget'.
      destruct (List.find _ (jobs db)) as [x|] eqn:Hx.
      - apply find_some in Hx as [Hin Heq]. apply Nat.eqb_eq in Heq.
        exfalso. apply Hfresh. rewrite <- Heq. now apply in_map.
      - cbn in Hget'. rewrite (proj1 (Hgid j0)), Nat.eqb_refl in Hget'. congruence. }
    now subst j'. }
  destruct H as (Hfresh & j & Hj & Hid & Hfol & Hst).
  split; [exact Hfresh|]. split; [now exists j|].
  unfold IndexingJobCRUD.count_active. rewrite Hj, List.filter_app, length_app.
  cbn. rewrite Hst. cbn. lia.
Qed.

End JobsTable.


(** ** The watcher *)

Section Watcher.

Import FileWatcher.

Lemma start_loop (w : World) (is_dir : string -> bool) (l : list Folder) (fw : t) :
  let fw' := fold_left
               (fun acc folder =>
                  snd (add_folder w is_dir acc (folder_path folder) (folder_id folder)))
               l fw in
  observers fw'
  = observers fw
    ++ map (fun f => (folder_path f, folder_id f))
         (List.filter (fun f => path_exists w (folder_path f) && is_dir (folder_path f)) l)
  /\ _running fw' = _running fw.
Proof.
  revert fw. induction l as [|f l IH]; intros fw; cbn [fold_left List.filter map].
  - now rewrite app_nil_r.
  - destruct (IH (snd (add_folder w is_dir fw (folder_path f) (folder_id f))))
      as [Ho Hr].
    cbn zeta in Ho, Hr. rewrite Ho, Hr. unfold add_folder.
    destruct (path_exists w (folder_path f)); cbn; [|now split].
    destruct (is_dir (folder_path f)); cbn; [|now split].
    now rewrite <- app_assoc.
Qed.

(** X21.  Starting the watcher puts one observer, in storage order, on
    every active folder of the database whose path is an existing
    directory, and on no other folder; starting a running watcher changes
    nothing; stopping a running watcher leaves no observer, and stopping a
    stopped one changes nothing. *)
Theorem watcher_start_stop (w : World) (is_dir : string -> bool) (db : DB) (fw : t) :
  _running fw = false ->
  let fw' := start w is_dir db fw in
  _running fw' = true
  /\ observers fw'
     = observers fw
       ++ map (fun f => (folder_path f, folder_id f))
            (List.filter
               (fun f => is_active f && path_exists w (folder_path f)
                         && is_dir (folder_path f))
               (folders db))
  /\ start w is_dir db fw' = fw'
  /\ stop fw' = init
  /\ stop fw = fw.
Proof.
  intros Hr fw'.
  assert (H : _running fw' = true
              /\ observers fw'
                 = observers fw
                   ++ map (fun f => (folder_path f, folder_id f))
                        (List.filter
                           (fun f => is_active f && path_exists w (folder_path f)
                                     && is_dir (folder_path f))
                           (folders db))).
  { unfold fw', start. rewrite Hr.
    destruct (start_loop w is_dir (FolderCRUD.list_all db true)
                {| observers := observers fw; _running := true |}) as [Ho Hrun].
    cbn zeta in Ho, Hrun. rewrite Ho, Hrun. split; [reflexivity|].
    cbn [observers]. f_equal. f_equal. unfold FolderCRUD.list_all.
    clear. induction (folders db) as [|f l IH]; cbn; [reflexivity|].
    destruct (is_active f); cbn; [|exact IH].
    destruct (path_exists w (folder_path f) && is_dir (folder_path f)); cbn;
      now rewrite IH. }
  destruct H as [Hrun Hobs]. split; [exact Hrun|]. split; [exact Hobs|].
  split; [|split].
  - unfold start at 1. now rewrite Hrun.
  - unfold stop. now rewrite Hrun.
  - unfold stop. now rewrite Hr.
Qed.

End Watcher.

(** ** The properties above on the sample data *)

Section Examples.

Import MultimodalEventHandler.

Lemma run_queue_is_trace_witness :
  map (fun e => (action e, ev_path e)) (queue (run Sample.handler0 Sample.calls))
  = [("create", "/media/a.mp4"); ("modify", "/media/a.mp4");
     ("create", "/media/b.mp4"); ("delete", "/media/b.mp4")]
  /\ ModalityDetector.is_supported "/media/a.mp4" = true.
Proof.
  destruct (run_queue_is_trace Sample.handler0 Sample.calls) as (Hq & _ & _ & Hall).
  split.
  - rewrite Hq. reflexivity.
  - apply Forall_inv in Hall. destruct Hall as (_ & Hs & _).
    apply Hs. discriminate.
Defined.

Lemma forwarded_events_spaced_witness :
  (0 <= cooldown_seconds Sample.handler0)%Q
  /\ ForallOrdPairs (spaced 2)
       [ {| fwd_time := Some 100%Q; fwd_action := "create"; fwd_path := "/media/a.mp4" |};
         {| fwd_time := Some 103%Q; fwd_action := "modify"; fwd_path := "/media/a.mp4" |};
         {| fwd_time := Some 105%Q; fwd_action := "create"; fwd_path := "/media/b.mp4" |};
         {| fwd_time := None; fwd_action := "delete"; fwd_path := "/media/b.mp4" |} ].
Proof.
  assert (H0 : (0 <= cooldown_seconds Sample.handler0)%Q) by (cbn; lra).
  split; [exact H0|].
  exact (forwarded_events_spaced Sample.handler0 Sample.calls H0).
Defined.

Lemma other_paths_do_not_interfere_witness :
  ~ In "/media/c.mp4"
      (call_paths (Moved 104 105 (Sample.move_event "/media/a.mp4" "/media/b.mp4")))
  /\ last_event_time
       (dispatch Sample.handler_after_create
          (Moved 104 105 (Sample.move_event "/media/a.mp4" "/media/b.mp4")))
       !! "/media/c.mp4" = None
  /\ fst (_should_process
            (dispatch Sample.handler_after_create
               (Moved 104 105 (Sample.move_event "/media/a.mp4" "/media/b.mp4")))
            105 "/media/c.mp4") = true.
Proof.
  assert (Hni : ~ In "/media/c.mp4"
                  (call_paths (Moved 104 105
                     (Sample.move_event "/media/a.mp4" "/media/b.mp4")))).
  { cbn. intros [H|[H|[]]]; discriminate. }
  split; [exact Hni|].
  destruct (other_paths_do_not_interfere Sample.handler_after_create
              (Moved 104 105 (Sample.move_event "/media/a.mp4" "/media/b.mp4"))
              105 "/media/c.mp4" Hni) as [H1 H2].
  split; [rewrite H1 | rewrite H2]; reflexivity.
Defined.

Ltac nodup :=
  vm_compute;
  repeat (constructor; [let H := fresh in intros H; cbn in H; intuition discriminate|]);
  constructor.


Lemma sample_registered_consistent : consistent Sample.db_registered.
Proof.
  split; [|split].
  - repeat split; nodup.
  - split; intros x [].
  - intros file. cbn. lia.
Qed.

Lemma sample_scanned_consistent : consistent Sample.db_scanned.
Proof.
  unfold Sample.db_scanned, Sample.scanned, IndexingService.index_folder.
  pose proof (job_create_consistent Sample.db_registered "full_scan" (Some 1)
                sample_registered_consistent) as H.
  cbn [String.eqb Ascii.eqb Bool.eqb].
  destruct (IndexingJobCRUD.create Sample.db_registered _ (Some 1)) as [job db1].
  cbn [snd] in *. now apply perform_indexing_consistent.
Qed.

Lemma index_folder_consistent_witness :
  consistent Sample.db_registered
  /\ consistent (snd (IndexingService.index_folder Sample.world Sample.db_registered
                        7 (Some 1) "full")).
Proof.
  split; [exact sample_registered_consistent|].
  exact (index_folder_consistent Sample.world Sample.db_registered 7 (Some 1) "full"
           sample_registered_consistent).
Defined.

Lemma process_event_keeps_rows_witness :
  let event := {| action := "delete"; ev_folder_id := 1; ev_path := "/media/a.mp3" |} in
  let db' := IndexingWorker._process_event Sample.world Sample.db_scanned event in
  map file_id (files db') = [1; 2; 3]
  /\ jobs db' = jobs Sample.db_scanned
  /\ consistent db'.
Proof.
  intros event db'.
  destruct (process_event_keeps_rows Sample.world Sample.db_scanned event)
    as (_ & Hk & Hj & Hc).
  split; [reflexivity|]. split; [exact Hj|].
  exact (Hc sample_scanned_consistent).
Defined.

Lemma scan_for_deleted_files_flags_missing_witness :
  let r := DeletionTracker.scan_for_deleted_files Sample.world_without_a
             Sample.db_scanned 1 in
  fst r = 1
  /\ map (fun f => (file_path f, is_deleted f)) (files (snd r))
     = [("/media/a.mp3", true); ("/media/b.mp3", false); ("/media/c.mp4", false)]
  /\ embeddings (snd r) = embeddings Sample.db_scanned
  /\ fst (DeletionTracker.scan_for_deleted_files Sample.world_without_a (snd r) 1) = 0.
Proof.
  intros r.
  assert (Hids : List.NoDup (map file_id (files Sample.db_scanned))) by nodup.
  assert (Hpaths : List.NoDup (map file_path (files Sample.db_scanned))) by nodup.
  assert (Hfo : exists fo, FolderCRUD.get Sample.db_scanned 1 = Some fo)
    by (eexists; reflexivity).
  destruct Hfo as [fo Hfo].
  destruct (scan_for_deleted_files_flags_missing Sample.world_without_a
              Sample.db_scanned 1 fo Hids Hpaths Hfo)
    as (H1 & H2 & _ & H4 & _ & H6).
  fold r in H1, H2, H4, H6.
  split; [rewrite H1; reflexivity|].
  split; [rewrite H2; reflexivity|].
  split; [exact H4 | exact H6].
Defined.

Lemma count_by_folder_after_mark_deleted_witness :
  FileCRUD.count_by_folder Sample.db_scanned 1 = 3
  /\ FileCRUD.count_by_folder Sample.db_deleted 1 = 2.
Proof.
  assert (Hids : List.NoDup (map file_id (files Sample.db_scanned))) by nodup.
  assert (Hf : exists f,
             FileCRUD.get_by_path Sample.db_scanned "/media/a.mp3" = Some f
             /\ is_deleted f = false /\ file_folder_id f = 1)
    by (eexists; repeat split; reflexivity).
  destruct Hf as (f & Hf & Hlive & Hfo).
  destruct (count_by_folder_after_mark_deleted Sample.db_scanned "/media/a.mp3" f
              Hids Hf Hlive) as (H1 & H2 & _).
  rewrite Hfo in H2. split; [reflexivity|].
  unfold Sample.db_deleted, DeletionTracker.mark_file_deleted.
  apply eq_add_S. rewrite H2. reflexivity.
Defined.


Lemma find_similar_files_results_witness :
  exists resp,
    SearchService.find_similar_files Sample.world_two_tunes Sample.db_two_tunes 1 5 0
    = Ok resp
    /\ map res_path (results resp) = ["/media/b.mp3"]
    /\ Forall (fun r => res_file_id r <> 1) (results resp)
    /\ descending similarity (results resp)
    /\ total resp = 1.
Proof.
  eexists. split; [reflexivity|].
  destruct (find_similar_files_results Sample.world_two_tunes Sample.db_two_tunes
              1 5 0 _ eq_refl) as (Hall & Hdesc & _ & Htot & _).
  split; [reflexivity|]. split; [|split; [exact Hdesc | exact Htot]].
  eapply List.Forall_impl; [|exact Hall]. intros r Hr. apply Hr.
Defined.

Lemma find_similar_files_top_k_of_others_witness :
  map res_path
    (match SearchService.find_similar_files Sample.world_two_tunes
             Sample.db_two_tunes 1 5 0 with
     | Ok resp => results resp
     | Raise _ => []
     end)
  = map (fun r => file_path (fst r))
      (EmbeddingCRUD.search_similar Sample.world_two_tunes
         (snd (EmbeddingCRUD.delete_by_file Sample.db_two_tunes 1))
         [1; 0]%Q (Some "audio") None 5 0 true).
Proof.
  assert (H : exists file first blob,
             FileCRUD.get Sample.db_two_tunes 1 = Some file
             /\ EmbeddingCRUD.get_by_file Sample.db_two_tunes 1 = [first]
             /\ vector first = Some blob
             /\ file_modality file = Some "audio"
             /\ deserialize_array Sample.world_two_tunes blob = [1; 0]%Q)
    by (do 3 eexists; repeat split; reflexivity).
  destruct H as (file & first & blob & Hg & He & Hv & Hm & Hb).
  rewrite (find_similar_files_top_k_of_others Sample.world_two_tunes
             Sample.db_two_tunes 1 5 0 file first blob Hg He Hv).
  cbn [results]. rewrite Hm, Hb, map_map. reflexivity.
Defined.

Lemma soft_delete_is_permanent_witness :
  let ops := [ ScanJob 9 (Some 1) "full";
               WorkerEvent {| action := "create"; ev_folder_id := 1;
                              ev_path := "/media/a.mp3" |};
               FolderAudit 1;
               SearchCall true Sample.text_request ] in
  let db' := fold_left (perform Sample.world) ops Sample.db_deleted in
  deleted_file Sample.db_deleted 1
  /\ deleted_file db' 1
  /\ forall resp db'',
       SearchService.search Sample.world true db' Sample.text_request = (Ok resp, db'') ->
       ~ In 1 (map res_file_id (results resp)).
Proof.
  intros ops db'.
  assert (H : deleted_file Sample.db_deleted 1) by (eexists; split; reflexivity).
  split; [exact H|].
  destruct (soft_delete_is_permanent Sample.world Sample.db_deleted 1 ops H)
    as (H1 & H2 & _).
  split; [exact H1|]. intros resp db''. apply H2.
Defined.

Lemma query_embedding_entries_witness :
  exists d,
    SimilarityCalculator.compute_query_embedding Sample.world "a tune" "text"
      ["audio"; "video"; "audio_video"] = Ok d
    /\ List.NoDup (map fst d)
    /\ In ("audio", [1; 0]%Q) d
    /\ ~ In "audio_video" (map fst d).
Proof.
  eexists. split; [reflexivity|].
  destruct (query_embedding_entries Sample.world "a tune" "text"
              ["audio"; "video"; "audio_video"] _ eq_refl) as [Hk Hd].
  split; [exact Hk|]. split.
  - apply Hd. split; [now left|]. left. split; reflexivity.
  - intros Hin. apply in_map_iff in Hin as [[m v] [Hm Hin]]. cbn in Hm. subst m.
    apply Hd in Hin as [_ [[_ Hg]|[[E _]|[E _]]]]; discriminate.
Defined.

Lemma search_compares_compatible_modalities_witness :
  exists resp db',
    SearchService.search Sample.world true Sample.db_scanned Sample.audio_request
    = (Ok resp, db')
    /\ map res_path (results resp) = ["/media/a.mp3"]
    /\ Forall (fun r => exists e m,
                 In e (embeddings Sample.db_scanned)
                 /\ emb_file_id e = res_file_id r
                 /\ (m = "" \/ emb_modality e = Some m)
                 /\ In m ["audio"; "audio_video"])
              (results resp).
Proof.
  do 2 eexists. split; [reflexivity|]. split; [reflexivity|].
  destruct (search_compares_compatible_modalities Sample.world true Sample.db_scanned
              Sample.audio_request _ _ eq_refl) as [Hall _].
  eapply List.Forall_impl; [|exact Hall].
  intros r (e & m & He & Hid & _ & Hm & Ha & _).
  exists e, m. repeat split; auto.
Defined.


Lemma folder_delete_cascade_witness :
  let db' := snd (FolderCRUD.delete Sample.db_scanned 1) in
  consistent Sample.db_scanned
  /\ consistent db'
  /\ FolderCRUD.get db' 1 = None
  /\ files db' = [] /\ embeddings db' = []
  /\ map job_id (jobs db') = map job_id (jobs Sample.db_scanned).
Proof.
  intros db'.
  assert (Hfo : exists fo, FolderCRUD.get Sample.db_scanned 1 = Some fo)
    by (eexists; reflexivity).
  destruct Hfo as [fo Hfo].
  destruct (folder_delete_cascade Sample.db_scanned 1 fo sample_scanned_consistent Hfo)
    as (_ & Hc & Hg & _ & _ & _ & Hj & _).
  split; [exact sample_scanned_consistent|]. split; [exact Hc|].
  split; [exact Hg|]. split; [reflexivity|]. split; [reflexivity | exact Hj].
Defined.

Lemma embedding_rows_round_trip_witness :
  let created := EmbeddingCRUD.create Sample.world Sample.db_scanned 2 [0; 1]%Q
                   (Some "audio") "audio_embeds" in
  deserialize_array Sample.world (serialize_array Sample.world [0; 1]%Q) = [0; 1]%Q
  /\ EmbeddingCRUD.get_vector Sample.world (snd created) (emb_id (fst created))
     = Some [0; 1]%Q
  /\ fst (EmbeddingCRUD.delete_by_file (snd created) 2) = 1
  /\ embeddings (snd (EmbeddingCRUD.delete_by_file (snd created) 2))
     = embeddings Sample.db_scanned.
Proof.
  intros created.
  assert (Hrt : deserialize_array Sample.world (serialize_array Sample.world [0; 1]%Q)
                = [0; 1]%Q) by reflexivity.
  split; [exact Hrt|].
  destruct (embedding_rows_round_trip Sample.world Sample.db_scanned 2 [0; 1]%Q
              (Some "audio") "audio_embeds" Hrt)
    as (H1 & _ & _ & H4 & _ & _ & _ & H8).
  subst created. split; [exact H1|]. split; [rewrite H4; reflexivity|].
  rewrite H8. reflexivity.
Defined.

Lemma scan_indexes_valid_candidates_witness :
  consistent Sample.db_registered
  /\ In (Sample.scan_info "/media/a.mp3")
        (IndexingService.collect_files Sample.world
           (IndexingService.folders_to_index Sample.db_registered (Some 1)))
  /\ FileProcessor.validate_file Sample.world "/media/a.mp3" = true
  /\ (exists f, FileCRUD.get_by_path Sample.db_scanned "/media/b.mp3" = Some f)
  /\ indexed_as Sample.world Sample.db_scanned "/media/a.mp3" [1; 0]%Q.
Proof.
  assert (Ha : In (Sample.scan_info "/media/a.mp3")
                 (IndexingService.collect_files Sample.world
                    (IndexingService.folders_to_index Sample.db_registered (Some 1))))
    by (vm_compute; auto).
  assert (Hb : In (Sample.scan_info "/media/b.mp3")
                 (IndexingService.collect_files Sample.world
                    (IndexingService.folders_to_index Sample.db_registered (Some 1))))
    by (vm_compute; auto).
  split; [exact sample_registered_consistent|]. split; [exact Ha|].
  split; [reflexivity|].
  destruct (scan_indexes_valid_candidates Sample.world Sample.db_registered 7 (Some 1)
              "full" (Sample.scan_info "/media/a.mp3")
              sample_registered_consistent Ha eq_refl) as [_ H2].
  destruct (scan_indexes_valid_candidates Sample.world Sample.db_registered 7 (Some 1)
              "full" (Sample.scan_info "/media/b.mp3")
              sample_registered_consistent Hb eq_refl) as [H1 _].
  split; [exact H1|]. exact (H2 [1; 0]%Q eq_refl).
Defined.

Lemma index_folder_adds_one_job_witness :
  exists j, jobs Sample.db_scanned = [j]
            /\ job_id j = 1 /\ status j = "completed"
            /\ IndexingJobCRUD.count_active Sample.db_scanned = 0.
Proof.
  destruct (index_folder_adds_one_job Sample.world Sample.db_registered 7 (Some 1) "full")
    as (_ & (j & Hj & Hid & _ & Hst) & Hc).
  exists j. split; [exact Hj|]. split; [exact Hid|]. split; [exact Hst | exact Hc].
Defined.

Lemma watcher_start_stop_witness :
  let fw := FileWatcher.start Sample.world Sample.is_dir Sample.db_scanned
              FileWatcher.init in
  FileWatcher._running FileWatcher.init = false
  /\ FileWatcher.observers fw = [("/media", 1)]
  /\ FileWatcher.start Sample.world Sample.is_dir Sample.db_scanned fw = fw
  /\ FileWatcher.stop fw = FileWatcher.init.
Proof.
  intros fw. subst fw. split; [reflexivity|].
  destruct (watcher_start_stop Sample.world Sample.is_dir Sample.db_scanned
              FileWatcher.init eq_refl) as (_ & Ho & Hs & Hst & _).
  split; [rewrite Ho; reflexivity|]. split; [exact Hs | exact Hst].
Defined.

End Examples.
